(** * odds-collector: discovery, scheduling, execution and index maintenance

    A shallow embedding of the TypeScript sources of the collector
    (utils/pathUtils, core/JobScheduler, storage/R2Storage,
    core/IndexBuilder, core/OddsCollector) together with the properties
    its design document states about them.

    Conventions of the embedding.
    - A text is the sequence of the bytes of its UTF-8 encoding.
    - An instant is an integer number of milliseconds since the epoch.  The
      ISO-8601 texts the program keeps in time columns ([scheduled_time],
      [last_attempt], ...) are represented by the instant they denote;
      [ORDER BY] on such a column is the order of the instants, and
      SQLite's [datetime()] cuts an instant to the whole second.  Texts the
      program only copies ([kickoffTime], [matchDate]) stay strings.
    - A JavaScript number the program computes with ([hoursBeforeKickoff])
      is an IEEE 754 binary64 value, and its arithmetic rounds as binary64
      does; prices, which are only copied, are the rationals their decimal
      texts denote; counters are integers; row limits and minutes are
      natural numbers.
    - [Date] getters that read local time take the offset of the host's
      zone as an explicit argument; the Worker runtime runs in UTC.
    - A JavaScript object used as a dictionary is an association list in
      insertion order, which is the enumeration order of [Object.entries]
      for the non-numeric keys this program uses.
    - A thrown exception (a rejected promise) is the [Throw] outcome of a
      state-and-exception monad; effects performed before the throw stay
      in the state.  Time passes only in [delay]. *)

From Stdlib Require Import ZArith QArith Lia Ascii String List Permutation.
From Stdlib Require Floats.
From stdpp Require Import base decidable option list strings pretty sorting.

Local Open Scope Z_scope.

(** ** JavaScript prelude *)

Definition instant := Z.

(** [x || null] on an optional string: [undefined] and the empty string are
    both falsy. *)
Definition or_null (x : option string) : option string :=
  match x with
  | Some "" => None
  | _ => x
  end.

(** Dictionaries ([Record<string, V>], [Map<string, V>]). *)
Definition dict (V : Type) := list (string * V).

Fixpoint dict_get {V} (k : string) (d : dict V) : option V :=
  match d with
  | [] => None
  | (k', v) :: d' => if String.eqb k k' then Some v else dict_get k d'
  end.

(** [d[k] = v]: an existing key keeps its position, a new key is appended. *)
Fixpoint dict_set {V} (k : string) (v : V) (d : dict V) : dict V :=
  match d with
  | [] => [(k, v)]
  | (k', v') :: d' =>
      if String.eqb k k' then (k', v) :: d' else (k', v') :: dict_set k v d'
  end.

Definition dict_has {V} (k : string) (d : dict V) : bool :=
  match dict_get k d with Some _ => true | None => false end.

Definition dict_keys {V} (d : dict V) : list string := map fst d.

(** [delete d[k]], [Map.prototype.delete]. *)
Definition dict_remove {V} (k : string) (d : dict V) : dict V :=
  List.filter (fun kv => negb (String.eqb k (fst kv))) d.

(** [s.slice(0, n)]. *)
Fixpoint slice0 (n : nat) (s : string) : string :=
  match n, s with
  | S n', String c s' => String c (slice0 n' s')
  | _, _ => ""
  end.

(** [parts.join(sep)]. *)
Fixpoint join (sep : string) (parts : list string) : string :=
  match parts with
  | [] => ""
  | [p] => p
  | p :: ps => p +:+ sep +:+ join sep ps
  end.

(** [s.split(',').length]: one more than the number of commas. *)
Fixpoint split_count (sep : ascii) (s : string) : Z :=
  match s with
  | "" => 1
  | String c s' => (if Ascii.eqb c sep then 1 else 0) + split_count sep s'
  end.

(** [s.split(sep)[0]]: the text before the first separator. *)
Fixpoint split_head (sep : ascii) (s : string) : string :=
  match s with
  | "" => ""
  | String c s' => if Ascii.eqb c sep then "" else String c (split_head sep s')
  end.

(** [s.split(sep)] for a one-character separator. *)
Fixpoint split (sep : ascii) (s : string) : list string :=
  match s with
  | "" => [""]
  | String c s' =>
      if Ascii.eqb c sep then "" :: split sep s'
      else
        match split sep s' with
        | part :: parts => String c part :: parts
        | [] => [String c ""]
        end
  end.

(** [parts.pop()] on a fresh array: its last element, or [undefined]. *)
Definition pop (parts : list string) : option string := List.last (map Some parts) None.

(** [s.endsWith(suffix)]. *)
Fixpoint endsWith (suffix s : string) : bool :=
  String.eqb s suffix
  || match s with
     | "" => false
     | String _ s' => endsWith suffix s'
     end.

(** [s.slice(0, -n)]. *)
Definition slice_end (n : nat) (s : string) : string :=
  slice0 (String.length s - n) s.

(** [hay.includes(needle)]. *)
Definition includes (needle hay : string) : bool :=
  match String.index 0 needle hay with
  | Some _ => true
  | None => false
  end.

(** The default [Array.prototype.sort] order on strings. *)
Definition str_le (a b : string) : Prop := String.leb a b = true.

#[global] Instance str_le_dec a b : Decision (str_le a b).
Proof. unfold str_le. apply _. Defined.

(** ** The [Date] built-in

    Calendar arithmetic on the proleptic Gregorian calendar.  A day number
    counts days since 1970-01-01; years are grouped in 400-year eras of
    146097 days that start on 1 March. *)
Module JsDate.

Definition msPerDay : Z := 86400000.

(** Day of the era of a date whose March-based year of era is [yoe]. *)
Definition doe_of (yoe m d : Z) : Z :=
  let mp := (m + 9) mod 12 in
  let doy := (153 * mp + 2) / 5 + d - 1 in
  yoe * 365 + yoe / 4 - yoe / 100 + doy.

(** March-based year of era, month and day of a day of the era. *)
Definition civil_of_doe (doe : Z) : Z * Z * Z :=
  let yoe := (doe - doe / 1460 + doe / 36524 - doe / 146096) / 365 in
  let doy := doe - (365 * yoe + yoe / 4 - yoe / 100) in
  let mp := (5 * doy + 2) / 153 in
  let d := doy - (153 * mp + 2) / 5 + 1 in
  let m := if mp <? 10 then mp + 3 else mp - 9 in
  (yoe, m, d).

(** [MakeDay]: day number of year [y], month [m] (1-12), day [d]. *)
Definition days_from_civil (y m d : Z) : Z :=
  let y' := if m <=? 2 then y - 1 else y in
  (y' / 400) * 146097 + doe_of (y' mod 400) m d - 719468.

(** [YearFromTime], [MonthFromTime], [DateFromTime] of a day number. *)
Definition civil_from_days (z : Z) : Z * Z * Z :=
  let z' := z + 719468 in
  let '(yoe, m, d) := civil_of_doe (z' mod 146097) in
  (yoe + (z' / 146097) * 400 + (if m <=? 2 then 1 else 0), m, d).

Definition digit_char (k : Z) : ascii := ascii_of_nat (48 + Z.to_nat k).

Definition char_digit (c : ascii) : option Z :=
  let n := Z.of_nat (nat_of_ascii c) in
  if (48 <=? n) && (n <=? 57) then Some (n - 48) else None.

(** Decimal text of [n], zero-padded to [w] digits. *)
Fixpoint pad (w : nat) (n : Z) : string :=
  match w with
  | O => ""
  | S w' => pad w' (n / 10) +:+ String (digit_char (n mod 10)) ""
  end.

(** Reads exactly [w] decimal digits. *)
Fixpoint read_digits (w : nat) (acc : Z) (s : string) : option (Z * string) :=
  match w with
  | O => Some (acc, s)
  | S w' =>
      match s with
      | String c s' =>
          match char_digit c with
          | Some k => read_digits w' (acc * 10 + k) s'
          | None => None
          end
      | "" => None
      end
  end.

Definition expect (c : ascii) (s : string) : option string :=
  match s with
  | String c' s' => if Ascii.eqb c c' then Some s' else None
  | "" => None
  end.

(** A run of decimal digits, as long as it goes. *)
Fixpoint read_number (s : string) : list Z * string :=
  match s with
  | String c s' =>
      match char_digit c with
      | Some k => let '(ds, rest) := read_number s' in (k :: ds, rest)
      | None => ([], s)
      end
  | "" => ([], "")
  end.

(** The milliseconds a fraction of a second stands for: its first three
    digits. *)
Definition milliseconds (fraction : list Z) : Z :=
  match fraction with
  | [] => 0
  | [a] => a * 100
  | [a; b] => a * 100 + b * 10
  | a :: b :: c :: _ => a * 100 + b * 10 + c
  end.

(** [:ss] with an optional fraction, when the text goes on with it: the
    seconds, the milliseconds and the rest. *)
Definition read_seconds (s : string) : option (Z * Z * string) :=
  match expect ":" s with
  | Some s =>
      '(sec, s) ← read_digits 2 0 s;
      match expect "." s with
      | Some s =>
          match read_number s with
          | ([], _) => None
          | (fraction, s) => Some (sec, milliseconds fraction, s)
          end
      | None => Some (sec, 0, s)
      end
  | None => Some (0, 0, s)
  end.

(** [HH:mm], [HH:mm:ss] or [HH:mm:ss.sss], as milliseconds within the day;
    [24:00:00] is the end of the day. *)
Definition read_time (s : string) : option (Z * string) :=
  '(h, s) ← read_digits 2 0 s;
  s ← expect ":" s;
  '(mi, s) ← read_digits 2 0 s;
  '(sec, ms, s) ← read_seconds s;
  if ((h <=? 23) && (mi <=? 59) && (sec <=? 59))
     || ((h =? 24) && (mi =? 0) && (sec =? 0) && (ms =? 0))
  then Some (((h * 60 + mi) * 60 + sec) * 1000 + ms, s)
  else None.

(** The zone at the end of a date-time text: none, [Z], or an offset
    [+HH:mm] or [-HH:mm], in minutes east of UTC. *)
Definition read_zone (s : string) : option (option Z) :=
  match s with
  | "" => Some None
  | "Z" => Some (Some 0)
  | String sign s =>
      if Ascii.eqb sign "+" || Ascii.eqb sign "-" then
        '(h, s) ← read_digits 2 0 s;
        s ← expect ":" s;
        '(mi, s) ← read_digits 2 0 s;
        if String.eqb s "" && (h <=? 23) && (mi <=? 59) then
          Some (Some ((if Ascii.eqb sign "-" then -1 else 1) * (h * 60 + mi)))
        else None
      else None
  end.

(** The year: four digits, or a sign and six digits; [-000000] is not a
    year. *)
Definition read_year (s : string) : option (Z * string) :=
  match expect "+" s with
  | Some s' => read_digits 6 0 s'
  | None =>
      match expect "-" s with
      | Some s' =>
          '(y, rest) ← read_digits 6 0 s';
          if y =? 0 then None else Some (- y, rest)
      | None => read_digits 4 0 s
      end
  end.

(** [YYYY], [YYYY-MM] or [YYYY-MM-DD]: year, month, day and the rest. *)
Definition read_date (s : string) : option (Z * Z * Z * string) :=
  '(y, s) ← read_year s;
  match expect "-" s with
  | Some s =>
      '(m, s) ← read_digits 2 0 s;
      match expect "-" s with
      | Some s => '(d, s) ← read_digits 2 0 s; Some (y, m, d, s)
      | None => Some (y, m, 1, s)
      end
  | None => Some (y, 1, 1, s)
  end.

(** [TimeClip]: the largest magnitude a [Date] can hold. *)
Definition maxTime : Z := 8640000000000000.

Definition clip (t : Z) : option instant :=
  if maxTime <? Z.abs t then None else Some t.

(** [Date.parse] on the date-time string format of the language
    specification: a date alone is UTC midnight; a date with a time is
    read in the zone it names and in the local zone when it names none.  A
    day up to 31 is accepted in every month and runs over into the next.
    [tz] is the offset of the host's local zone, in minutes east of UTC.
    A text of the format with a field out of range, or that denotes a time
    a [Date] cannot hold, is [NaN] ([None]).  What an engine makes of a
    text outside the format is left to it by the specification and is not
    modelled: such a text is read as [NaN] here too. *)
Definition parse (tz : Z) (s : string) : option instant :=
  '(y, m, d, s) ← read_date s;
  if (1 <=? m) && (m <=? 12) && (1 <=? d) && (d <=? 31) then
    let day := days_from_civil y m 1 + (d - 1) in
    match s with
    | "" => clip (day * msPerDay)
    | String "T" s' =>
        '(ms, s'') ← read_time s';
        zone ← read_zone s'';
        clip (day * msPerDay + ms - default tz zone * 60000)
    | _ => None
    end
  else None.

(** The offset of the zone of the Worker runtime. *)
Definition UTC : Z := 0.

Definition LocalTime (tz : Z) (t : instant) : Z := t + tz * 60000.

Definition getFullYear (tz : Z) (t : instant) : Z :=
  let '(y, _, _) := civil_from_days (LocalTime tz t / msPerDay) in y.

(** Zero-based, as in JavaScript. *)
Definition getMonth (tz : Z) (t : instant) : Z :=
  let '(_, m, _) := civil_from_days (LocalTime tz t / msPerDay) in m - 1.

(** The date-only text [YYYY-MM-DD] of a date of the years 0 to 9999, as
    [commenceTime.split('T')[0]] and [toISOString().split('T')[0]] give
    it. *)
Definition isoDate (y m d : Z) : string :=
  pad 4 y +:+ "-" +:+ pad 2 m +:+ "-" +:+ pad 2 d.

(** [toISOString()]; years outside 0..9999 use the expanded six-digit
    form. *)
Definition toISOString (t : instant) : string :=
  let '(y, m, d) := civil_from_days (t / msPerDay) in
  let r := t mod msPerDay in
  let year :=
    if (0 <=? y) && (y <=? 9999) then pad 4 y
    else (if y <? 0 then "-" else "+") +:+ pad 6 (Z.abs y) in
  year +:+ "-" +:+ pad 2 m +:+ "-" +:+ pad 2 d +:+ "T"
    +:+ pad 2 (r / 3600000) +:+ ":" +:+ pad 2 (r / 60000 mod 60) +:+ ":"
    +:+ pad 2 (r / 1000 mod 60) +:+ "." +:+ pad 3 (r mod 1000) +:+ "Z".

End JsDate.

(** ** The [Number] type

    IEEE 754 binary64 by value.  A finite number is a dyadic rational
    [m * 2 ^ e]; the sign of zero is not kept.  An operation is the exact
    operation on the values followed by [round]. *)
Module JsNumber.

Inductive number :=
| Finite (m e : Z)
| Infinity (negative : bool)
| NaN.

(** [m / 2 ^ k] rounded to the nearest integer, a tie going to the even
    one. *)
Definition shift_round (m k : Z) : Z :=
  if k <=? 0 then m
  else
    let q := m / 2 ^ k in
    let r := m mod 2 ^ k in
    let half := 2 ^ (k - 1) in
    if r <? half then q
    else if half <? r then q + 1
    else if Z.even q then q else q + 1.

(** The binary64 value nearest to [m * 2 ^ e], ties to even: at most 53
    significant bits, no bit below [2 ^ -1074], and infinity from
    [2 ^ 1024] on. *)
Definition round (m e : Z) : number :=
  let k := Z.max 0 (Z.max (Z.log2 (Z.abs m) - 52) (-1074 - e)) in
  let m' := shift_round m k in
  if negb (m' =? 0) && (1024 <=? Z.log2 (Z.abs m') + (e + k))
  then Infinity (m <? 0)
  else Finite m' (e + k).

(** An integer that a binary64 value holds exactly: an integer literal of
    the program, or the time value of a [Date]. *)
Definition integer (z : Z) : number := Finite z 0.

Definition is_zero (x : number) : bool :=
  match x with
  | Finite m _ => m =? 0
  | _ => false
  end.

Definition negative (x : number) : bool :=
  match x with
  | Finite m _ => m <? 0
  | Infinity s => s
  | NaN => false
  end.

(** [x * y]. *)
Definition mul (x y : number) : number :=
  match x, y with
  | NaN, _ | _, NaN => NaN
  | Finite m1 e1, Finite m2 e2 => round (m1 * m2) (e1 + e2)
  | _, _ =>
      if is_zero x || is_zero y then NaN
      else Infinity (xorb (negative x) (negative y))
  end.

(** [x - y]. *)
Definition sub (x y : number) : number :=
  match x, y with
  | NaN, _ | _, NaN => NaN
  | Finite m1 e1, Finite m2 e2 =>
      let e := Z.min e1 e2 in
      round (m1 * 2 ^ (e1 - e) - m2 * 2 ^ (e2 - e)) e
  | Infinity s1, Infinity s2 => if Bool.eqb s1 s2 then NaN else Infinity s1
  | Infinity s, Finite _ _ => Infinity s
  | Finite _ _, Infinity s => Infinity (negb s)
  end.

(** The time value of [new Date(x)]: [TimeClip], which makes the date
    invalid when [x] is not finite or beyond 8.64e15 in magnitude, and
    otherwise drops the fraction of [x]. *)
Definition time_clip (x : number) : option instant :=
  match x with
  | Finite m e =>
      if 0 <=? e then
        if JsDate.maxTime <? Z.abs m * 2 ^ e then None else Some (m * 2 ^ e)
      else
        if JsDate.maxTime * 2 ^ (- e) <? Z.abs m then None
        else Some (Z.quot m (2 ^ (- e)))
  | _ => None
  end.

(** The number is not below zero. *)
Definition nonnegative (x : number) : Prop :=
  match x with
  | Finite m _ => 0 <= m
  | Infinity s => s = false
  | NaN => False
  end.

(** The number is the integer [z]. *)
Definition whole (x : number) (z : Z) : Prop :=
  match x with
  | Finite m e => if 0 <=? e then z = m * 2 ^ e else m = z * 2 ^ (- e)
  | _ => False
  end.

(** Two numbers are the same value. *)
Definition same (x y : number) : bool :=
  match x, y with
  | Finite m1 e1, Finite m2 e2 =>
      let e := Z.min e1 e2 in
      m1 * 2 ^ (e1 - e) =? m2 * 2 ^ (e2 - e)
  | Infinity s1, Infinity s2 => Bool.eqb s1 s2
  | NaN, NaN => true
  | _, _ => false
  end.

(** The numbers of this model and the binary64 floats of the proof
    assistant's kernel, for comparing the two arithmetics. *)
Definition of_float (f : PrimFloat.float) : number :=
  match FloatOps.Prim2SF f with
  | SpecFloat.S754_zero _ => Finite 0 0
  | SpecFloat.S754_infinity s => Infinity s
  | SpecFloat.S754_nan => NaN
  | SpecFloat.S754_finite s m e => Finite (if s then Z.neg m else Z.pos m) e
  end.

Definition to_float (x : number) : PrimFloat.float :=
  FloatOps.SF2Prim
    match x with
    | Finite (Z.pos m) e => SpecFloat.S754_finite false m e
    | Finite (Z.neg m) e => SpecFloat.S754_finite true m e
    | Finite 0 _ => SpecFloat.S754_zero false
    | Infinity s => SpecFloat.S754_infinity s
    | NaN => SpecFloat.S754_nan
    end.

End JsNumber.

(** ** config/types *)

Inductive JobStatus := pending | running | completed | failed.

#[global] Instance JobStatus_eq_dec : EqDecision JobStatus.
Proof. solve_decision. Defined.

Inductive Priority := critical | important | normal.

Record TimingOffset := {
  name : string;
  hoursBeforeKickoff : JsNumber.number;
  markets : string;
  priority : Priority;
  directory : string;
}.

Record LeagueConfig := {
  league_id : string;
  providerKey : string;
  league_season : string;
  normalizeTeamName : option (string -> string);
}.

Record OddsEvent := {
  event_id : string;
  event_homeTeam : string;
  event_awayTeam : string;
  commenceTime : string;
  event_sportKey : option string;
}.

Record Outcome := {
  outcome_name : string;
  price : Q;
  point : option Q;
}.

Record BookmakerMarket := {
  market_key : string;
  outcomes : list Outcome;
}.

Record BookmakerOdds := {
  bookmaker_key : string;
  title : string;
  lastUpdate : string;
  bookmaker_markets : list BookmakerMarket;
}.

Record EventOdds := {
  odds_id : string;
  odds_sportKey : string;
  odds_homeTeam : string;
  odds_awayTeam : string;
  odds_commenceTime : string;
  bookmakers : list BookmakerOdds;
}.

Record EventMetadata := {
  meta_eventId : string;
  meta_kickoffTime : string;
}.

Record SnapshotMetadata := {
  timestamp : string;
  date : string;
  league : string;
  season : string;
  collectionMethod : string;
  snapshotTiming : string;
  eventMetadata : option EventMetadata;
}.

Record OddsSnapshot := {
  metadata : SnapshotMetadata;
  odds : EventOdds;
}.

(** A row of [scheduled_jobs]. *)
Record ScheduledJob := {
  id : string;
  leagueId : string;
  eventId : string;
  homeTeam : string;
  awayTeam : string;
  matchDate : string;
  kickoffTime : string;
  timingOffset : string;
  scheduledTime : instant;
  status : JobStatus;
  attempts : Z;
  lastAttempt : option instant;
  snapshotPath : option string;
  createdAt : instant;
  completedAt : option instant;
  error : option string;
}.

(** [Omit<ScheduledJob, "attempts" | "status" | "createdAt">], reduced to
    the nine fields the INSERT binds. *)
Record NewJob := {
  new_id : string;
  new_leagueId : string;
  new_eventId : string;
  new_homeTeam : string;
  new_awayTeam : string;
  new_matchDate : string;
  new_kickoffTime : string;
  new_timingOffset : string;
  new_scheduledTime : instant;
}.

Record CollectionMetrics := {
  metrics_date : string;
  metrics_leagueId : string;
  jobsScheduled : Z;
  jobsCompleted : Z;
  jobsFailed : Z;
  apiRequests : Z;
  apiCostTokens : Z;
}.

Record MatchIndexEntry := {
  entry_homeTeam : string;
  entry_awayTeam : string;
  entry_matchDate : string;
  entry_eventId : string;
  snapshots : dict string;
  entry_kickoffTime : string;
}.

Record MatchIndex := {
  version : string;
  index_leagueId : string;
  index_season : string;
  lastUpdated : string;
  matches : dict MatchIndexEntry;
}.

(** The object [buildDateIndex] saves: a match index with an empty
    [matches] and an extra [dates] table. *)
Record DateEntry := {
  date_matchCount : Z;
  date_matches : list string;
  snapshotTimingsAvailable : list string;
}.

Record DateIndex := {
  dindex_version : string;
  dindex_leagueId : string;
  dindex_season : string;
  dindex_lastUpdated : string;
  dindex_matches : dict MatchIndexEntry;
  dates : dict DateEntry;
}.

Record TeamEntry := {
  team_matchCount : Z;
  team_matches : list string;
}.

Record TeamIndex := {
  tindex_version : string;
  tindex_leagueId : string;
  tindex_season : string;
  tindex_lastUpdated : string;
  tindex_matches : dict MatchIndexEntry;
  teams : dict TeamEntry;
}.

(** The descriptors [updateMatchIndex] receives. *)
Record SnapshotDescriptor := {
  desc_homeTeam : string;
  desc_awayTeam : string;
  desc_matchDate : string;
  desc_eventId : string;
  desc_timing : string;
  desc_path : string;
  desc_kickoffTime : string;
}.

(** ** Outcomes and the effect monad *)

Inductive result (A : Type) :=
| Ok (a : A)
| Throw (e : string).
Arguments Ok {A} a.
Arguments Throw {A} e.

(** What the bucket holds under a key: the value that [JSON.stringify]
    serialised.  The text is a function of the value, and values that
    differ in a string field serialise to different texts, so two stored
    artifacts are byte-identical exactly when these values are equal. *)
Inductive StoredObject :=
| SnapshotObject (s : OddsSnapshot)
| MatchIndexObject (i : MatchIndex)
| DateIndexObject (i : DateIndex)
| TeamIndexObject (i : TeamIndex).

(** The mutable world of a run: the clock, the [scheduled_jobs] and
    [collection_metrics] tables, the bucket, the error console, and the
    [metricsMap] that [executeJobs] allocates and mutates while it runs. *)
Record World := {
  clock : instant;
  jobs : list ScheduledJob;
  metricsRows : list CollectionMetrics;
  bucket : dict StoredObject;
  console_error : list string;
  metricsMap : dict CollectionMetrics;
}.

Definition M (A : Type) : Type := World -> result A * World.

Definition ret {A} (a : A) : M A := fun w => (Ok a, w).

Definition bind {A B} (m : M A) (k : A -> M B) : M B :=
  fun w =>
    match m w with
    | (Ok a, w') => k a w'
    | (Throw e, w') => (Throw e, w')
    end.

Definition throw {A} (e : string) : M A := fun w => (Throw e, w).

(** [try { body } catch (error) { handler }]. *)
Definition try_catch {A} (body : M A) (handler : string -> M A) : M A :=
  fun w =>
    match body w with
    | (Ok a, w') => (Ok a, w')
    | (Throw e, w') => handler e w'
    end.

Definition lift_result {A} (r : result A) : M A := fun w => (r, w).

Definition gets {A} (f : World -> A) : M A := fun w => (Ok (f w), w).

Definition modify (f : World -> World) : M unit := fun w => (Ok tt, f w).

Declare Scope m_scope.
Delimit Scope m_scope with M.
Notation "'let*' x := c1 'in' c2" := (bind c1 (fun x => c2))
  (at level 10, x pattern, c1 at level 100, c2 at level 200) : m_scope.
Notation "c1 ;;; c2" := (bind c1 (fun _ => c2))
  (at level 100, c2 at level 200, right associativity) : m_scope.

(** [for (const x of l) { body }]: a throw leaves the loop. *)
Fixpoint for_of {A} (l : list A) (body : A -> M unit) : M unit :=
  match l with
  | [] => ret tt
  | x :: l' => bind (body x) (fun _ => for_of l' body)
  end.

Definition set_clock (t : instant) (w : World) : World :=
  {| clock := t; jobs := jobs w; metricsRows := metricsRows w;
     bucket := bucket w; console_error := console_error w;
     metricsMap := metricsMap w |}.

Definition set_jobs (t : list ScheduledJob) (w : World) : World :=
  {| clock := clock w; jobs := t; metricsRows := metricsRows w;
     bucket := bucket w; console_error := console_error w;
     metricsMap := metricsMap w |}.

Definition set_metricsRows (r : list CollectionMetrics) (w : World) : World :=
  {| clock := clock w; jobs := jobs w; metricsRows := r;
     bucket := bucket w; console_error := console_error w;
     metricsMap := metricsMap w |}.

Definition set_bucket (b : dict StoredObject) (w : World) : World :=
  {| clock := clock w; jobs := jobs w; metricsRows := metricsRows w;
     bucket := b; console_error := console_error w;
     metricsMap := metricsMap w |}.

Definition set_metricsMap (m : dict CollectionMetrics) (w : World) : World :=
  {| clock := clock w; jobs := jobs w; metricsRows := metricsRows w;
     bucket := bucket w; console_error := console_error w;
     metricsMap := m |}.

(** [console.error(...)]. *)
Definition log_error (line : string) : M unit :=
  modify (fun w =>
    {| clock := clock w; jobs := jobs w; metricsRows := metricsRows w;
       bucket := bucket w; console_error := console_error w ++ [line];
       metricsMap := metricsMap w |}).

(** [new Date()] and [CURRENT_TIMESTAMP]. *)
Definition now : M instant := gets clock.

(** [await this.delay(ms)]: the only thing that lets time pass. *)
Definition delay (ms : Z) : M unit :=
  modify (fun w => set_clock (clock w + Z.max 0 ms) w).

(** ** utils/pathUtils *)
Module PathUtils.

Definition byte (c : ascii) : Z := Z.of_nat (nat_of_ascii c).

(** The white space [\s] matches, by the bytes of its encoding.  One byte:
    tab, line feed, vertical tab, form feed, carriage return and space. *)
Definition narrow_space (b0 : Z) : bool :=
  (b0 =? 32) || ((9 <=? b0) && (b0 <=? 13)).

(** Two bytes: U+00A0, the no-break space. *)
Definition no_break_space (b0 b1 : Z) : bool := (b0 =? 194) && (b1 =? 160).

(** Three bytes: U+1680; U+2000 to U+200A, U+2028, U+2029 and U+202F;
    U+205F; U+3000; U+FEFF. *)
Definition wide_space (b0 b1 b2 : Z) : bool :=
  ((b0 =? 225) && (b1 =? 154) && (b2 =? 128))
  || ((b0 =? 226) && (b1 =? 128)
      && (((128 <=? b2) && (b2 <=? 138))
          || (b2 =? 168) || (b2 =? 169) || (b2 =? 175)))
  || ((b0 =? 226) && (b1 =? 129) && (b2 =? 159))
  || ((b0 =? 227) && (b1 =? 128) && (b2 =? 128))
  || ((b0 =? 239) && (b1 =? 187) && (b2 =? 191)).

(** The number of bytes of the white-space character a text starts with,
    0 when it starts with none. *)
Definition space_width (s : string) : nat :=
  match s with
  | String c0 s0 =>
      if narrow_space (byte c0) then 1%nat
      else
        match s0 with
        | String c1 s1 =>
            if no_break_space (byte c0) (byte c1) then 2%nat
            else
              match s1 with
              | String c2 _ =>
                  if wide_space (byte c0) (byte c1) (byte c2) then 3%nat
                  else 0%nat
              | "" => 0%nat
              end
        | "" => 0%nat
        end
  | "" => 0%nat
  end.

(** [replace(/\s+/g, '_')]: each run of white space becomes one
    underscore.  [skip] counts the bytes still to pass of the white-space
    character being read, [in_run] tells that the run has its underscore
    already. *)
Fixpoint replace_spaces (skip : nat) (in_run : bool) (s : string) : string :=
  match s with
  | "" => ""
  | String c s' =>
      match skip with
      | S skip' => replace_spaces skip' in_run s'
      | O =>
          match space_width s with
          | S skip' =>
              if in_run then replace_spaces skip' true s'
              else String "_" (replace_spaces skip' true s')
          | O => String c (replace_spaces 0 false s')
          end
      end
  end.

Definition formatTeamNameForPath (teamName : string) : string :=
  replace_spaces 0 false teamName.

Definition generateSnapshotPath
    (leagueId season timing date homeTeam awayTeam eventId : string) : string :=
  let home := formatTeamNameForPath homeTeam in
  let away := formatTeamNameForPath awayTeam in
  let shortEventId := slice0 7 eventId in
  leagueId +:+ "/" +:+ season +:+ "/snapshots/" +:+ timing +:+ "/" +:+ date
    +:+ "/" +:+ home +:+ "_vs_" +:+ away +:+ "_" +:+ shortEventId +:+ ".json".

Definition generateIndexPath (leagueId season indexType : string) : string :=
  leagueId +:+ "/" +:+ season +:+ "/index/" +:+ indexType +:+ ".json".

Definition generateMatchKey (homeTeam awayTeam date : string) : string :=
  let home := formatTeamNameForPath homeTeam in
  let away := formatTeamNameForPath awayTeam in
  home +:+ "_" +:+ away +:+ "_" +:+ date.

(** [getFullYear] and [getMonth] read the date in the host's local zone
    [tz] (minutes east of UTC).  An unparsable text gives [NaN] for both,
    every comparison with [NaN] is false, and the else branch prints
    [NaN-NaN]. *)
Definition inferSeasonFromDate (tz : Z) (matchDate : string) : string :=
  match JsDate.parse tz matchDate with
  | Some date =>
      let year := JsDate.getFullYear tz date in
      let month := JsDate.getMonth tz date + 1 in
      if 8 <=? month then pretty year +:+ "-" +:+ pretty (year + 1)
      else pretty (year - 1) +:+ "-" +:+ pretty year
  | None => "NaN-NaN"
  end.

(** [kickoff.getTime() - hoursBeforeKickoff * 60 * 60 * 1000], evaluated
    from the left in binary64. *)
Definition offset_ms (hoursBeforeKickoff : JsNumber.number) : JsNumber.number :=
  JsNumber.mul
    (JsNumber.mul (JsNumber.mul hoursBeforeKickoff (JsNumber.integer 60))
       (JsNumber.integer 60))
    (JsNumber.integer 1000).

(** The result stands for the ISO text of the instant.  [toISOString]
    throws a RangeError on an invalid date: an unparsable kickoff or a
    time value out of range. *)
Definition calculateScheduledTime (tz : Z) (kickoffTime : string)
    (hoursBeforeKickoff : JsNumber.number) : result instant :=
  match JsDate.parse tz kickoffTime with
  | Some kickoff =>
      match
        JsNumber.time_clip
          (JsNumber.sub (JsNumber.integer kickoff)
             (offset_ms hoursBeforeKickoff))
      with
      | Some scheduled => Ok scheduled
      | None => Throw "RangeError: Invalid time value"
      end
  | None => Throw "RangeError: Invalid time value"
  end.

Definition generateJobId (eventId timing : string) : string :=
  eventId +:+ "_" +:+ timing.

End PathUtils.


Local Open Scope m_scope.

(** ** core/JobScheduler

    The [scheduled_jobs] table is the list of its rows in insertion order;
    [id] is its PRIMARY KEY. *)
Module JobScheduler.

Definition has_id (jobId : string) (row : ScheduledJob) : bool :=
  String.eqb (id row) jobId.

(** [SELECT * FROM scheduled_jobs WHERE id = ?], [.first()]. *)
Definition select_by_id (jobId : string) (table : list ScheduledJob)
    : option ScheduledJob :=
  find (has_id jobId) table.

(** The row an INSERT of the nine bound columns creates: the other
    columns take their defaults. *)
Definition new_row (current_timestamp : instant) (job : NewJob) : ScheduledJob :=
  {| id := new_id job; leagueId := new_leagueId job;
     eventId := new_eventId job; homeTeam := new_homeTeam job;
     awayTeam := new_awayTeam job; matchDate := new_matchDate job;
     kickoffTime := new_kickoffTime job;
     timingOffset := new_timingOffset job;
     scheduledTime := new_scheduledTime job;
     status := pending; attempts := 0; lastAttempt := None;
     snapshotPath := None; createdAt := current_timestamp;
     completedAt := None; error := None |}.

(** [INSERT INTO scheduled_jobs (...) VALUES (...)]: a plain INSERT, which
    the PRIMARY KEY constraint aborts when the id is taken. *)
Definition insert (current_timestamp : instant) (job : NewJob)
    (table : list ScheduledJob) : result (list ScheduledJob) :=
  match select_by_id (new_id job) table with
  | Some _ => Throw "D1_ERROR: UNIQUE constraint failed: scheduled_jobs.id"
  | None => Ok (table ++ [new_row current_timestamp job])
  end.

Definition is_terminal (st : JobStatus) : bool :=
  match st with
  | completed | failed => true
  | _ => false
  end.

(** The SET clause of [updateJobStatus] on one row. *)
Definition set_status (current_timestamp : instant) (st : JobStatus)
    (snapshot_path error_text : option string) (row : ScheduledJob)
    : ScheduledJob :=
  {| id := id row; leagueId := leagueId row; eventId := eventId row;
     homeTeam := homeTeam row; awayTeam := awayTeam row;
     matchDate := matchDate row; kickoffTime := kickoffTime row;
     timingOffset := timingOffset row; scheduledTime := scheduledTime row;
     status := st;
     attempts := attempts row + 1;
     lastAttempt := Some current_timestamp;
     snapshotPath :=
       match snapshot_path with
       | Some p => Some p
       | None => snapshotPath row
       end;
     createdAt := createdAt row;
     completedAt :=
       if is_terminal st then Some current_timestamp else completedAt row;
     error := error_text |}.

(** [UPDATE scheduled_jobs SET ... WHERE id = ?]. *)
Definition update_status (current_timestamp : instant) (jobId : string)
    (st : JobStatus) (snapshot_path error_text : option string)
    (table : list ScheduledJob) : list ScheduledJob :=
  map (fun row =>
         if has_id jobId row
         then set_status current_timestamp st snapshot_path error_text row
         else row)
      table.

Definition earlier (a b : ScheduledJob) : Prop :=
  scheduledTime a <= scheduledTime b.

#[global] Instance earlier_dec a b : Decision (earlier a b).
Proof. unfold earlier. apply _. Defined.

(** The whole second [datetime(...)] cuts an instant to: its text
    [YYYY-MM-DD HH:MM:SS] has no fraction, and two such texts compare as
    their seconds do. *)
Definition whole_second (t : instant) : Z := t / 1000.

(** [status = 'pending' AND datetime(scheduled_time) <= datetime('now',
    '+N minutes')]. *)
Definition due_within (current_timestamp : instant) (minutes : nat)
    (row : ScheduledJob) : Prop :=
  status row = pending /\
  whole_second (scheduledTime row)
  <= whole_second (current_timestamp + Z.of_nat minutes * 60000).

#[global] Instance due_within_dec t m row : Decision (due_within t m row).
Proof. unfold due_within. apply _. Defined.

(** [SELECT * FROM scheduled_jobs WHERE status = 'pending' AND
    datetime(scheduled_time) <= datetime('now', '+N minutes')
    ORDER BY scheduled_time ASC LIMIT ?]. *)
Definition select_due_within (current_timestamp : instant)
    (minutes maxJobs : nat) (table : list ScheduledJob)
    : list ScheduledJob :=
  take maxJobs
    (merge_sort earlier (filter (due_within current_timestamp minutes) table)).

(** The SET clause of [retryJob] on one row. *)
Definition requeue (newScheduledTime : instant) (row : ScheduledJob)
    : ScheduledJob :=
  {| id := id row; leagueId := leagueId row; eventId := eventId row;
     homeTeam := homeTeam row; awayTeam := awayTeam row;
     matchDate := matchDate row; kickoffTime := kickoffTime row;
     timingOffset := timingOffset row; scheduledTime := newScheduledTime;
     status := pending; attempts := attempts row;
     lastAttempt := lastAttempt row; snapshotPath := snapshotPath row;
     createdAt := createdAt row; completedAt := completedAt row;
     error := None |}.

(** [UPDATE scheduled_jobs SET status = 'pending', scheduled_time = ?,
    error = NULL WHERE id = ?]. *)
Definition update_retry (jobId : string) (newScheduledTime : instant)
    (table : list ScheduledJob) : list ScheduledJob :=
  map (fun row =>
         if has_id jobId row then requeue newScheduledTime row else row)
      table.

(** [datetime('now')] as SQLite prints it, [YYYY-MM-DD HH:MM:SS], for the
    years 0 to 9999. *)
Definition datetime (t : instant) : string :=
  let '(y, m, d) := JsDate.civil_from_days (t / JsDate.msPerDay) in
  let r := t mod JsDate.msPerDay in
  JsDate.isoDate y m d +:+ " " +:+ JsDate.pad 2 (r / 3600000) +:+ ":"
    +:+ JsDate.pad 2 (r / 60000 mod 60) +:+ ":"
    +:+ JsDate.pad 2 (r / 1000 mod 60).

(** The text the column [scheduled_time] holds: what
    [calculateScheduledTime] returned. *)
Definition scheduled_text (row : ScheduledJob) : string :=
  JsDate.toISOString (scheduledTime row).

Definition text_earlier (a b : ScheduledJob) : Prop :=
  str_le (scheduled_text a) (scheduled_text b).

#[global] Instance text_earlier_dec a b : Decision (text_earlier a b).
Proof. unfold text_earlier. apply _. Defined.

(** [status = 'pending' AND scheduled_time <= datetime('now')]: the column
    is compared as it is stored, so this is a comparison of two texts
    (BINARY collation), one in the ISO form with [T] and [Z] and one in
    SQLite's form. *)
Definition due_now (current_timestamp : instant) (row : ScheduledJob)
    : Prop :=
  status row = pending /\
  str_le (scheduled_text row) (datetime current_timestamp).

#[global] Instance due_now_dec t row : Decision (due_now t row).
Proof. unfold due_now. apply _. Defined.

(** [SELECT * FROM scheduled_jobs WHERE status = 'pending' AND
    scheduled_time <= datetime('now') ORDER BY scheduled_time ASC
    LIMIT ?]. *)
Definition select_due (current_timestamp : instant) (maxJobs : nat)
    (table : list ScheduledJob) : list ScheduledJob :=
  take maxJobs
    (merge_sort text_earlier (filter (due_now current_timestamp) table)).

(** The WHERE clause [getJobsForEvent] builds: the offset is tested only
    when a truthy one is given. *)
Definition for_event (event : string) (timing : option string)
    (row : ScheduledJob) : bool :=
  String.eqb (eventId row) event
  && match or_null timing with
     | Some offset => String.eqb (timingOffset row) offset
     | None => true
     end.

(** [SUM(...)]: NULL over no rows. *)
Definition sql_sum (values : list Z) : option Z :=
  match values with
  | [] => None
  | _ => Some (fold_right Z.add 0 values)
  end.

(** [MIN(...)]: NULLs are skipped, and the result is NULL when nothing is
    left. *)
Definition sql_min (values : list (option instant)) : option instant :=
  fold_left
    (fun least value =>
       match least, value with
       | None, _ => value
       | Some _, None => least
       | Some a, Some b => Some (Z.min a b)
       end)
    values None.

(** [x || 0] on a nullable count. *)
Definition or_zero (x : option Z) : Z :=
  match x with
  | Some n => n
  | None => 0
  end.

(** [CASE WHEN status = st THEN 1 ELSE 0 END]. *)
Definition status_is (st : JobStatus) (row : ScheduledJob) : Z :=
  if decide (status row = st) then 1 else 0.

(** [CASE WHEN status = 'pending' THEN scheduled_time ELSE NULL END]. *)
Definition pending_time (row : ScheduledJob) : option instant :=
  if decide (status row = pending) then Some (scheduledTime row) else None.

Record Summary := {
  totalPending : Z;
  totalCompleted : Z;
  totalFailed : Z;
  nextJobTime : option instant;
}.

(** [league_id = ? AND status = 'completed' AND snapshot_path IS NOT
    NULL]. *)
Definition completed_for (league : string) (row : ScheduledJob) : bool :=
  String.eqb (leagueId row) league
  && bool_decide (status row = completed)
  && match snapshotPath row with
     | Some _ => true
     | None => false
     end.

(** [ORDER BY completed_at DESC]: NULL sorts below every value. *)
Definition completed_later (a b : ScheduledJob) : Prop :=
  match completedAt a, completedAt b with
  | _, None => True
  | None, Some _ => False
  | Some x, Some y => y <= x
  end.

#[global] Instance completed_later_dec a b : Decision (completed_later a b).
Proof.
  unfold completed_later.
  destruct (completedAt a), (completedAt b); apply _.
Defined.

(** [status IN ('completed', 'failed') AND completed_at <
    datetime('now', '-N days')]: a NULL [completed_at] compares as
    unknown, and the row stays. *)
Definition expired (current_timestamp : instant) (daysOld : nat)
    (row : ScheduledJob) : bool :=
  is_terminal (status row)
  && match completedAt row with
     | Some t => t <? current_timestamp - Z.of_nat daysOld * JsDate.msPerDay
     | None => false
     end.

Section Methods.

(** The state of the D1 binding: whether it rejects the UPDATE that
    marks job [jobId] as [st] (the store cannot be reached). *)
Variable update_rejected : string -> JobStatus -> bool.

Definition scheduleJob (job : NewJob) : M unit :=
  fun w =>
    match insert (clock w) job (jobs w) with
    | Ok table => (Ok tt, set_jobs table w)
    | Throw e => (Throw e, w)
    end.

Definition getJobsDueWithin (minutes maxJobs : nat)
    : M (list ScheduledJob) :=
  gets (fun w => select_due_within (clock w) minutes maxJobs (jobs w)).

Definition updateJobStatus (jobId : string) (st : JobStatus)
    (snapshotPath error : option string) : M unit :=
  if update_rejected jobId st then throw "D1_ERROR: database unavailable"
  else
    modify (fun w =>
      set_jobs
        (update_status (clock w) jobId st
           (or_null snapshotPath) (or_null error) (jobs w))
        w).

Definition getJob (jobId : string) : M (option ScheduledJob) :=
  gets (fun w => select_by_id jobId (jobs w)).

Definition recordMetrics (metrics : CollectionMetrics) : M unit :=
  modify (fun w => set_metricsRows (metricsRows w ++ [metrics]) w).

Definition getDueJobs (maxJobs : nat) : M (list ScheduledJob) :=
  gets (fun w => select_due (clock w) maxJobs (jobs w)).

Definition retryJob (jobId : string) (newScheduledTime : instant) : M unit :=
  if update_rejected jobId pending then throw "D1_ERROR: database unavailable"
  else
    modify (fun w =>
      set_jobs (update_retry jobId newScheduledTime (jobs w)) w).

Definition getJobsForEvent (event : string) (timing : option string)
    : M (list ScheduledJob) :=
  gets (fun w => List.filter (for_event event timing) (jobs w)).

Definition getSummary : M Summary :=
  gets (fun w =>
    {| totalPending := or_zero (sql_sum (map (status_is pending) (jobs w)));
       totalCompleted :=
         or_zero (sql_sum (map (status_is completed) (jobs w)));
       totalFailed := or_zero (sql_sum (map (status_is failed) (jobs w)));
       nextJobTime := sql_min (map pending_time (jobs w)) |}).

Definition getCompletedJobs (league : string) : M (list ScheduledJob) :=
  gets (fun w =>
    merge_sort completed_later (List.filter (completed_for league) (jobs w))).

(** [DELETE FROM scheduled_jobs WHERE ...], returning [meta.changes]. *)
Definition cleanupOldJobs (daysOld : nat) : M Z :=
  fun w =>
    let gone := List.filter (expired (clock w) daysOld) (jobs w) in
    let kept :=
      List.filter (fun row => negb (expired (clock w) daysOld row)) (jobs w) in
    (Ok (Z.of_nat (length gone)), set_jobs kept w).

End Methods.

End JobScheduler.

(** ** storage/R2Storage *)
Module R2Storage.

Section Methods.

(** [config.basePath || ''], whether the bucket refuses every PUT under a
    key, and [this.maxRetries]. *)
Variable basePath : string.
Variable put_fails : string -> bool.
Variable maxRetries : Z.

Definition truthy (s : string) : bool := negb (String.eqb s "").

(** [allParts.filter(Boolean).join('/')]. *)
Definition getKey (parts : list string) : string :=
  let allParts := if truthy basePath then basePath :: parts else parts in
  join "/" (List.filter truthy allParts).

Definition getSnapshotId (snapshot : OddsSnapshot) : string :=
  let eventId := odds_id (odds snapshot) in
  let timing := snapshotTiming (metadata snapshot) in
  let date := date (metadata snapshot) in
  eventId +:+ "_" +:+ timing +:+ "_" +:+ date.

Definition snapshotKey (leagueId season : string) (snapshot : OddsSnapshot)
    : string :=
  getKey ["leagues"; leagueId; season; getSnapshotId snapshot +:+ ".json"].

(** [Math.min(1000 * Math.pow(2, attempt - 1), 10000)]. *)
Definition backoff (attempt : Z) : Z :=
  Z.min (1000 * 2 ^ (attempt - 1)) 10000.

(** [lastError?.message] inside a template. *)
Definition message_of (lastError : option string) : string :=
  match lastError with
  | Some message => message
  | None => "undefined"
  end.

(** The loop of [withRetry] from attempt [attempt] on, with [remaining]
    turns left.  [console.warn] is not kept. *)
Fixpoint retry_from {A} (operation : M A) (operationName : string)
    (remaining : nat) (attempt : Z) (lastError : option string) : M A :=
  match remaining with
  | O =>
      throw ("R2Storage: " +:+ operationName +:+ " failed after "
             +:+ pretty maxRetries +:+ " attempts: " +:+ message_of lastError)
  | S remaining' =>
      try_catch operation
        (fun error =>
           (if attempt <? maxRetries then delay (backoff attempt) else ret tt);;;
           retry_from operation operationName remaining' (attempt + 1)
             (Some error))
  end.

Definition withRetry {A} (operation : M A) (operationName : string) : M A :=
  retry_from operation operationName (Z.to_nat maxRetries) 1 None.

(** What the S3 client throws when the bucket refuses a request.  The
    text stands for the message of that error, whatever it is; it is
    written as the one of a 503. *)
Definition ServiceUnavailable : string :=
  "ServiceUnavailable: Service Unavailable".

(** [client.send(new PutObjectCommand(...))]. *)
Definition put_object (key : string) (body : StoredObject) : M unit :=
  if put_fails key then throw ServiceUnavailable
  else modify (fun w => set_bucket (dict_set key body (bucket w)) w).

Definition saveSnapshot (leagueId season : string) (snapshot : OddsSnapshot)
    : M unit :=
  let key := snapshotKey leagueId season snapshot in
  withRetry (put_object key (SnapshotObject snapshot))
    ("saveSnapshot(" +:+ key +:+ ")").

Definition indexKey (leagueId season indexType : string) : string :=
  getKey ["leagues"; leagueId; season; indexType +:+ ".json"].

Definition saveIndex (leagueId season indexType : string)
    (index : StoredObject) : M unit :=
  let key := indexKey leagueId season indexType in
  withRetry (put_object key index) ("saveIndex(" +:+ key +:+ ")").

(** [JSON.parse(body) as MatchIndex], or [null] when the key is absent:
    the contract of [IStorage.getIndex], with reads that reach the bucket.
    The builder only reads [by_match], which only ever holds what
    [updateMatchIndex] saved. *)
Definition getIndex (leagueId season indexType : string)
    : M (option MatchIndex) :=
  gets (fun w =>
    match dict_get (indexKey leagueId season indexType) (bucket w) with
    | Some (MatchIndexObject i) => Some i
    | _ => None
    end).

(** [getIndex] before its cast: whatever JSON value the key holds. *)
Definition getIndexObject (leagueId season indexType : string)
    : M (option StoredObject) :=
  gets (fun w => dict_get (indexKey leagueId season indexType) (bucket w)).

(** The number of keys the service puts in one page of a listing (1000
    unless asked otherwise). *)
Variable page_size : nat.

(** What the S3 client throws for an absent key: [NoSuchKey] from
    GetObject and [NotFound] from HeadObject, both with status 404.  The
    [catch] clauses recognise these by [error.name] and by
    [error.$metadata]; an [Error] made with [new Error(...)] has the name
    [Error] and no [$metadata]. *)
Definition NoSuchKey : string := "NoSuchKey: The specified key does not exist.".
Definition NotFound : string := "NotFound: UnknownError".

Definition is_not_found (error : string) : bool :=
  String.eqb error NoSuchKey || String.eqb error NotFound.

(** [client.send(new GetObjectCommand(...))], then the parsed body. *)
Definition get_object (key : string) : M StoredObject :=
  fun w =>
    match dict_get key (bucket w) with
    | Some object => (Ok object, w)
    | None => (Throw NoSuchKey, w)
    end.

(** [client.send(new HeadObjectCommand(...))]. *)
Definition head_object (key : string) : M unit :=
  fun w =>
    match dict_get key (bucket w) with
    | Some _ => (Ok tt, w)
    | None => (Throw NotFound, w)
    end.

(** [client.send(new DeleteObjectCommand(...))]: deleting an absent key
    succeeds. *)
Definition delete_object (key : string) : M unit :=
  modify (fun w => set_bucket (dict_remove key (bucket w)) w).

(** [client.send(new ListObjectsV2Command(...))]: the keys that start with
    the prefix, in key order, one page at a time.  The continuation token
    is opaque to the client; here it is the number of keys already
    listed. *)
Definition list_objects (prefix : string) (continuationToken : option nat)
    : M (list string * option nat) :=
  gets (fun w =>
    let keys :=
      merge_sort str_le (List.filter (String.prefix prefix) (dict_keys (bucket w))) in
    let listed := default 0%nat continuationToken in
    let rest := drop listed keys in
    (take page_size rest,
     if (page_size <? length rest)%nat then Some (listed + page_size)%nat
     else None)).

Definition snapshotIdKey (leagueId season snapshotId : string) : string :=
  getKey ["leagues"; leagueId; season; snapshotId +:+ ".json"].

Definition getSnapshot (leagueId season snapshotId : string)
    : M (option StoredObject) :=
  let key := snapshotIdKey leagueId season snapshotId in
  try_catch
    (let* response :=
       withRetry (get_object key) ("getSnapshot(" +:+ key +:+ ")") in
     ret (Some response))
    (fun error => if is_not_found error then ret None else throw error).

Definition snapshotExists (leagueId season snapshotId : string) : M bool :=
  let key := snapshotIdKey leagueId season snapshotId in
  try_catch
    (withRetry (head_object key) ("snapshotExists(" +:+ key +:+ ")");;;
     ret true)
    (fun error => if is_not_found error then ret false else throw error).

Definition deleteSnapshot (leagueId season snapshotId : string) : M unit :=
  let key := snapshotIdKey leagueId season snapshotId in
  withRetry (delete_object key) ("deleteSnapshot(" +:+ key +:+ ")").

(** The body of the loop over [response.Contents]. *)
Definition snapshot_ids (contents : list string) : list string :=
  flat_map
    (fun key =>
       if truthy key then
         match pop (split "/" key) with
         | Some fileName =>
             if truthy fileName && endsWith ".json" fileName
             then [slice_end 5 fileName]
             else []
         | None => []
         end
       else [])
    contents.

(** The [do ... while (continuationToken)] loop, for at most [turns]
    turns: [None] when the service still announces a further page. *)
Fixpoint list_pages (turns : nat) (prefix : string)
    (continuationToken : option nat) (snapshotIds : list string)
    : M (option (list string)) :=
  match turns with
  | O => ret None
  | S turns' =>
      let* response :=
        withRetry (list_objects prefix continuationToken)
          ("listSnapshots(" +:+ prefix +:+ ")") in
      let snapshotIds := snapshotIds ++ snapshot_ids (fst response) in
      match snd response with
      | Some token => list_pages turns' prefix (Some token) snapshotIds
      | None => ret (Some snapshotIds)
      end
  end.

Definition listSnapshots (turns : nat) (leagueId season : string)
    : M (option (list string)) :=
  let prefix := getKey ["leagues"; leagueId; season; ""] in
  list_pages turns prefix None [].

(** [indexExists]: one HEAD without retries, and [false] for every
    error. *)
Definition indexExists (leagueId season indexType : string) : M bool :=
  try_catch
    (head_object (indexKey leagueId season indexType);;; ret true)
    (fun _ => ret false).

End Methods.

(** [config.maxRetries || 3] for a configuration that names no
    [maxRetries], as in every place where the program builds its
    storage. *)
Definition default_maxRetries : Z := 3.

End R2Storage.

(** ** core/IndexBuilder *)
Module IndexBuilder.

Import PathUtils.

Section Methods.

(** The storage the builder is given: the one the program builds, with
    its base path, its bucket and the default number of attempts. *)
Variable basePath : string.
Variable put_fails : string -> bool.

Abbreviation getIndex := (R2Storage.getIndex basePath).
Abbreviation saveIndex :=
  (R2Storage.saveIndex basePath put_fails R2Storage.default_maxRetries).

Definition add_snapshot (timing path : string) (entry : MatchIndexEntry)
    : MatchIndexEntry :=
  {| entry_homeTeam := entry_homeTeam entry;
     entry_awayTeam := entry_awayTeam entry;
     entry_matchDate := entry_matchDate entry;
     entry_eventId := entry_eventId entry;
     snapshots := dict_set timing path (snapshots entry);
     entry_kickoffTime := entry_kickoffTime entry |}.

(** One turn of the loop over the descriptors: get or create the match
    entry, then [entry.snapshots[snapshot.timing] = snapshot.path]. *)
Definition upsert (matches : dict MatchIndexEntry)
    (snapshot : SnapshotDescriptor) : dict MatchIndexEntry :=
  let matchKey :=
    generateMatchKey (desc_homeTeam snapshot) (desc_awayTeam snapshot)
      (desc_matchDate snapshot) in
  let matches :=
    if dict_has matchKey matches then matches
    else
      dict_set matchKey
        {| entry_homeTeam := desc_homeTeam snapshot;
           entry_awayTeam := desc_awayTeam snapshot;
           entry_matchDate := desc_matchDate snapshot;
           entry_eventId := desc_eventId snapshot;
           snapshots := [];
           entry_kickoffTime := desc_kickoffTime snapshot |}
        matches in
  match dict_get matchKey matches with
  | Some entry =>
      dict_set matchKey
        (add_snapshot (desc_timing snapshot) (desc_path snapshot) entry)
        matches
  | None => matches
  end.

Definition updateMatchIndex (leagueId season : string)
    (snapshots : list SnapshotDescriptor) : M unit :=
  let* loaded := getIndex leagueId season "by_match" in
  let* created := now in
  let index :=
    match loaded with
    | Some index => index
    | None =>
        {| version := "1.0"; index_leagueId := leagueId;
           index_season := season;
           lastUpdated := JsDate.toISOString created;
           matches := [] |}
    end in
  let matches := fold_left upsert snapshots (matches index) in
  let* updated := now in
  saveIndex leagueId season "by_match"
    (MatchIndexObject
       {| version := version index;
          index_leagueId := index_leagueId index;
          index_season := index_season index;
          lastUpdated := JsDate.toISOString updated;
          matches := matches |}).

(** [if (!map[key]) map[key] = []; map[key].push(matchKey)]. *)
Definition push_to (key matchKey : string) (map : dict (list string))
    : dict (list string) :=
  match dict_get key map with
  | Some keys => dict_set key (keys ++ [matchKey]) map
  | None => dict_set key [matchKey] map
  end.

(** [timingsSet.add(timing)]: a [Set] keeps first insertions in order. *)
Definition set_add (timing : string) (set : list string) : list string :=
  if existsb (String.eqb timing) set then set else set ++ [timing].

Definition getAvailableTimings (matchIndex : MatchIndex)
    (matchKeys : list string) : list string :=
  let timingsSet :=
    fold_left
      (fun set matchKey =>
         match dict_get matchKey (matches matchIndex) with
         | Some entry =>
             fold_left (fun set timing => set_add timing set)
               (dict_keys (snapshots entry)) set
         | None => set
         end)
      matchKeys [] in
  merge_sort str_le timingsSet.

Definition date_index_of (matchIndex : MatchIndex) (leagueId season : string)
    (built : instant) : DateIndex :=
  let dateMap :=
    fold_left
      (fun dateMap '(matchKey, entry) =>
         push_to (entry_matchDate entry) matchKey dateMap)
      (matches matchIndex) [] in
  {| dindex_version := "1.0"; dindex_leagueId := leagueId;
     dindex_season := season;
     dindex_lastUpdated := JsDate.toISOString built;
     dindex_matches := [];
     dates :=
       fold_left
         (fun acc '(date, matches) =>
            dict_set date
              {| date_matchCount := Z.of_nat (length matches);
                 date_matches := matches;
                 snapshotTimingsAvailable :=
                   getAvailableTimings matchIndex matches |}
              acc)
         dateMap [] |}.

Definition buildDateIndex (leagueId season : string) : M unit :=
  let* loaded := getIndex leagueId season "by_match" in
  match loaded with
  | None => ret tt
  | Some matchIndex =>
      let* built := now in
      saveIndex leagueId season "by_date"
        (DateIndexObject (date_index_of matchIndex leagueId season built))
  end.

Definition team_index_of (matchIndex : MatchIndex) (leagueId season : string)
    (built : instant) : TeamIndex :=
  let teamMap :=
    fold_left
      (fun teamMap '(matchKey, entry) =>
         let homeTeam := formatTeamNameForPath (entry_homeTeam entry) in
         let teamMap := push_to homeTeam matchKey teamMap in
         let awayTeam := formatTeamNameForPath (entry_awayTeam entry) in
         push_to awayTeam matchKey teamMap)
      (matches matchIndex) [] in
  {| tindex_version := "1.0"; tindex_leagueId := leagueId;
     tindex_season := season;
     tindex_lastUpdated := JsDate.toISOString built;
     tindex_matches := [];
     teams :=
       fold_left
         (fun acc '(team, matches) =>
            dict_set team
              {| team_matchCount := Z.of_nat (length matches);
                 team_matches := matches |}
              acc)
         teamMap [] |}.

Definition buildTeamIndex (leagueId season : string) : M unit :=
  let* loaded := getIndex leagueId season "by_match" in
  match loaded with
  | None => ret tt
  | Some matchIndex =>
      let* built := now in
      saveIndex leagueId season "by_team"
        (TeamIndexObject (team_index_of matchIndex leagueId season built))
  end.

Definition buildAllIndexes (leagueId season : string) : M unit :=
  buildDateIndex leagueId season;;;
  buildTeamIndex leagueId season.

Abbreviation getIndexObject := (R2Storage.getIndexObject basePath).

Definition lookupMatch (leagueId season homeTeam awayTeam matchDate : string)
    : M (option MatchIndexEntry) :=
  let* index := getIndex leagueId season "by_match" in
  match index with
  | None => ret None
  | Some index =>
      let matchKey := generateMatchKey homeTeam awayTeam matchDate in
      ret (dict_get matchKey (matches index))
  end.

(** Reading property [key] of a property that the parsed object does not
    have. *)
Definition undefined_property (key : string) : string :=
  "TypeError: Cannot read properties of undefined (reading '" +:+ key +:+ "')".

(** The object is used as it was parsed: a snapshot has no [matches], and
    an index of another kind has no [dates]. *)
Definition getMatchesForDate (leagueId season date : string)
    : M (list string) :=
  let* index := getIndexObject leagueId season "by_date" in
  match index with
  | None | Some (SnapshotObject _) => ret []
  | Some (DateIndexObject dateIndex) =>
      match dict_get date (dates dateIndex) with
      | Some entry => ret (date_matches entry)
      | None => ret []
      end
  | Some (MatchIndexObject _) | Some (TeamIndexObject _) =>
      throw (undefined_property date)
  end.

Definition getMatchesForTeam (leagueId season teamName : string)
    : M (list string) :=
  let* index := getIndexObject leagueId season "by_team" in
  let teamKey := formatTeamNameForPath teamName in
  match index with
  | None | Some (SnapshotObject _) => ret []
  | Some (TeamIndexObject teamIndex) =>
      match dict_get teamKey (teams teamIndex) with
      | Some entry => ret (team_matches entry)
      | None => ret []
      end
  | Some (MatchIndexObject _) | Some (DateIndexObject _) =>
      throw (undefined_property teamKey)
  end.

End Methods.

End IndexBuilder.

(** ** providers/TheOddsApiProvider *)
Module TheOddsApiProvider.

Inductive RequestType := events | live_odds | historical_events | historical_odds.

Definition estimateCost (type : RequestType) (markets regions : Z) : Z :=
  match type with
  | events => 0
  | live_odds => markets * regions
  | historical_events => 1
  | historical_odds => 10 * markets * regions
  end.

End TheOddsApiProvider.

(** ** core/OddsCollector *)
Module OddsCollector.

Import PathUtils.

(** The collector's configuration and collaborators.  The provider is
    given by what its two requests answer; the storage by its base path,
    the PUTs its bucket refuses and its number of attempts; the queue by
    the updates it rejects. *)
Record Collector := {
  fetchEvents : string -> result (list OddsEvent);
  fetchEventOdds : string -> string -> string -> result EventOdds;
  basePath : string;
  put_fails : string -> bool;
  maxRetries : Z;
  update_rejected : string -> JobStatus -> bool;
  timings : list TimingOffset;
  leagues : dict LeagueConfig;
  maxJobsPerRun : nat;
  requestDelay : Z;
  enableDiscovery : bool;
  timezone : Z;
}.

Section Methods.

Variable this : Collector.

Abbreviation scheduleJob := JobScheduler.scheduleJob.
Abbreviation getJob := JobScheduler.getJob.
Abbreviation getJobsDueWithin := JobScheduler.getJobsDueWithin.
Abbreviation updateJobStatus :=
  (JobScheduler.updateJobStatus (update_rejected this)).
Abbreviation recordMetrics := JobScheduler.recordMetrics.
Abbreviation saveSnapshot :=
  (R2Storage.saveSnapshot (basePath this) (put_fails this) (maxRetries this)).

Definition normalize (league : LeagueConfig) (teamName : string) : string :=
  match normalizeTeamName league with
  | Some f => f teamName
  | None => teamName
  end.

(** The body of the loop over timings, for one event. *)
Definition schedule_timing (started : instant) (league : LeagueConfig)
    (event : OddsEvent) (timing : TimingOffset) : M unit :=
  let matchDate := split_head "T" (commenceTime event) in
  let homeTeam := normalize league (event_homeTeam event) in
  let awayTeam := normalize league (event_awayTeam event) in
  let* scheduledTime :=
    lift_result
      (calculateScheduledTime (timezone this) (commenceTime event)
         (hoursBeforeKickoff timing)) in
  if scheduledTime <? started then ret tt
  else
    let jobId := generateJobId (event_id event) (name timing) in
    let* existingJob := getJob jobId in
    match existingJob with
    | Some _ => ret tt
    | None =>
        scheduleJob
          {| new_id := jobId; new_leagueId := league_id league;
             new_eventId := event_id event; new_homeTeam := homeTeam;
             new_awayTeam := awayTeam; new_matchDate := matchDate;
             new_kickoffTime := commenceTime event;
             new_timingOffset := name timing;
             new_scheduledTime := scheduledTime |}
    end.

(** The loop over the events of a league, each with its loop over the
    timings. *)
Definition schedule_events (started : instant) (league : LeagueConfig)
    (events : list OddsEvent) : M unit :=
  for_of events
    (fun event => for_of (timings this) (schedule_timing started league event)).

(** The body of the loop over leagues, with its [try]/[catch]. *)
Definition discover_league (started : instant)
    (entry : string * LeagueConfig) : M unit :=
  let '(leagueId, league) := entry in
  try_catch
    (let* events := lift_result (fetchEvents this (providerKey league)) in
     schedule_events started league events;;;
     delay (requestDelay this))
    (fun error =>
       log_error ("Failed to discover events for " +:+ leagueId +:+ ": "
                  +:+ error)).

(** Phase 1, with a queue that answers every statement.  The totals the
    method only prints are left out. *)
Definition discoverEvents : M unit :=
  let* started := now in
  for_of (leagues this) (discover_league started).

Definition empty_metrics (today leagueId : string) : CollectionMetrics :=
  {| metrics_date := today; metrics_leagueId := leagueId;
     jobsScheduled := 0; jobsCompleted := 0; jobsFailed := 0;
     apiRequests := 0; apiCostTokens := 0 |}.

(** [if (!metricsMap.has(key)) metricsMap.set(key, {...})], then the
    mutation of [metricsMap.get(key)!]. *)
Definition update_metrics (leagueId : string)
    (f : CollectionMetrics -> CollectionMetrics) : M unit :=
  let* t := now in
  let today := split_head "T" (JsDate.toISOString t) in
  let metricsKey := leagueId +:+ "_" +:+ today in
  modify (fun w =>
    let map :=
      if dict_has metricsKey (metricsMap w) then metricsMap w
      else dict_set metricsKey (empty_metrics today leagueId) (metricsMap w) in
    match dict_get metricsKey map with
    | Some metrics => set_metricsMap (dict_set metricsKey (f metrics) map) w
    | None => set_metricsMap map w
    end).

Definition count_completed (marketCount : Z) (m : CollectionMetrics)
    : CollectionMetrics :=
  {| metrics_date := metrics_date m; metrics_leagueId := metrics_leagueId m;
     jobsScheduled := jobsScheduled m;
     jobsCompleted := jobsCompleted m + 1;
     jobsFailed := jobsFailed m;
     apiRequests := apiRequests m + 1;
     apiCostTokens :=
       apiCostTokens m
       + TheOddsApiProvider.estimateCost TheOddsApiProvider.live_odds
           marketCount 1 |}.

Definition count_failed (m : CollectionMetrics) : CollectionMetrics :=
  {| metrics_date := metrics_date m; metrics_leagueId := metrics_leagueId m;
     jobsScheduled := jobsScheduled m;
     jobsCompleted := jobsCompleted m;
     jobsFailed := jobsFailed m + 1;
     apiRequests := apiRequests m;
     apiCostTokens := apiCostTokens m |}.

(** The [try] block of the loop over due jobs. *)
Definition attempt_job (job : ScheduledJob) : M unit :=
  updateJobStatus (id job) running None None;;;
  let* league :=
    match dict_get (leagueId job) (leagues this) with
    | Some league => ret league
    | None => throw ("League config not found: " +:+ leagueId job)
    end in
  let* timing :=
    match find (fun t => String.eqb (name t) (timingOffset job)) (timings this) with
    | Some timing => ret timing
    | None => throw ("Timing config not found: " +:+ timingOffset job)
    end in
  let* oddsData :=
    lift_result
      (fetchEventOdds this (providerKey league) (eventId job) (markets timing)) in
  let season := inferSeasonFromDate (timezone this) (matchDate job) in
  let* captured := now in
  let snapshot :=
    {| metadata :=
         {| timestamp := JsDate.toISOString captured;
            date := matchDate job;
            league := leagueId job;
            season := season;
            collectionMethod := "event_based";
            snapshotTiming := timingOffset job;
            eventMetadata :=
              Some {| meta_eventId := eventId job;
                      meta_kickoffTime := kickoffTime job |} |};
       odds := oddsData |} in
  saveSnapshot (leagueId job) season snapshot;;;
  let snapshotPath :=
    generateSnapshotPath (leagueId job) season (timingOffset job)
      (matchDate job) (homeTeam job) (awayTeam job) (eventId job) in
  updateJobStatus (id job) completed (Some snapshotPath) None;;;
  let marketCount := split_count "," (markets timing) in
  update_metrics (leagueId job) (count_completed marketCount);;;
  delay (requestDelay this).

(** The [catch] block. *)
Definition job_failed (job : ScheduledJob) (error : string) : M unit :=
  log_error ("Failed: " +:+ error);;;
  updateJobStatus (id job) failed None (Some error);;;
  update_metrics (leagueId job) count_failed;;;
  delay (requestDelay this).

Definition execute_job (job : ScheduledJob) : M unit :=
  try_catch (attempt_job job) (job_failed job).

(** Phase 2. *)
Definition executeJobs : M unit :=
  let* dueJobs := getJobsDueWithin 5 (maxJobsPerRun this) in
  match dueJobs with
  | [] => ret tt
  | _ =>
      modify (set_metricsMap []);;;
      for_of dueJobs execute_job;;;
      let* recorded := gets metricsMap in
      for_of (map snd recorded) recordMetrics
  end.

(** [run()], without the summary it prints. *)
Definition run : M unit :=
  (if enableDiscovery this then discoverEvents else ret tt);;;
  executeJobs.

Definition set_leagues (configured : dict LeagueConfig) : Collector :=
  {| fetchEvents := fetchEvents this; fetchEventOdds := fetchEventOdds this;
     basePath := basePath this; put_fails := put_fails this;
     maxRetries := maxRetries this;
     update_rejected := update_rejected this; timings := timings this;
     leagues := configured; maxJobsPerRun := maxJobsPerRun this;
     requestDelay := requestDelay this;
     enableDiscovery := enableDiscovery this; timezone := timezone this |}.

(** [this.leagues.set(league.id, league)]. *)
Definition addLeague (league : LeagueConfig) : Collector :=
  set_leagues (dict_set (league_id league) league (leagues this)).

(** [this.leagues.delete(leagueId)]. *)
Definition removeLeague (leagueId : string) : Collector :=
  set_leagues (dict_remove leagueId (leagues this)).

End Methods.

End OddsCollector.

(** ** scripts/repair-production-data *)
Module RepairProductionData.

Record R2Object := {
  r2_key : string;
  r2_size : Z;
  r2_uploaded : instant;
}.

Definition generateNewPath (job : ScheduledJob) : string :=
  eventId job +:+ "_" +:+ timingOffset job +:+ "_" +:+ matchDate job
    +:+ ".json".

Definition inferSeason (tz : Z) (matchDate : string) : string :=
  match JsDate.parse tz matchDate with
  | Some date =>
      let year := JsDate.getFullYear tz date in
      let month := JsDate.getMonth tz date + 1 in
      if month <? 8 then pretty (year - 1) +:+ "-" +:+ pretty year
      else pretty year +:+ "-" +:+ pretty (year + 1)
  | None => "NaN-NaN"
  end.

Definition fullNewPath (tz : Z) (job : ScheduledJob) (basePath : string)
    : string :=
  basePath +:+ "/leagues/" +:+ leagueId job +:+ "/"
    +:+ inferSeason tz (matchDate job) +:+ "/" +:+ generateNewPath job.

Definition findMatchingR2Key (tz : Z) (job : ScheduledJob)
    (r2Objects : dict R2Object) (basePath : string) : option string :=
  if dict_has (fullNewPath tz job basePath) r2Objects
  then Some (fullNewPath tz job basePath)
  else
    match or_null (snapshotPath job) with
    | Some oldPath =>
        if dict_has oldPath r2Objects then Some oldPath
        else
          option_map fst
            (find (fun '(key, _) =>
                     includes (eventId job) key
                     && includes (timingOffset job) key
                     && includes (matchDate job) key)
                  r2Objects)
    | None =>
        option_map fst
          (find (fun '(key, _) =>
                   includes (eventId job) key
                   && includes (timingOffset job) key
                   && includes (matchDate job) key)
                r2Objects)
    end.

End RepairProductionData.

(** ** Specification predicates *)

(** A row carries the deterministic id of its (fixture, offset) pair. *)
Definition keyed (row : ScheduledJob) : Prop :=
  id row = PathUtils.generateJobId (eventId row) (timingOffset row).

Definition pair_of (row : ScheduledJob) : string * string :=
  (eventId row, timingOffset row).

(** Every id the first world knows is known to the second. *)
Definition ids_within (w w' : World) : Prop :=
  forall i, In i (map id (jobs w)) -> In i (map id (jobs w')).

Definition clock_le (w w' : World) : Prop := clock w <= clock w'.

(** [g] rewrites rows in place: it keeps every id, and leaves alone the rows
    whose id is not listed. *)
Definition rewrites_only (listed : list string)
    (g : ScheduledJob -> ScheduledJob) : Prop :=
  forall row, id (g row) = id row /\ (~ In (id row) listed -> g row = row).

Definition descriptor_key (snapshot : SnapshotDescriptor) : string :=
  PathUtils.generateMatchKey (desc_homeTeam snapshot) (desc_awayTeam snapshot)
    (desc_matchDate snapshot).

(** A stored index with its [lastUpdated] stamp blanked. *)
Definition blank_stamp (object : StoredObject) : StoredObject :=
  match object with
  | DateIndexObject i =>
      DateIndexObject
        {| dindex_version := dindex_version i;
           dindex_leagueId := dindex_leagueId i;
           dindex_season := dindex_season i;
           dindex_lastUpdated := "";
           dindex_matches := dindex_matches i;
           dates := dates i |}
  | TeamIndexObject i =>
      TeamIndexObject
        {| tindex_version := tindex_version i;
           tindex_leagueId := tindex_leagueId i;
           tindex_season := tindex_season i;
           tindex_lastUpdated := "";
           tindex_matches := tindex_matches i;
           teams := teams i |}
  | _ => object
  end.

(** What a build leaves in the bucket, given what [by_match] holds when it
    starts at time [t]. *)
Definition built_bucket (basePath : string) (put_fails : string -> bool)
    (leagueId season : string) (t : instant) (b : dict StoredObject)
    : dict StoredObject :=
  let by_match := R2Storage.indexKey basePath leagueId season "by_match" in
  let by_date := R2Storage.indexKey basePath leagueId season "by_date" in
  let by_team := R2Storage.indexKey basePath leagueId season "by_team" in
  match dict_get by_match b with
  | Some (MatchIndexObject matchIndex) =>
      if put_fails by_date then b
      else
        let b1 :=
          dict_set by_date
            (DateIndexObject
               (IndexBuilder.date_index_of matchIndex leagueId season t))
            b in
        if put_fails by_team then b1
        else
          dict_set by_team
            (TeamIndexObject
               (IndexBuilder.team_index_of matchIndex leagueId season t))
            b1
  | _ => b
  end.

(** ** The civil calendar *)

Definition is_leap (y : Z) : bool :=
  (y mod 4 =? 0) && (negb (y mod 100 =? 0) || (y mod 400 =? 0)).

Definition days_in_month (y m : Z) : Z :=
  if m =? 2 then (if is_leap y then 29 else 28)
  else if (m =? 4) || (m =? 6) || (m =? 9) || (m =? 11) then 30
  else 31.

(** The season of the European convention for a year and a month. *)
Definition european_season (y m : Z) : string :=
  if 8 <=? m then pretty y +:+ "-" +:+ pretty (y + 1)
  else pretty (y - 1) +:+ "-" +:+ pretty y.

(** [p] holds of every integer from 0 up to [n - 1]. *)
Fixpoint all_below (n : nat) (p : Z -> bool) : bool :=
  match n with
  | O => true
  | S n' => p (Z.of_nat n') && all_below n' p
  end.

Definition year_shift (m : Z) : Z := if m <=? 2 then 1 else 0.

Definition previous_month (m : Z) : Z := if m =? 1 then 12 else m - 1.

(** The intermediate values of [JsDate.civil_of_doe]. *)
Definition yoe_of (doe : Z) : Z :=
  (doe - doe / 1460 + doe / 36524 - doe / 146096) / 365.

Definition doy_of (doe : Z) : Z :=
  doe - (365 * yoe_of doe + yoe_of doe / 4 - yoe_of doe / 100).

Definition mp_of (doe : Z) : Z := (5 * doy_of doe + 2) / 153.

(** Within one 400-year era, for month [m] of the March-based year [yoe]:
    its first and last days are days of the era, they convert back into
    that year and month, the first to day 1, and the day before the first,
    when the era has one, falls in the previous month. *)
Definition era_month_ok (yoe m : Z) : bool :=
  let lo := JsDate.doe_of yoe m 1 in
  let hi := lo + days_in_month (yoe + year_shift m) m - 1 in
  let mp := (m + 9) mod 12 in
  (0 <=? lo) && (hi <? 146097)
  && (yoe_of lo =? yoe) && (yoe_of hi =? yoe)
  && (mp_of lo =? mp) && (mp_of hi =? mp)
  && (doy_of lo =? (153 * mp + 2) / 5)
  && ((if mp <? 10 then mp + 3 else mp - 9) =? m)
  && (if lo =? 0 then (yoe =? 0) && (m =? 3)
      else
        let '(yoe', m', _) := JsDate.civil_of_doe (lo - 1) in
        (m' =? previous_month m)
        && (yoe' + year_shift m'
            =? yoe + year_shift m - (if m =? 1 then 1 else 0))).

(** ** A worked scenario

    One league, one fixture of the provider and the two ends of the
    COMPREHENSIVE preset. *)
Module Scenario.

Definition opening : TimingOffset :=
  {| name := "opening"; hoursBeforeKickoff := JsNumber.integer 168;
     markets := "h2h,alternate_totals,alternate_spreads,btts,double_chance";
     priority := important; directory := "snapshots/opening" |}.

Definition closing : TimingOffset :=
  {| name := "closing"; hoursBeforeKickoff := JsNumber.Finite 3 (-1);
     markets := "h2h,alternate_totals,alternate_spreads,btts,double_chance";
     priority := critical; directory := "snapshots/closing" |}.

Definition epl : LeagueConfig :=
  {| league_id := "england_premier_league"; providerKey := "soccer_epl";
     league_season := "2025-2026"; normalizeTeamName := None |}.

Definition fixture : OddsEvent :=
  {| event_id := "a1b2c3d4e5f6"; event_homeTeam := "Arsenal";
     event_awayTeam := "Chelsea"; commenceTime := "2025-12-01T15:00:00Z";
     event_sportKey := Some "soccer_epl" |}.

Definition fixture_odds : EventOdds :=
  {| odds_id := "a1b2c3d4e5f6"; odds_sportKey := "soccer_epl";
     odds_homeTeam := "Arsenal"; odds_awayTeam := "Chelsea";
     odds_commenceTime := "2025-12-01T15:00:00Z"; bookmakers := [] |}.

(** A row as discovery inserts it. *)
Definition job_at (jobId offset : string) (due : instant) : ScheduledJob :=
  {| id := jobId; leagueId := "england_premier_league";
     eventId := "a1b2c3d4e5f6"; homeTeam := "Arsenal"; awayTeam := "Chelsea";
     matchDate := "2025-12-01"; kickoffTime := "2025-12-01T15:00:00Z";
     timingOffset := offset; scheduledTime := due; status := pending;
     attempts := 0; lastAttempt := None; snapshotPath := None;
     createdAt := 1764000000000; completedAt := None; error := None |}.

Definition closing_job : ScheduledJob :=
  job_at "a1b2c3d4e5f6_closing" "closing" 1764595800000.

Definition closing_request : NewJob :=
  {| new_id := "a1b2c3d4e5f6_closing";
     new_leagueId := "england_premier_league";
     new_eventId := "a1b2c3d4e5f6"; new_homeTeam := "Arsenal";
     new_awayTeam := "Chelsea"; new_matchDate := "2025-12-01";
     new_kickoffTime := "2025-12-01T15:00:00Z";
     new_timingOffset := "closing"; new_scheduledTime := 1764595800000 |}.

Definition world_at (t : instant) (table : list ScheduledJob) : World :=
  {| clock := t; jobs := table; metricsRows := []; bucket := [];
     console_error := []; metricsMap := [] |}.

(** 2025-11-24T16:00:00Z, a week before kickoff, with the closing job
    already queued. *)
Definition queued : World := world_at 1764000000000 [closing_job].

Definition accepts_all : string -> JobStatus -> bool := fun _ _ => false.

(** 2025-11-13T02:13:20Z, before both offsets of the fixture, with an empty
    queue. *)
Definition fresh : World := world_at 1763000000000 [].

(** The provider knows one league and quotes one fixture. *)
Definition collector (rejects : string -> JobStatus -> bool) : OddsCollector.Collector :=
  {| OddsCollector.fetchEvents := fun key =>
       if String.eqb key "soccer_epl" then Ok [fixture]
       else Throw "HTTP error! Status: 404 - Not Found";
     OddsCollector.fetchEventOdds := fun key event _ =>
       if String.eqb event "a1b2c3d4e5f6" then Ok fixture_odds
       else Throw "HTTP error! Status: 404 - Not Found";
     OddsCollector.basePath := "odds_data_v2";
     OddsCollector.put_fails := fun _ => false;
     OddsCollector.maxRetries := R2Storage.default_maxRetries;
     OddsCollector.update_rejected := rejects;
     OddsCollector.timings := [opening; closing];
     OddsCollector.leagues := [("england_premier_league", epl)];
     OddsCollector.maxJobsPerRun := 100;
     OddsCollector.requestDelay := 1100;
     OddsCollector.enableDiscovery := true;
     OddsCollector.timezone := JsDate.UTC |}.

(** 2025-12-01T13:28:20Z, one hundred seconds before the closing job is
    scheduled: it is due within the five-minute window. *)
Definition closing_due : World := world_at 1764595700000 [closing_job].

(** A job for a fixture the provider no longer quotes, due just before the
    closing job. *)
Definition stale_job : ScheduledJob :=
  {| id := "0ff1c1a1dead_closing"; leagueId := "england_premier_league";
     eventId := "0ff1c1a1dead"; homeTeam := "Everton"; awayTeam := "Fulham";
     matchDate := "2025-12-01"; kickoffTime := "2025-12-01T14:59:00Z";
     timingOffset := "closing"; scheduledTime := 1764595740000;
     status := pending; attempts := 0; lastAttempt := None;
     snapshotPath := None; createdAt := 1764000000000; completedAt := None;
     error := None |}.

Definition two_due : World := world_at 1764595700000 [closing_job; stale_job].

(** The store turns down one statement: marking the stale job failed. *)
Definition rejects_one : string -> JobStatus -> bool :=
  fun jobId st =>
    String.eqb jobId "0ff1c1a1dead_closing" && bool_decide (st = failed).

(** The store turns down one statement: marking the closing job running. *)
Definition rejects_running : string -> JobStatus -> bool :=
  fun jobId st =>
    bool_decide (st = running) && String.eqb jobId "a1b2c3d4e5f6_closing".

(** A match index with one match and its opening snapshot. *)
Definition arsenal_chelsea : MatchIndexEntry :=
  {| entry_homeTeam := "Arsenal"; entry_awayTeam := "Chelsea";
     entry_matchDate := "2025-12-01"; entry_eventId := "a1b2c3d4e5f6";
     snapshots :=
       [("opening",
         "england_premier_league/2025-2026/snapshots/opening/2025-12-01/Arsenal_vs_Chelsea_a1b2c3d.json")];
     entry_kickoffTime := "2025-12-01T15:00:00Z" |}.

Definition match_index : MatchIndex :=
  {| version := "1.0"; index_leagueId := "england_premier_league";
     index_season := "2025-2026"; lastUpdated := "2025-11-24T16:00:00.000Z";
     matches := [("Arsenal_Chelsea_2025-12-01", arsenal_chelsea)] |}.

Definition indexed : World :=
  {| clock := 1764000000000; jobs := []; metricsRows := [];
     bucket :=
       [("odds_data_v2/leagues/england_premier_league/2025-2026/by_match.json",
         MatchIndexObject match_index)];
     console_error := []; metricsMap := [] |}.

(** The descriptor of a snapshot of another match. *)
Definition everton_fulham_closing : SnapshotDescriptor :=
  {| desc_homeTeam := "Everton"; desc_awayTeam := "Fulham";
     desc_matchDate := "2025-12-01"; desc_eventId := "0ff1c1a1dead";
     desc_timing := "closing";
     desc_path :=
       "england_premier_league/2025-2026/snapshots/closing/2025-12-01/Everton_vs_Fulham_0ff1c1a.json";
     desc_kickoffTime := "2025-12-01T14:59:00Z" |}.

Definition never_fails : string -> bool := fun _ => false.

End Scenario.

(** ** Further specification predicates *)

(** A row as discovery creates it in a pass that started at [started], for
    one of the configured offsets. *)
Definition discovered (offsets : list string) (started : instant)
    (row : ScheduledJob) : Prop :=
  status row = pending /\ attempts row = 0 /\ error row = None
  /\ snapshotPath row = None /\ completedAt row = None
  /\ keyed row /\ started <= scheduledTime row
  /\ matchDate row = split_head "T" (kickoffTime row)
  /\ In (timingOffset row) offsets.

(** No white-space character starts anywhere in the text. *)
Fixpoint spaceless (s : string) : bool :=
  match s with
  | "" => true
  | String _ s' => (PathUtils.space_width s =? 0)%nat && spaceless s'
  end.

(** The number of low bits [JsNumber.round] drops from [m * 2 ^ e]. *)
Definition dropped (m e : Z) : Z :=
  Z.max 0 (Z.max (Z.log2 (Z.abs m) - 52) (-1074 - e)).

(** On the two numbers, the product and the difference of [JsNumber]
    are those of the binary64 floats of the proof assistant's kernel. *)
Definition same_arithmetic (x y : JsNumber.number) : bool :=
  JsNumber.same (JsNumber.mul x y)
    (JsNumber.of_float
       (PrimFloat.mul (JsNumber.to_float x) (JsNumber.to_float y)))
  && JsNumber.same (JsNumber.sub x y)
       (JsNumber.of_float
          (PrimFloat.sub (JsNumber.to_float x) (JsNumber.to_float y))).

(** The time [withRetry] spends waiting when every attempt fails: the sum
    of the delays after every attempt but the last. *)
Definition patience (maxRetries : Z) : Z :=
  foldr Z.add 0 (R2Storage.backoff <$> seqZ 1 (maxRetries - 1)).

(** The second world has the table of the first with rows appended that
    all satisfy [good]; unique ids stay unique; the bucket and the recorded
    metrics are those of the first. *)
Definition extends_with (good : ScheduledJob -> Prop) (w w' : World) : Prop :=
  (exists added, jobs w' = jobs w ++ added /\ Forall good added)
  /\ (NoDup (map id (jobs w)) -> NoDup (map id (jobs w')))
  /\ bucket w' = bucket w /\ metricsRows w' = metricsRows w.

(** A world without its error console. *)
Definition mute (w : World) : World :=
  {| clock := clock w; jobs := jobs w; metricsRows := metricsRows w;
     bucket := bucket w; console_error := []; metricsMap := metricsMap w |}.

(** The number of jobs a list of metrics accounts for. *)
Definition jobs_counted (rows : list CollectionMetrics) : Z :=
  fold_right (fun m total => jobsCompleted m + jobsFailed m + total) 0 rows.

(** A computation whose outcome and whose effect on everything but the
    console do not depend on what the console holds. *)
Definition console_blind {A} (m : M A) : Prop :=
  forall w,
    fst (m (mute w)) = fst (m w) /\ mute (snd (m (mute w))) = mute (snd (m w)).

(** The console of the second world is that of the first, possibly with
    more lines. *)
Definition console_grows (w w' : World) : Prop :=
  exists more, console_error w' = console_error w ++ more.

(** ** Further cases of the worked scenario *)
Module Cases.

(** The closing job after the provider had no odds for it. *)
Definition failed_job : ScheduledJob :=
  {| id := "a1b2c3d4e5f6_closing"; leagueId := "england_premier_league";
     eventId := "a1b2c3d4e5f6"; homeTeam := "Arsenal"; awayTeam := "Chelsea";
     matchDate := "2025-12-01"; kickoffTime := "2025-12-01T15:00:00Z";
     timingOffset := "closing"; scheduledTime := 1764595800000;
     status := failed; attempts := 2; lastAttempt := Some 1764595700000;
     snapshotPath := None; createdAt := 1764000000000;
     completedAt := Some 1764595700000;
     error := Some "HTTP error! Status: 404 - Not Found" |}.

(** 2025-12-01T13:33:20Z, with the failed job in the queue. *)
Definition after_failure : World :=
  Scenario.world_at 1764596000000 [failed_job].

(** The closing job after a capture was saved and a later attempt failed:
    the row holds a snapshot path and an error. *)
Definition retried_job : ScheduledJob :=
  {| id := "a1b2c3d4e5f6_closing"; leagueId := "england_premier_league";
     eventId := "a1b2c3d4e5f6"; homeTeam := "Arsenal"; awayTeam := "Chelsea";
     matchDate := "2025-12-01"; kickoffTime := "2025-12-01T15:00:00Z";
     timingOffset := "closing"; scheduledTime := 1764595800000;
     status := failed; attempts := 4; lastAttempt := Some 1764595900000;
     snapshotPath :=
       Some "england_premier_league/2025-2026/snapshots/closing/2025-12-01/Arsenal_vs_Chelsea_a1b2c3d.json";
     createdAt := 1764000000000;
     completedAt := Some 1764595900000;
     error := Some "HTTP error! Status: 404 - Not Found" |}.

Definition after_retry : World :=
  Scenario.world_at 1764596000000 [retried_job].

(** The closing job moved to 13:30:00.999, and 13:25:00.000 of that day:
    the window of five minutes ends 999 milliseconds before the job. *)
Definition late_job : ScheduledJob :=
  Scenario.job_at "a1b2c3d4e5f6_closing" "closing" 1764595800999.

Definition almost_due : World := Scenario.world_at 1764595500000 [late_job].

(** A thousandth of an hour: the binary64 value nearest to 0.001. *)
Definition thousandth : JsNumber.number :=
  JsNumber.Finite 4611686018427388 (-62).

(** Offsets, factors and time values of the scenario, with a few numbers
    that take all 53 bits. *)
Definition numbers : list JsNumber.number :=
  [thousandth; JsNumber.Finite 3 (-1);
   JsNumber.integer 60; JsNumber.integer 1000; JsNumber.integer 168;
   JsNumber.integer 1764601200000;
   JsNumber.Finite 7916483719987199 (-41);
   JsNumber.Finite 3602879701896397 (-55);
   JsNumber.Finite (-29) (-2);
   JsNumber.integer 9007199254740991;
   JsNumber.integer 0].

(** Pairs at the two ends of the range: overflow, the smallest numbers and
    ties between them. *)
Definition extremes : list (JsNumber.number * JsNumber.number) :=
  [(JsNumber.Finite 9007199254740991 971, JsNumber.integer 2);
   (JsNumber.Finite 9007199254740991 971, JsNumber.Finite (-1) 970);
   (JsNumber.Finite 1 (-1074), JsNumber.Finite 1 (-1));
   (JsNumber.Finite 3 (-1074), JsNumber.Finite 1 (-1));
   (JsNumber.Finite 4503599627370497 (-1074), JsNumber.Finite 1 (-1));
   (JsNumber.Finite 3 (-1074), JsNumber.Finite 1 (-1074))].

(** A team name as a feed spells it with a no-break space, U+00A0, the
    bytes 194 and 160 of its encoding. *)
Definition no_break_name : string :=
  "Nottingham" +:+ String "194" (String "160" "Forest").

(** An index that holds a second match, of a team whose name has a space,
    with its opening snapshot. *)
Definition forest_entry : MatchIndexEntry :=
  {| entry_homeTeam := "Nottingham Forest"; entry_awayTeam := "Chelsea";
     entry_matchDate := "2025-12-06"; entry_eventId := "0123456789ab";
     snapshots :=
       [("opening",
         "england_premier_league/2025-2026/snapshots/opening/2025-12-06/Nottingham_Forest_vs_Chelsea_0123456.json")];
     entry_kickoffTime := "2025-12-06T17:30:00Z" |}.

Definition forest_index : MatchIndex :=
  {| version := "1.0"; index_leagueId := "england_premier_league";
     index_season := "2025-2026"; lastUpdated := "2025-11-24T16:00:00.000Z";
     matches :=
       [("Arsenal_Chelsea_2025-12-01", Scenario.arsenal_chelsea);
        ("Nottingham_Forest_Chelsea_2025-12-06", forest_entry)] |}.

Definition forest_indexed : World :=
  {| clock := 1764000000000; jobs := []; metricsRows := [];
     bucket :=
       [("odds_data_v2/leagues/england_premier_league/2025-2026/by_match.json",
         MatchIndexObject forest_index)];
     console_error := []; metricsMap := [] |}.

(** Three descriptors of that match: a closing snapshot, a later closing
    snapshot that spells the home side with the no-break space and carries
    another event id and kickoff, and a snapshot of the day before. *)
Definition forest_closing_early : SnapshotDescriptor :=
  {| desc_homeTeam := "Nottingham Forest"; desc_awayTeam := "Chelsea";
     desc_matchDate := "2025-12-06"; desc_eventId := "0123456789ab";
     desc_timing := "closing";
     desc_path :=
       "england_premier_league/2025-2026/snapshots/closing/2025-12-06/Nottingham_Forest_vs_Chelsea_0123456.json";
     desc_kickoffTime := "2025-12-06T17:30:00Z" |}.

Definition forest_closing_moved : SnapshotDescriptor :=
  {| desc_homeTeam := no_break_name; desc_awayTeam := "Chelsea";
     desc_matchDate := "2025-12-06"; desc_eventId := "ba9876543210";
     desc_timing := "closing";
     desc_path :=
       "england_premier_league/2025-2026/snapshots/closing/2025-12-06/Nottingham_Forest_vs_Chelsea_ba98765.json";
     desc_kickoffTime := "2025-12-06T20:00:00Z" |}.

Definition forest_day_before : SnapshotDescriptor :=
  {| desc_homeTeam := "Nottingham Forest"; desc_awayTeam := "Chelsea";
     desc_matchDate := "2025-12-06"; desc_eventId := "0123456789ab";
     desc_timing := "day_before";
     desc_path :=
       "england_premier_league/2025-2026/snapshots/day_before/2025-12-06/Nottingham_Forest_vs_Chelsea_0123456.json";
     desc_kickoffTime := "2025-12-06T17:30:00Z" |}.

(** The collector of the scenario in front of a bucket that refuses every
    PUT. *)
Definition refused_saves : OddsCollector.Collector :=
  let this := Scenario.collector Scenario.accepts_all in
  {| OddsCollector.fetchEvents := OddsCollector.fetchEvents this;
     OddsCollector.fetchEventOdds := OddsCollector.fetchEventOdds this;
     OddsCollector.basePath := OddsCollector.basePath this;
     OddsCollector.put_fails := fun _ => true;
     OddsCollector.maxRetries := OddsCollector.maxRetries this;
     OddsCollector.update_rejected := OddsCollector.update_rejected this;
     OddsCollector.timings := OddsCollector.timings this;
     OddsCollector.leagues := OddsCollector.leagues this;
     OddsCollector.maxJobsPerRun := OddsCollector.maxJobsPerRun this;
     OddsCollector.requestDelay := OddsCollector.requestDelay this;
     OddsCollector.enableDiscovery := OddsCollector.enableDiscovery this;
     OddsCollector.timezone := OddsCollector.timezone this |}.

(** The same moment, with the closing job still pending although its time
    has passed. *)
Definition overdue : World :=
  Scenario.world_at 1764596000000 [Scenario.closing_job].

(** The snapshot the execution phase builds for the closing job, and a
    later capture of the same fixture and offset. *)
Definition closing_snapshot_at (captured : string) : OddsSnapshot :=
  {| metadata :=
       {| timestamp := captured; date := "2025-12-01";
          league := "england_premier_league"; season := "2025-2026";
          collectionMethod := "event_based"; snapshotTiming := "closing";
          eventMetadata :=
            Some {| meta_eventId := "a1b2c3d4e5f6";
                    meta_kickoffTime := "2025-12-01T15:00:00Z" |} |};
     odds := Scenario.fixture_odds |}.

Definition closing_snapshot : OddsSnapshot :=
  closing_snapshot_at "2025-12-01T13:28:20.000Z".

Definition closing_again : OddsSnapshot :=
  closing_snapshot_at "2025-12-01T13:43:20.000Z".

(** A league the provider of the scenario does not know. *)
Definition serie_a : LeagueConfig :=
  {| league_id := "italy_serie_a"; providerKey := "soccer_italy_serie_a";
     league_season := "2025-2026"; normalizeTeamName := None |}.

Definition two_leagues : OddsCollector.Collector :=
  OddsCollector.addLeague (Scenario.collector Scenario.accepts_all) serie_a.

(** A store that cannot be reached before [restored]. *)
Definition outage (restored : instant) : M unit :=
  fun w =>
    if clock w <? restored then (Throw "503 Service Unavailable", w)
    else (Ok tt, w).

(** What the bucket listing of the repair tool holds after the closing
    snapshot was saved. *)
Definition listed : dict RepairProductionData.R2Object :=
  [("odds_data_v2/leagues/england_premier_league/2025-2026/a1b2c3d4e5f6_closing_2025-12-01.json",
    {| RepairProductionData.r2_key :=
         "odds_data_v2/leagues/england_premier_league/2025-2026/a1b2c3d4e5f6_closing_2025-12-01.json";
       RepairProductionData.r2_size := 2048;
       RepairProductionData.r2_uploaded := 1764595700000 |})].

End Cases.

(** ** Dictionaries *)

Lemma dict_get_set_eq {V} (k : string) (v : V) (d : dict V) :
  dict_get k (dict_set k v d) = Some v.
Proof.
  induction d as [|[k' v'] d IH]; cbn [dict_set dict_get].
  - rewrite String.eqb_refl. reflexivity.
  - destruct (String.eqb k k') eqn:Hk; cbn [dict_get]; rewrite Hk;
      [reflexivity | exact IH].
Qed.

Lemma dict_get_set_ne {V} (k k' : string) (v : V) (d : dict V) :
  k' <> k -> dict_get k' (dict_set k v d) = dict_get k' d.
Proof.
  intros Hne. induction d as [|[k0 v0] d IH]; cbn [dict_set dict_get].
  - apply String.eqb_neq in Hne. rewrite Hne. reflexivity.
  - destruct (String.eqb k k0) eqn:Hk; cbn [dict_get].
    + apply String.eqb_eq in Hk. subst k0.
      apply String.eqb_neq in Hne. rewrite Hne. reflexivity.
    + destruct (String.eqb k' k0); [reflexivity | exact IH].
Qed.

(** ** storage/R2Storage: the retry loop *)

Section Retry.

Import R2Storage.

Variable basePath : string.
Variable put_fails : string -> bool.
Variable maxRetries : Z.

Lemma backoff_bounds (attempt : Z) : 0 <= backoff attempt <= 10000.
Proof.
  unfold backoff. pose proof (Z.pow_nonneg 2 (attempt - 1)). lia.
Qed.

Lemma patience_bounds (first turns : Z) :
  0 <= foldr Z.add 0 (backoff <$> seqZ first turns) <= 10000 * Z.max 0 turns.
Proof.
  destruct (Z.le_gt_cases turns 0) as [Hle|Hgt].
  { rewrite seqZ_nil by exact Hle. cbn. lia. }
  rewrite <- (Z2Nat.id turns) by lia.
  generalize (Z.to_nat turns) as n. clear Hgt. intros n. revert first.
  induction n as [|n IH]; intros first.
  - rewrite seqZ_nil by lia. cbn. lia.
  - rewrite seqZ_cons, fmap_cons by lia. cbn [foldr].
    replace (Z.pred (Z.of_nat (S n))) with (Z.of_nat n) by lia.
    pose proof (IH (Z.succ first)). pose proof (backoff_bounds first). lia.
Qed.

Lemma set_clock_same (w : World) : set_clock (clock w) w = w.
Proof. destruct w. reflexivity. Qed.

Lemma set_clock_twice (t1 t2 : instant) (w : World) :
  set_clock t2 (set_clock t1 w) = set_clock t2 w.
Proof. reflexivity. Qed.

(** An operation that succeeds is not retried. *)
Lemma retry_from_success {A} (operation : M A) (operationName : string)
    (remaining : nat) (attempt : Z) (lastError : option string)
    (w w' : World) (a : A) :
  operation w = (Ok a, w') ->
  retry_from maxRetries operation operationName (S remaining) attempt
    lastError w = (Ok a, w').
Proof.
  intros H. cbn [retry_from]. unfold try_catch. rewrite H. reflexivity.
Qed.

Lemma withRetry_success {A} (operation : M A) (operationName : string)
    (w w' : World) (a : A) :
  1 <= maxRetries -> operation w = (Ok a, w') ->
  withRetry maxRetries operation operationName w = (Ok a, w').
Proof.
  intros Hmax H. unfold withRetry.
  destruct (Z.to_nat maxRetries) as [|n] eqn:Hn; [lia|].
  apply retry_from_success. exact H.
Qed.

(** The loop of [withRetry] around an operation that fails in every world
    it is tried in. *)
Lemma retry_from_fails {A} (operation : M A) (operationName error : string)
    (stuck : World -> Prop) :
  (forall w t, stuck w -> stuck (set_clock t w)) ->
  (forall w, stuck w -> operation w = (Throw error, w)) ->
  forall (remaining : nat) (attempt : Z) (lastError : option string)
         (w : World),
    stuck w ->
    attempt + Z.of_nat remaining = maxRetries + 1 ->
    (remaining = O -> lastError = Some error) ->
    retry_from maxRetries operation operationName remaining attempt
      lastError w
    = (Throw ("R2Storage: " +:+ operationName +:+ " failed after "
              +:+ pretty maxRetries +:+ " attempts: " +:+ error),
       set_clock
         (clock w
          + foldr Z.add 0 (backoff <$> seqZ attempt (Z.of_nat remaining - 1)))
         w).
Proof.
  intros Hkeep Hop. induction remaining as [|remaining IH];
    intros attempt lastError w Hstuck Hturns Hlast.
  - rewrite seqZ_nil by lia. rewrite fmap_nil. cbn [foldr retry_from].
    rewrite Z.add_0_r, set_clock_same, (Hlast eq_refl). reflexivity.
  - cbn [retry_from]. unfold try_catch. rewrite (Hop w Hstuck). unfold bind.
    destruct remaining as [|remaining'].
    + assert (Hlt : (attempt <? maxRetries) = false) by (apply Z.ltb_ge; lia).
      rewrite Hlt. unfold ret. cbn [retry_from]. unfold throw.
      rewrite seqZ_nil by lia. rewrite fmap_nil. cbn [foldr].
      rewrite Z.add_0_r, set_clock_same. reflexivity.
    + assert (Hlt : (attempt <? maxRetries) = true) by (apply Z.ltb_lt; lia).
      rewrite Hlt. unfold delay, modify.
      pose proof (backoff_bounds attempt) as Hb.
      rewrite Z.max_r by lia.
      rewrite IH; [| apply Hkeep; exact Hstuck | lia | discriminate].
      rewrite set_clock_twice. cbn [clock set_clock].
      rewrite (seqZ_cons attempt), fmap_cons by lia. cbn [foldr].
      rewrite Z.add_assoc. repeat f_equal; lia.
Qed.

(** [withRetry] around an operation that fails in every world it is tried
    in: it gives up after waiting out every delay, or at once when no
    attempt is configured. *)
Lemma withRetry_fails {A} (operation : M A) (operationName error : string)
    (stuck : World -> Prop) (w : World) :
  (forall w t, stuck w -> stuck (set_clock t w)) ->
  (forall w, stuck w -> operation w = (@Throw A error, w)) ->
  stuck w ->
  withRetry maxRetries operation operationName w
  = (Throw ("R2Storage: " +:+ operationName +:+ " failed after "
            +:+ pretty maxRetries +:+ " attempts: "
            +:+ (if 1 <=? maxRetries then error else "undefined")),
     set_clock (clock w + patience maxRetries) w).
Proof.
  intros Hkeep Hop Hstuck. unfold withRetry, patience.
  destruct (Z.leb_spec 1 maxRetries) as [Hmax|Hmax].
  - rewrite (retry_from_fails operation operationName error stuck Hkeep Hop)
      by (try exact Hstuck; lia).
    rewrite Z2Nat.id by lia. reflexivity.
  - replace (Z.to_nat maxRetries) with O by lia.
    rewrite seqZ_nil by lia. rewrite fmap_nil. cbn [foldr retry_from].
    rewrite Z.add_0_r, set_clock_same. reflexivity.
Qed.

(** A PUT inside [withRetry]: stored at the first attempt when the bucket
    accepts it; otherwise the error of [withRetry], after the delays of
    every attempt the bucket refused. *)
Lemma put_with_retry (key operationName : string) (body : StoredObject)
    (w : World) :
  withRetry maxRetries (put_object put_fails key body) operationName w
  = if (1 <=? maxRetries) && negb (put_fails key)
    then (Ok tt, set_bucket (dict_set key body (bucket w)) w)
    else
      (Throw ("R2Storage: " +:+ operationName +:+ " failed after "
              +:+ pretty maxRetries +:+ " attempts: "
              +:+ (if 1 <=? maxRetries then ServiceUnavailable
                   else "undefined")),
       set_clock
         (clock w + (if put_fails key then patience maxRetries else 0)) w).
Proof.
  destruct (put_fails key) eqn:Hput; cbn [negb].
  - rewrite andb_false_r.
    apply (withRetry_fails _ _ ServiceUnavailable (fun _ => True));
      [auto | | exact I].
    intros w0 _. unfold put_object. rewrite Hput. reflexivity.
  - rewrite andb_true_r. destruct (Z.leb_spec 1 maxRetries) as [Hmax|Hmax].
    + apply withRetry_success; [exact Hmax|].
      unfold put_object. rewrite Hput. reflexivity.
    + unfold withRetry. replace (Z.to_nat maxRetries) with O by lia.
      cbn [retry_from]. unfold throw.
      rewrite Z.add_0_r, set_clock_same. reflexivity.
Qed.

Lemma saveSnapshot_accepted (leagueId season : string)
    (snapshot : OddsSnapshot) (w : World) :
  1 <= maxRetries ->
  put_fails (snapshotKey basePath leagueId season snapshot) = false ->
  saveSnapshot basePath put_fails maxRetries leagueId season snapshot w
  = (Ok tt,
     set_bucket
       (dict_set (snapshotKey basePath leagueId season snapshot)
          (SnapshotObject snapshot) (bucket w)) w).
Proof.
  intros Hmax Hput. unfold saveSnapshot. cbv zeta.
  rewrite put_with_retry, Hput.
  destruct (Z.leb_spec 1 maxRetries); [reflexivity | lia].
Qed.

Lemma saveIndex_accepted (leagueId season indexType : string)
    (index : StoredObject) (w : World) :
  1 <= maxRetries ->
  put_fails (indexKey basePath leagueId season indexType) = false ->
  saveIndex basePath put_fails maxRetries leagueId season indexType index w
  = (Ok tt,
     set_bucket
       (dict_set (indexKey basePath leagueId season indexType) index
          (bucket w)) w).
Proof.
  intros Hmax Hput. unfold saveIndex. cbv zeta.
  rewrite put_with_retry, Hput.
  destruct (Z.leb_spec 1 maxRetries); [reflexivity | lia].
Qed.

Lemma patience_nonnegative : 0 <= patience maxRetries.
Proof. unfold patience. apply patience_bounds. Qed.

End Retry.

(** ** The model on the examples of the design document *)

Example generateMatchKey_example :
  PathUtils.generateMatchKey "Arsenal FC" "Chelsea FC" "2025-11-30"
  = "Arsenal_FC_Chelsea_FC_2025-11-30"%string.
Proof. reflexivity. Qed.

Example calculateScheduledTime_example :
  PathUtils.calculateScheduledTime JsDate.UTC "2025-12-01T15:00:00Z"
    (JsNumber.integer 24)
  = Ok 1764514800000 /\
  JsDate.toISOString 1764514800000 = "2025-11-30T15:00:00.000Z"%string.
Proof. split; vm_compute; reflexivity. Qed.

Example closing_is_ninety_minutes_before :
  PathUtils.calculateScheduledTime JsDate.UTC "2025-12-01T15:00:00Z"
    (hoursBeforeKickoff Scenario.closing)
  = Ok 1764595800000 /\
  JsDate.toISOString 1764595800000 = "2025-12-01T13:30:00.000Z"%string.
Proof. split; vm_compute; reflexivity. Qed.

(** The offset is multiplied and subtracted in binary64.  A thousandth of
    an hour comes to a little less than 3600 ms: at the epoch the
    difference keeps its fraction, which [Date] drops towards zero; at the
    kickoff of the fixture the difference rounds to a whole number. *)
Example calculateScheduledTime_thousandth_of_an_hour :
  PathUtils.offset_ms Cases.thousandth
  = JsNumber.Finite 7916483719987199 (-41) /\
  7916483719987199 < 3600 * 2 ^ 41 /\
  PathUtils.calculateScheduledTime JsDate.UTC "1970-01-01T00:00:00Z"
    Cases.thousandth = Ok (-3599) /\
  PathUtils.calculateScheduledTime JsDate.UTC "2025-12-01T15:00:00Z"
    Cases.thousandth = Ok (1764601200000 - 3600).
Proof. repeat split; vm_compute; reflexivity. Qed.

(** The arithmetic of [JsNumber] against the binary64 floats of the
    kernel. *)
Example binary64_arithmetic_agrees :
  forallb (fun x => forallb (same_arithmetic x) Cases.numbers) Cases.numbers
  = true /\
  forallb (fun p => same_arithmetic (fst p) (snd p)) Cases.extremes = true.
Proof. split; vm_compute; reflexivity. Qed.

(** The shapes of the date-time string format: a date alone is read at
    UTC, a date and time without a zone in the local zone, here five hours
    west of UTC; a year of six digits takes a sign, and the last instant a
    [Date] holds is the start of 13 September 275760; any other text is
    not a date. *)
Example parse_examples :
  JsDate.parse (-300) "2025-12-01" = Some 1764547200000 /\
  JsDate.parse (-300) "2025-12" = Some 1764547200000 /\
  JsDate.parse (-300) "2025-12-01T15:00:00Z" = Some 1764601200000 /\
  JsDate.parse (-300) "2025-12-01T15:00Z" = Some 1764601200000 /\
  JsDate.parse (-300) "2025-12-01T15:00:00+01:00" = Some 1764597600000 /\
  JsDate.parse (-300) "2025-12-01T15:00:00.5-05:30" = Some 1764621000500 /\
  JsDate.parse (-300) "2025-12-01T15:00:00" = Some 1764619200000 /\
  JsDate.parse (-300) "+002025-12-01" = Some 1764547200000 /\
  JsDate.parse (-300) "-000000-01-01" = None /\
  JsDate.parse (-300) "+275760-09-13T00:00:00Z" = Some JsDate.maxTime /\
  JsDate.parse (-300) "+275760-09-13T00:00:00.001Z" = None /\
  JsDate.parse (-300) "2025-13-01" = None /\
  JsDate.parse (-300) "TBD" = None.
Proof. repeat split; vm_compute; reflexivity. Qed.

(** [\s+] on the white space of Unicode: a no-break space, and a run of a
    space, a no-break space, a tab and an ideographic space, each become
    one underscore; the inverted exclamation mark, whose encoding starts
    with the same byte as the no-break space, stays. *)
Example formatTeamNameForPath_examples :
  PathUtils.formatTeamNameForPath Cases.no_break_name
  = "Nottingham_Forest"%string /\
  PathUtils.formatTeamNameForPath
    ("A " +:+ String "194" (String "160" (String "009"
       (String "227" (String "128" (String "128" "B")))))) = "A_B"%string /\
  PathUtils.formatTeamNameForPath (String "194" (String "161" "Hola"))
  = String "194" (String "161" "Hola") /\
  PathUtils.generateMatchKey Cases.no_break_name "Chelsea" "2025-12-06"
  = "Nottingham_Forest_Chelsea_2025-12-06"%string.
Proof. repeat split; vm_compute; reflexivity. Qed.

(** A bucket that refuses a PUT is asked three times, one and two seconds
    apart, before the save gives up. *)
Example refused_save_waits :
  R2Storage.saveSnapshot "odds_data_v2" (fun _ => true)
    R2Storage.default_maxRetries "england_premier_league" "2025-2026"
    Cases.closing_snapshot Scenario.fresh
  = (Throw
       ("R2Storage: saveSnapshot(odds_data_v2/leagues/england_premier_league/2025-2026/a1b2c3d4e5f6_closing_2025-12-01.json) failed after 3 attempts: "
        +:+ R2Storage.ServiceUnavailable),
     set_clock (clock Scenario.fresh + 1000 + 2000) Scenario.fresh).
Proof. vm_compute. reflexivity. Qed.

(** The window of [getJobsDueWithin] is compared in whole seconds: a job
    scheduled 999 ms after the window ends is due, a job scheduled a
    second after it ends is not. *)
Example getJobsDueWithin_whole_seconds :
  JobScheduler.getJobsDueWithin 5 100
    (Scenario.world_at 1764595500000
       [Scenario.job_at "a1b2c3d4e5f6_closing" "closing" 1764595800999])
  = (Ok [Scenario.job_at "a1b2c3d4e5f6_closing" "closing" 1764595800999],
     Scenario.world_at 1764595500000
       [Scenario.job_at "a1b2c3d4e5f6_closing" "closing" 1764595800999]) /\
  fst (JobScheduler.getJobsDueWithin 5 100
         (Scenario.world_at 1764595500000
            [Scenario.job_at "a1b2c3d4e5f6_closing" "closing" 1764595801000]))
  = Ok [].
Proof. split; vm_compute; reflexivity. Qed.

Example unparsable_kickoff_throws :
  PathUtils.calculateScheduledTime JsDate.UTC "TBD" (JsNumber.integer 24)
  = Throw "RangeError: Invalid time value".
Proof. reflexivity. Qed.

Example live_odds_cost :
  TheOddsApiProvider.estimateCost TheOddsApiProvider.live_odds
    (split_count "," (markets Scenario.closing)) 1 = 5.
Proof. reflexivity. Qed.

(** A fixture discovered with two timing offsets produces two pending
    rows, keyed by fixture and offset. *)
Example discovery_schedules_both_offsets :
  fst (OddsCollector.discoverEvents
         (Scenario.collector Scenario.accepts_all) Scenario.fresh) = Ok tt /\
  map (fun row => (id row, status row, scheduledTime row))
    (jobs (snd (OddsCollector.discoverEvents
                  (Scenario.collector Scenario.accepts_all) Scenario.fresh)))
  = [("a1b2c3d4e5f6_opening"%string, pending, 1763996400000);
     ("a1b2c3d4e5f6_closing"%string, pending, 1764595800000)].
Proof. split; vm_compute; reflexivity. Qed.

(** A week before kickoff the opening offset is already past: discovery
    leaves the queue as it is. *)
Example discovery_skips_past_offsets :
  jobs (snd (OddsCollector.discoverEvents
               (Scenario.collector Scenario.accepts_all) Scenario.queued))
  = jobs Scenario.queued.
Proof. vm_compute. reflexivity. Qed.

(** ** Properties of the job queue *)

Section JobQueue.

Import JobScheduler.

(** The UPDATE rewrites the row a lookup by the same id finds, and no row a
    lookup by another id finds. *)
Lemma select_update_status_same t i st sp e table :
  select_by_id i (update_status t i st sp e table)
  = option_map (set_status t st sp e) (select_by_id i table).
Proof.
  unfold select_by_id, update_status.
  induction table as [|row table IH]; [reflexivity|].
  cbn [map find]. destruct (has_id i row) eqn:Hrow.
  - change (has_id i (set_status t st sp e row)) with (has_id i row).
    rewrite Hrow. reflexivity.
  - rewrite Hrow. exact IH.
Qed.

Lemma select_update_status_other t i j st sp e table :
  j <> i ->
  select_by_id j (update_status t i st sp e table) = select_by_id j table.
Proof.
  intros Hne. unfold select_by_id, update_status.
  induction table as [|row table IH]; [reflexivity|].
  cbn [map find]. destruct (has_id i row) eqn:Hi.
  - change (has_id j (set_status t st sp e row)) with (has_id j row).
    assert (Hj : has_id j row = false).
    { unfold has_id in *. apply String.eqb_eq in Hi.
      apply String.eqb_neq. congruence. }
    rewrite Hj. exact IH.
  - destruct (has_id j row); [reflexivity | exact IH].
Qed.

Lemma update_status_ids t i st sp e table :
  map id (update_status t i st sp e table) = map id table.
Proof.
  unfold update_status. rewrite map_map. apply map_ext.
  intros row. destruct (has_id i row); reflexivity.
Qed.

Lemma select_by_id_None i table :
  select_by_id i table = None <-> ~ In i (map id table).
Proof.
  unfold select_by_id. induction table as [|row table IH].
  - cbn. tauto.
  - cbn [map find In]. unfold has_id at 1.
    destruct (String.eqb_spec (id row) i) as [Heq|Hne].
    + split; [discriminate | tauto].
    + rewrite IH. tauto.
Qed.

Lemma select_by_id_Some i table row :
  select_by_id i table = Some row -> In row table /\ id row = i.
Proof.
  unfold select_by_id. intros H. apply find_some in H.
  destruct H as [Hin Hid]. split; [exact Hin|].
  apply String.eqb_eq. exact Hid.
Qed.

(** C3: a status update that the store accepts, on an existing row, adds one
    to [attempts], stamps [lastAttempt] with the current time, stamps
    [completedAt] exactly for [completed] and [failed] and leaves it alone
    otherwise, and keeps the stored snapshot path when no new one is
    supplied. *)
Theorem updateJobStatus_bookkeeping
    (rejected : string -> JobStatus -> bool) (jobId : string) (st : JobStatus)
    (newPath newError : option string) (w : World) (row : ScheduledJob) :
  rejected jobId st = false ->
  select_by_id jobId (jobs w) = Some row ->
  exists w' row',
    updateJobStatus rejected jobId st newPath newError w = (Ok tt, w') /\
    select_by_id jobId (jobs w') = Some row' /\
    attempts row' = attempts row + 1 /\
    lastAttempt row' = Some (clock w) /\
    (st = completed \/ st = failed -> completedAt row' = Some (clock w)) /\
    (st <> completed /\ st <> failed -> completedAt row' = completedAt row) /\
    (newPath = None -> snapshotPath row' = snapshotPath row) /\
    (forall p, newPath = Some p -> p <> ""%string -> snapshotPath row' = Some p).
Proof.
  intros Hacc Hrow.
  exists (set_jobs (update_status (clock w) jobId st (or_null newPath)
                      (or_null newError) (jobs w)) w).
  exists (set_status (clock w) st (or_null newPath) (or_null newError) row).
  split.
  { unfold updateJobStatus. rewrite Hacc. reflexivity. }
  split.
  { cbn [jobs set_jobs]. rewrite select_update_status_same, Hrow. reflexivity. }
  cbn [attempts lastAttempt completedAt snapshotPath set_status].
  repeat split.
  - intros [-> | ->]; reflexivity.
  - intros [Hc Hf]. destruct st; try reflexivity; congruence.
  - intros ->. reflexivity.
  - intros p -> Hp. destruct p; [congruence | reflexivity].
Qed.



Lemma insert_fresh t job table :
  select_by_id (new_id job) table = None ->
  insert t job table = Ok (table ++ [new_row t job]).
Proof. intros H. unfold insert. rewrite H. reflexivity. Qed.

Lemma insert_taken t job table :
  select_by_id (new_id job) table <> None ->
  insert t job table
  = Throw "D1_ERROR: UNIQUE constraint failed: scheduled_jobs.id".
Proof.
  intros H. unfold insert.
  destruct (select_by_id (new_id job) table); [reflexivity | congruence].
Qed.

Lemma NoDup_pairs_of_ids table :
  Forall keyed table -> NoDup (map id table) -> NoDup (map pair_of table).
Proof.
  intros Hkeyed Hnodup.
  assert (Hmap : map id table
                 = map (fun p => PathUtils.generateJobId (fst p) (snd p))
                       (map pair_of table)).
  { rewrite map_map. apply map_ext_in. intros row Hin.
    rewrite Forall_forall in Hkeyed.
    apply Hkeyed, list_elem_of_In. exact Hin. }
  rewrite Hmap in Hnodup.
  apply NoDup_ListNoDup. apply NoDup_ListNoDup in Hnodup.
  eapply List.NoDup_map_inv. exact Hnodup.
Qed.

(** C2, as the code has it: [scheduleJob] is a plain INSERT.  On an id that
    is already a row the PRIMARY KEY rejects it, the call raises and the
    world is unchanged; on a fresh id it appends the pending row.  Either
    way ids stay unique, and so do (fixture, offset) pairs as long as rows
    carry the deterministic id of their pair. *)
Theorem scheduleJob_insert_or_reject (job : NewJob) (w : World) :
  (select_by_id (new_id job) (jobs w) <> None ->
     scheduleJob job w
     = (Throw "D1_ERROR: UNIQUE constraint failed: scheduled_jobs.id", w)) /\
  (select_by_id (new_id job) (jobs w) = None ->
     scheduleJob job w
     = (Ok tt, set_jobs (jobs w ++ [new_row (clock w) job]) w)) /\
  (NoDup (map id (jobs w)) ->
     NoDup (map id (jobs (snd (scheduleJob job w))))) /\
  (NoDup (map id (jobs w)) -> Forall keyed (jobs w) ->
     new_id job
     = PathUtils.generateJobId (new_eventId job) (new_timingOffset job) ->
     NoDup (map pair_of (jobs (snd (scheduleJob job w))))).
Proof.
  assert (Hids : NoDup (map id (jobs w)) ->
                 NoDup (map id (jobs (snd (scheduleJob job w))))).
  { intros Hnodup. unfold scheduleJob, insert.
    destruct (select_by_id (new_id job) (jobs w)) eqn:Hsel; [exact Hnodup|].
    cbn [snd jobs set_jobs]. rewrite map_app. cbn [map id new_row].
    apply select_by_id_None in Hsel.
    apply NoDup_app. split; [exact Hnodup|]. split.
    - intros x Hx Hin. apply list_elem_of_In in Hx.
      apply list_elem_of_singleton in Hin. subst x. exact (Hsel Hx).
    - apply NoDup_singleton. }
  repeat split.
  - intros H. unfold scheduleJob. rewrite (insert_taken _ _ _ H). reflexivity.
  - intros H. unfold scheduleJob. rewrite (insert_fresh _ _ _ H). reflexivity.
  - exact Hids.
  - intros Hnodup Hkeyed Hjob. apply NoDup_pairs_of_ids; [|exact (Hids Hnodup)].
    unfold scheduleJob, insert.
    destruct (select_by_id (new_id job) (jobs w)); [exact Hkeyed|].
    cbn [snd jobs set_jobs]. apply Forall_app. split; [exact Hkeyed|].
    constructor; [exact Hjob | constructor].
Qed.

(** C2, as stated, fails: the closing job is queued, scheduling it again
    raises instead of returning normally. *)
Lemma scheduleJob_duplicate_raises :
  select_by_id (new_id Scenario.closing_request) (jobs Scenario.queued)
  = Some Scenario.closing_job /\
  fst (scheduleJob Scenario.closing_request Scenario.queued)
  = Throw "D1_ERROR: UNIQUE constraint failed: scheduled_jobs.id" /\
  fst (scheduleJob Scenario.closing_request Scenario.queued) <> Ok tt.
Proof. repeat split. discriminate. Qed.


#[local] Instance earlier_transitive : Transitive earlier.
Proof. intros a b c. unfold earlier. lia. Qed.

#[local] Instance earlier_total : Total earlier.
Proof. intros a b. unfold earlier. lia. Qed.

Lemma StronglySorted_take {A} (R : relation A) (l : list A) (n : nat) :
  StronglySorted R l -> StronglySorted R (take n l).
Proof.
  intros Hs. revert n. induction Hs as [|x l Hs IH Hx]; intros [|n];
    cbn [take]; try constructor.
  - apply IH.
  - rewrite Forall_forall in *. intros y Hy. apply Hx.
    rewrite <- (take_drop n l). apply elem_of_app. left. exact Hy.
Qed.

Lemma In_take {A} (x : A) (l : list A) (n : nat) : x ∈ take n l -> x ∈ l.
Proof.
  intros H. rewrite <- (take_drop n l). apply elem_of_app. left. exact H.
Qed.

Lemma sorted_prefix_first {A} (R : relation A) (l : list A) (n : nat) :
  StronglySorted R l ->
  Forall (fun later => Forall (fun x => R x later) (take n l)) (drop n l).
Proof.
  intros Hs. revert n. induction Hs as [|x l Hs IH Hx]; intros [|n];
    cbn [take drop].
  - constructor.
  - constructor.
  - apply Forall_forall. intros later _. constructor.
  - specialize (IH n). rewrite Forall_forall in IH |- *.
    intros later Hlater. constructor.
    + rewrite Forall_forall in Hx. apply Hx.
      rewrite <- (take_drop n l). apply elem_of_app. right. exact Hlater.
    + apply IH. exact Hlater.
Qed.

(** In a list in ascending order, what is scheduled strictly after a
    member stands after it. *)
Lemma sorted_after (l : list ScheduledJob) (x : ScheduledJob) :
  StronglySorted earlier l -> In x l ->
  exists a r,
    l = a ++ x :: r /\ StronglySorted earlier r /\
    forall y, In y l -> scheduledTime x < scheduledTime y -> In y r.
Proof.
  intros Hs. induction Hs as [|h t Hs IH Hh]; intros Hx; [destruct Hx|].
  destruct Hx as [<- | Hx].
  - exists [], t. split; [reflexivity|]. split; [exact Hs|].
    intros y [<- | Hy] Hlt; [lia | exact Hy].
  - destruct (IH Hx) as (a & r & -> & Hr & Hafter).
    exists (h :: a), r. split; [reflexivity|]. split; [exact Hr|].
    intros y [Heq | Hy] Hlt.
    + subst y. rewrite Forall_forall in Hh.
      assert (Hle : earlier h x).
      { apply Hh. apply elem_of_app. right. left. }
      unfold earlier in Hle. lia.
    + apply Hafter; assumption.
Qed.

Lemma whole_second_le (a b : instant) :
  a <= b -> whole_second a <= whole_second b.
Proof. intros H. unfold whole_second. apply Z.div_le_mono; lia. Qed.

Lemma whole_second_bound (a b : instant) :
  whole_second a <= whole_second b -> a < b + 1000.
Proof.
  unfold whole_second. intros H.
  pose proof (Z.div_mod a 1000). pose proof (Z.mod_pos_bound a 1000).
  pose proof (Z.div_mod b 1000). pose proof (Z.mod_pos_bound b 1000).
  lia.
Qed.

(** A pending row scheduled at or before the end of the window is due. *)
Lemma due_within_at_or_before (t : instant) (minutes : nat)
    (row : ScheduledJob) :
  status row = pending ->
  scheduledTime row <= t + Z.of_nat minutes * 60000 ->
  due_within t minutes row.
Proof. intros Hst Hle. split; [exact Hst | apply whole_second_le; exact Hle]. Qed.

(** C4, as the code has it: the due query returns rows of the table that
    are pending and whose scheduled time, cut to the whole second, is no
    later than now plus the window cut to the whole second, hence less than
    a second past the end of the window; they come in ascending order of
    scheduled time and are no more than the limit.  They are the earliest
    of the due rows: the due rows of the table are the returned ones and
    rows that are due no earlier than every returned one, and none is left
    out unless the limit is reached.  Pending jobs with scheduled times
    T1 < T2 < T3 at or before the end of the window come back in that
    order when the limit covers the table, and as exactly [j1; j2; j3]
    when they are the table. *)
Theorem getJobsDueWithin_ordered (minutes maxJobs : nat) (w : World) :
  exists due,
    getJobsDueWithin minutes maxJobs w = (Ok due, w) /\
    Forall (fun job =>
              In job (jobs w) /\ status job = pending /\
              scheduledTime job / 1000
              <= (clock w + Z.of_nat minutes * 60000) / 1000 /\
              scheduledTime job < clock w + Z.of_nat minutes * 60000 + 1000)
           due /\
    StronglySorted earlier due /\
    (length due <= maxJobs)%nat /\
    (exists rest,
       filter (fun row =>
                 status row = pending /\
                 scheduledTime row / 1000
                 <= (clock w + Z.of_nat minutes * 60000) / 1000) (jobs w)
       ≡ₚ due ++ rest /\
       Forall (fun later => Forall (fun job => earlier job later) due) rest /\
       (rest = [] \/ length due = maxJobs)) /\
    (forall job,
       In job (jobs w) -> status job = pending ->
       scheduledTime job <= clock w + Z.of_nat minutes * 60000 ->
       In job due \/
       (length due = maxJobs /\ Forall (fun other => earlier other job) due)) /\
    (forall j1 j2 j3,
       In j1 (jobs w) -> In j2 (jobs w) -> In j3 (jobs w) ->
       status j1 = pending -> status j2 = pending -> status j3 = pending ->
       scheduledTime j1 < scheduledTime j2 ->
       scheduledTime j2 < scheduledTime j3 ->
       scheduledTime j3 <= clock w + Z.of_nat minutes * 60000 ->
       (length (jobs w) <= maxJobs)%nat ->
       exists a b c d, due = a ++ j1 :: b ++ j2 :: c ++ j3 :: d) /\
    (forall j1 j2 j3,
       jobs w ≡ₚ [j1; j2; j3] ->
       status j1 = pending -> status j2 = pending -> status j3 = pending ->
       scheduledTime j1 < scheduledTime j2 ->
       scheduledTime j2 < scheduledTime j3 ->
       scheduledTime j3 <= clock w + Z.of_nat minutes * 60000 ->
       (3 <= maxJobs)%nat ->
       due = [j1; j2; j3]).
Proof.
  exists (select_due_within (clock w) minutes maxJobs (jobs w)).
  split; [reflexivity|]. unfold select_due_within.
  set (bound := clock w + Z.of_nat minutes * 60000).
  change (filter (fun row => status row = pending /\
                    scheduledTime row / 1000 <= bound / 1000) (jobs w))
    with (filter (due_within (clock w) minutes) (jobs w)).
  set (P := due_within (clock w) minutes).
  set (sorted := merge_sort earlier (filter P (jobs w))).
  assert (Hsorted : StronglySorted earlier sorted)
    by (apply StronglySorted_merge_sort; apply _).
  assert (Hperm : sorted ≡ₚ filter P (jobs w))
    by apply merge_sort_Permutation.
  assert (Hall : forall job, In job (jobs w) -> status job = pending ->
            scheduledTime job <= bound -> job ∈ sorted).
  { intros job Hin Hst Hle. rewrite Hperm. apply list_elem_of_filter.
    split; [|apply list_elem_of_In; exact Hin].
    apply due_within_at_or_before; assumption. }
  assert (Hcover : (length (jobs w) <= maxJobs)%nat -> take maxJobs sorted = sorted).
  { intros Hmax. apply take_ge. rewrite (Permutation_length Hperm).
    pose proof (length_filter P (jobs w)). lia. }
  split; [|split; [|split; [|split; [|split; [|split]]]]].
  - rewrite Forall_forall. intros job Hjob.
    apply In_take in Hjob. rewrite Hperm in Hjob.
    apply list_elem_of_filter in Hjob. destruct Hjob as [[Hst Hdue] Hin].
    split; [apply list_elem_of_In; exact Hin|]. split; [exact Hst|].
    split; [exact Hdue | apply whole_second_bound; exact Hdue].
  - apply StronglySorted_take. exact Hsorted.
  - rewrite length_take. lia.
  - exists (drop maxJobs sorted).
    split; [rewrite take_drop; symmetry; exact Hperm|].
    split; [apply sorted_prefix_first; exact Hsorted|].
    destruct (Nat.le_gt_cases (length sorted) maxJobs) as [Hle|Hgt].
    + left. apply drop_ge. exact Hle.
    + right. rewrite length_take. lia.
  - intros job Hin Hst Hle.
    assert (Hjob : job ∈ sorted) by (apply Hall; assumption).
    rewrite <- (take_drop maxJobs sorted) in Hjob.
    apply elem_of_app in Hjob. destruct Hjob as [Hjob|Hjob].
    + left. apply list_elem_of_In. exact Hjob.
    + right. split.
      * rewrite length_take. apply Nat.min_l.
        destruct (Nat.le_gt_cases maxJobs (length sorted)) as [H|H];
          [exact H|].
        rewrite drop_ge in Hjob by lia. apply elem_of_nil in Hjob.
        destruct Hjob.
      * pose proof (sorted_prefix_first earlier sorted maxJobs Hsorted) as Hp.
        rewrite Forall_forall in Hp. apply Hp. exact Hjob.
  - intros j1 j2 j3 Hi1 Hi2 Hi3 H1 H2 H3 H12 H23 Hdue Hmax.
    rewrite (Hcover Hmax).
    assert (Hm1 : In j1 sorted)
      by (apply list_elem_of_In, Hall; [assumption | assumption | lia]).
    assert (Hm2 : In j2 sorted)
      by (apply list_elem_of_In, Hall; [assumption | assumption | lia]).
    assert (Hm3 : In j3 sorted)
      by (apply list_elem_of_In, Hall; [assumption | assumption | lia]).
    destruct (sorted_after sorted j1 Hsorted Hm1) as (a & r1 & Heq1 & Hr1 & Ha1).
    assert (Hr2 : In j2 r1) by (apply Ha1; [exact Hm2 | exact H12]).
    assert (Hr3 : In j3 r1) by (apply Ha1; [exact Hm3 | lia]).
    destruct (sorted_after r1 j2 Hr1 Hr2) as (b & r2 & Heq2 & Hr2' & Ha2).
    assert (Hr3' : In j3 r2) by (apply Ha2; [exact Hr3 | exact H23]).
    apply in_split in Hr3'. destruct Hr3' as (c & d & Heq3).
    exists a, b, c, d. rewrite Heq1, Heq2, Heq3. reflexivity.
  - intros j1 j2 j3 Htable H1 H2 H3 H12 H23 Hdue Hmax.
    assert (Hfilter : filter P (jobs w) ≡ₚ [j1; j2; j3]).
    { rewrite Htable. unfold P.
      rewrite !filter_cons, filter_nil.
      rewrite !decide_True
        by (apply due_within_at_or_before; [assumption | fold bound; lia]).
      reflexivity. }
    assert (Hthree : sorted ≡ₚ [j1; j2; j3]).
    { rewrite Hperm. exact Hfilter. }
    rewrite take_ge by (rewrite (Permutation_length Hthree); exact Hmax).
    apply (StronglySorted_unique_strong earlier).
    + intros x1 x2 Hx1 Hx2 Hle Hge. rewrite Hthree in Hx1.
      unfold earlier in Hle, Hge.
      rewrite !elem_of_cons, elem_of_nil in Hx1, Hx2.
      destruct Hx1 as [->|[->|[->|[]]]], Hx2 as [->|[->|[->|[]]]];
        first [reflexivity | lia].
    + exact Hsorted.
    + unfold earlier. repeat constructor; lia.
    + exact Hthree.
Qed.

End JobQueue.

(** C4, as stated, fails: five minutes before 13:30:00.000 the query
    returns a job scheduled at 13:30:00.999, which is after now plus the
    window. *)
Lemma getJobsDueWithin_past_the_bound :
  JobScheduler.getJobsDueWithin 5 100 Cases.almost_due
  = (Ok [Cases.late_job], Cases.almost_due) /\
  status Cases.late_job = pending /\
  clock Cases.almost_due + 5 * 60000 < scheduledTime Cases.late_job.
Proof.
  split; [vm_compute; reflexivity|]. split; [reflexivity|].
  vm_compute. reflexivity.
Qed.

(** ** Discovery *)

Section Discovery.

Import JobScheduler OddsCollector.

Variable this : Collector.

Lemma ids_within_refl w : ids_within w w.
Proof. intros i H. exact H. Qed.

Lemma ids_within_trans w1 w2 w3 :
  ids_within w1 w2 -> ids_within w2 w3 -> ids_within w1 w3.
Proof. intros H12 H23 i H. apply H23, H12, H. Qed.

Lemma ids_within_jobs w1 w1' w2 w2' :
  jobs w1' = jobs w1 -> jobs w2' = jobs w2 ->
  ids_within w1 w2 -> ids_within w1' w2'.
Proof. unfold ids_within. intros -> ->. tauto. Qed.

(** A loop whose body only ever extends the set of known ids extends it. *)
Lemma for_of_ids_within {A} (body : A -> M unit) (l : list A) :
  (forall x w r w', body x w = (r, w') -> ids_within w w') ->
  forall w r w', for_of l body w = (r, w') -> ids_within w w'.
Proof.
  intros Hbody. induction l as [|x l IH]; intros w r w' Hrun.
  - cbn in Hrun. inversion Hrun. apply ids_within_refl.
  - cbn [for_of] in Hrun. unfold bind in Hrun.
    destruct (body x w) as [[[]|e] w1] eqn:Hx.
    + eapply ids_within_trans; [exact (Hbody _ _ _ _ Hx) | exact (IH _ _ _ Hrun)].
    + inversion Hrun; subst. exact (Hbody _ _ _ _ Hx).
Qed.

(** Replaying a loop from a world that already knows every id the first
    run ended with: if each turn of the replay repeats the outcome of its
    turn without touching the table, so does the whole loop. *)
Lemma for_of_replay {A} (body1 body2 : A -> M unit) (l : list A) :
  (forall x w r w', body1 x w = (r, w') -> ids_within w w') ->
  (forall x wa r wa' wb,
     body1 x wa = (r, wa') -> ids_within wa' wb ->
     exists wb', body2 x wb = (r, wb') /\ jobs wb' = jobs wb) ->
  forall wa r wa' wb,
    for_of l body1 wa = (r, wa') -> ids_within wa' wb ->
    exists wb', for_of l body2 wb = (r, wb') /\ jobs wb' = jobs wb.
Proof.
  intros Hmono Hstep. induction l as [|x l IH]; intros wa r wa' wb Hrun Hin.
  - cbn in Hrun. inversion Hrun; subst. exists wb. split; reflexivity.
  - cbn [for_of] in *. unfold bind in *.
    destruct (body1 x wa) as [[[]|e] wa1] eqn:Hx.
    + assert (Hrest : ids_within wa1 wa')
        by exact (for_of_ids_within body1 l Hmono _ _ _ Hrun).
      destruct (Hstep _ _ _ _ wb Hx (ids_within_trans _ _ _ Hrest Hin))
        as [wb1 [Hx2 Hjobs1]].
      rewrite Hx2.
      destruct (IH wa1 r wa' wb1 Hrun) as [wb' [Hrun2 Hjobs2]].
      { eapply ids_within_jobs; [reflexivity | exact Hjobs1 | exact Hin]. }
      exists wb'. split; [exact Hrun2 | congruence].
    + inversion Hrun; subst.
      destruct (Hstep _ _ _ _ wb Hx Hin) as [wb1 [Hx2 Hjobs1]].
      rewrite Hx2. exists wb1. split; [reflexivity | exact Hjobs1].
Qed.

Lemma schedule_timing_ids_within started league event timing w r w' :
  schedule_timing this started league event timing w = (r, w') ->
  ids_within w w'.
Proof.
  unfold schedule_timing, bind, lift_result, getJob, gets, scheduleJob, ret.
  destruct (PathUtils.calculateScheduledTime _ _ _) as [t|e];
    [|intros H; inversion H; apply ids_within_refl].
  destruct (t <? started); [intros H; inversion H; apply ids_within_refl|].
  destruct (select_by_id _ (jobs w)) eqn:Hsel;
    [intros H; inversion H; apply ids_within_refl|].
  rewrite insert_fresh by exact Hsel.
  intros H; inversion H; subst. intros i Hi. cbn [jobs set_jobs].
  rewrite map_app. apply in_or_app. left. exact Hi.
Qed.

(** One (fixture, offset) pair, replayed later against a table that holds
    whatever the first pass left: same outcome, nothing inserted. *)
Lemma schedule_timing_replay started1 started2 league event timing
    wa r wa' wb :
  started1 <= started2 ->
  schedule_timing this started1 league event timing wa = (r, wa') ->
  ids_within wa' wb ->
  schedule_timing this started2 league event timing wb = (r, wb).
Proof.
  intros Hlater.
  unfold schedule_timing, bind, lift_result, getJob, gets, scheduleJob, ret.
  destruct (PathUtils.calculateScheduledTime _ _ _) as [t|e];
    [|intros H _; inversion H; reflexivity].
  destruct (Z.ltb_spec t started1) as [Hpast1|Hfuture1].
  { intros H _. inversion H; subst.
    destruct (Z.ltb_spec t started2); [reflexivity | lia]. }
  set (jobId := PathUtils.generateJobId (event_id event) (name timing)).
  intros Hrun Hin.
  assert (Hknown : In jobId (map id (jobs wa')) /\ r = Ok tt).
  { destruct (select_by_id jobId (jobs wa)) eqn:Hsel.
    - inversion Hrun; subst. split; [|reflexivity].
      destruct (in_dec string_dec jobId (map id (jobs wa'))) as [Hyes|Hno];
        [exact Hyes|].
      apply select_by_id_None in Hno. congruence.
    - rewrite insert_fresh in Hrun by exact Hsel.
      inversion Hrun; subst. split; [|reflexivity].
      cbn [jobs set_jobs]. rewrite map_app. apply in_or_app. right.
      left. reflexivity. }
  destruct Hknown as [Hknown ->].
  destruct (t <? started2); [reflexivity|].
  destruct (select_by_id jobId (jobs wb)) eqn:Hsel; [reflexivity|].
  apply select_by_id_None in Hsel. exfalso. apply Hsel, Hin, Hknown.
Qed.


(** A loop keeps any reflexive and transitive relation its body keeps. *)
Lemma for_of_preorder {A} (R : relation World) `{!Reflexive R, !Transitive R}
    (body : A -> M unit) (l : list A) :
  (forall x w r w', body x w = (r, w') -> R w w') ->
  forall w r w', for_of l body w = (r, w') -> R w w'.
Proof.
  intros Hbody. induction l as [|x l IH]; intros w r w' Hrun.
  - cbn in Hrun. inversion Hrun. reflexivity.
  - cbn [for_of] in Hrun. unfold bind in Hrun.
    destruct (body x w) as [[[]|e] w1] eqn:Hx.
    + transitivity w1; [exact (Hbody _ _ _ _ Hx) | exact (IH _ _ _ Hrun)].
    + inversion Hrun; subst. exact (Hbody _ _ _ _ Hx).
Qed.

#[local] Instance clock_le_refl : Reflexive clock_le.
Proof. intros w. unfold clock_le. lia. Qed.

#[local] Instance clock_le_trans : Transitive clock_le.
Proof. intros a b c. unfold clock_le. lia. Qed.

Lemma schedule_timing_clock started league event timing w r w' :
  schedule_timing this started league event timing w = (r, w') ->
  clock_le w w'.
Proof.
  unfold schedule_timing, bind, lift_result, getJob, gets, scheduleJob, ret.
  destruct (PathUtils.calculateScheduledTime _ _ _) as [t|e];
    [|intros H; inversion H; reflexivity].
  destruct (t <? started); [intros H; inversion H; reflexivity|].
  destruct (select_by_id _ (jobs w)) eqn:Hsel;
    [intros H; inversion H; reflexivity|].
  rewrite insert_fresh by exact Hsel.
  intros H; inversion H; subst. unfold clock_le. cbn. lia.
Qed.

Lemma schedule_events_ids_within started league events w r w' :
  schedule_events this started league events w = (r, w') -> ids_within w w'.
Proof.
  apply for_of_ids_within. intros event. apply for_of_ids_within.
  intros timing. apply schedule_timing_ids_within.
Qed.

Lemma schedule_events_clock started league events w r w' :
  schedule_events this started league events w = (r, w') -> clock_le w w'.
Proof.
  apply (for_of_preorder clock_le). intros event.
  apply (for_of_preorder clock_le). intros timing.
  apply schedule_timing_clock.
Qed.

Lemma schedule_events_replay started1 started2 league events wa r wa' wb :
  started1 <= started2 ->
  schedule_events this started1 league events wa = (r, wa') ->
  ids_within wa' wb ->
  exists wb', schedule_events this started2 league events wb = (r, wb') /\
              jobs wb' = jobs wb.
Proof.
  intros Hlater. unfold schedule_events. apply for_of_replay.
  - intros event. apply for_of_ids_within.
    intros timing. apply schedule_timing_ids_within.
  - intros event. apply for_of_replay.
    + intros timing. apply schedule_timing_ids_within.
    + intros timing w1 r1 w1' w2 Hrun Hin. exists w2.
      split; [|reflexivity].
      exact (schedule_timing_replay _ _ _ _ _ _ _ _ _ Hlater Hrun Hin).
Qed.

Lemma discover_league_unfold started entry w :
  discover_league this started entry w
  = match fetchEvents this (providerKey (snd entry)) with
    | Ok events =>
        match schedule_events this started (snd entry) events w with
        | (Ok _, w1) => delay (requestDelay this) w1
        | (Throw e, w1) =>
            log_error ("Failed to discover events for " +:+ fst entry +:+ ": "
                       +:+ e) w1
        end
    | Throw e =>
        log_error ("Failed to discover events for " +:+ fst entry +:+ ": "
                   +:+ e) w
    end.
Proof.
  destruct entry as [leagueId league].
  unfold discover_league, try_catch, bind, lift_result.
  cbn [fst snd].
  destruct (fetchEvents this (providerKey league)) as [events|e];
    [|reflexivity].
  destruct (schedule_events this started league events w) as [[[]|e] w1];
    reflexivity.
Qed.

Lemma discover_league_ok started entry w :
  fst (discover_league this started entry w) = Ok tt.
Proof.
  rewrite discover_league_unfold.
  destruct (fetchEvents this _) as [events|e]; [|reflexivity].
  destruct (schedule_events this _ _ _ w) as [[[]|e] w1]; reflexivity.
Qed.

Lemma discover_league_ids_within started entry w r w' :
  discover_league this started entry w = (r, w') -> ids_within w w'.
Proof.
  rewrite discover_league_unfold.
  destruct (fetchEvents this _) as [events|e];
    [|intros H; inversion H; subst; intros i Hi; exact Hi].
  destruct (schedule_events this _ _ _ w) as [[[]|e] w1] eqn:Hloop;
    intros H; inversion H; subst;
    (eapply ids_within_jobs;
     [reflexivity | | exact (schedule_events_ids_within _ _ _ _ _ _ Hloop)]);
    reflexivity.
Qed.

Lemma discover_league_clock started entry w r w' :
  discover_league this started entry w = (r, w') -> clock_le w w'.
Proof.
  rewrite discover_league_unfold.
  destruct (fetchEvents this _) as [events|e];
    [|intros H; inversion H; subst; unfold clock_le; cbn; lia].
  destruct (schedule_events this _ _ _ w) as [[[]|e] w1] eqn:Hloop;
    intros H; inversion H; subst;
    apply schedule_events_clock in Hloop; unfold clock_le in *; cbn; lia.
Qed.

Lemma discover_league_replay started1 started2 entry wa r wa' wb :
  started1 <= started2 ->
  discover_league this started1 entry wa = (r, wa') ->
  ids_within wa' wb ->
  exists wb', discover_league this started2 entry wb = (r, wb') /\
              jobs wb' = jobs wb.
Proof.
  intros Hlater. rewrite !discover_league_unfold.
  destruct (fetchEvents this _) as [events|e].
  - destruct (schedule_events this started1 _ _ wa) as [r1 wa1] eqn:Hloop.
    intros Hrun Hin.
    assert (Hin1 : ids_within wa1 wb).
    { eapply ids_within_jobs; [| reflexivity | exact Hin].
      destruct r1 as [[]|e]; inversion Hrun; reflexivity. }
    destruct (schedule_events_replay _ _ _ _ _ _ _ _ Hlater Hloop Hin1)
      as [wb1 [Hloop2 Hjobs]].
    rewrite Hloop2.
    destruct r1 as [[]|e]; inversion Hrun; subst;
      eexists; (split; [reflexivity | exact Hjobs]).
  - intros Hrun _. inversion Hrun; subst.
    eexists; split; reflexivity.
Qed.

(** C1: discovery never raises, and a second pass over the same provider
    answers, run at once or at any later time on the table the first pass
    left, ends with that very table: it inserts no row. *)
Theorem discovery_idempotent (w : World) :
  let first := discoverEvents this w in
  fst first = Ok tt /\
  jobs (snd (discoverEvents this (snd first))) = jobs (snd first) /\
  (forall later,
     clock w <= later ->
     let second := discoverEvents this (set_clock later (snd first)) in
     fst second = Ok tt /\
     jobs (snd second) = jobs (snd first) /\
     length (jobs (snd second)) = length (jobs (snd first))).
Proof.
  cbn zeta.
  assert (Hreplay : forall wb,
            clock w <= clock wb ->
            ids_within (snd (discoverEvents this w)) wb ->
            fst (discoverEvents this wb) = fst (discoverEvents this w) /\
            jobs (snd (discoverEvents this wb)) = jobs wb).
  { intros wb Hclock Hin. unfold discoverEvents, bind, now, gets in *.
    destruct (for_of (leagues this) (discover_league this (clock w)) w)
      as [r w1] eqn:Hfirst.
    destruct (for_of_replay (discover_league this (clock w))
                (discover_league this (clock wb)) (leagues this)) 
      with (wa := w) (r := r) (wa' := w1) (wb := wb)
      as [wb' [Hsecond Hjobs]].
    - intros x w0 r0 w0'. apply discover_league_ids_within.
    - intros x wa r0 wa' wb0. apply discover_league_replay. exact Hclock.
    - exact Hfirst.
    - exact Hin.
    - rewrite Hsecond. split; [reflexivity | exact Hjobs]. }
  assert (Hok : fst (discoverEvents this w) = Ok tt).
  { unfold discoverEvents, bind, now, gets.
    generalize (clock w). intros started. generalize w.
    induction (leagues this) as [|entry l IH]; intros w0; [reflexivity|].
    cbn [for_of]. unfold bind.
    pose proof (discover_league_ok started entry w0) as Hentry.
    destruct (discover_league this started entry w0) as [r1 w1].
    cbn in Hentry. subst r1. apply IH. }
  assert (Hclock : clock w <= clock (snd (discoverEvents this w))).
  { unfold discoverEvents, bind, now, gets.
    destruct (for_of (leagues this) (discover_league this (clock w)) w)
      as [r w1] eqn:Hfirst.
    apply (for_of_preorder clock_le) in Hfirst; [exact Hfirst|].
    intros x w0 r0 w0'. apply discover_league_clock. }
  split; [exact Hok|]. split.
  - apply Hreplay; [exact Hclock | apply ids_within_refl].
  - intros later Hlater.
    destruct (Hreplay (set_clock later (snd (discoverEvents this w))))
      as [Hfst Hjobs]; [exact Hlater | intros i Hi; exact Hi |].
    split; [congruence|]. split; [exact Hjobs|].
    rewrite Hjobs. reflexivity.
Qed.

End Discovery.

(** ** Execution *)

Section Execution.

Import JobScheduler OddsCollector.

Variable this : Collector.

Lemma attempt_job_jobs job w r w' :
  attempt_job this job w = (r, w') ->
  (r = Ok tt /\
   exists p,
     jobs w'
     = update_status (clock w) (id job) completed p None
         (update_status (clock w) (id job) running None None (jobs w))) \/
  (exists e, r = Throw e /\
     (jobs w' = jobs w \/
      jobs w' = update_status (clock w) (id job) running None None (jobs w))).
Proof.
  unfold attempt_job, bind, updateJobStatus, throw, modify, lift_result, now,
    gets, ret, R2Storage.saveSnapshot, update_metrics, delay.
  destruct (update_rejected this (id job) running).
  { intros H; inversion H; subst. right. eexists. split; [reflexivity|]. left. reflexivity. }
  destruct (dict_get (leagueId job) (leagues this)) as [league|].
  2:{ intros H; inversion H; subst. right. eexists. split; [reflexivity|]. right. reflexivity. }
  destruct (find _ (timings this)) as [timing|].
  2:{ intros H; inversion H; subst. right. eexists. split; [reflexivity|]. right. reflexivity. }
  destruct (fetchEventOdds this _ _ _) as [oddsData|e].
  2:{ intros H; inversion H; subst. right. eexists. split; [reflexivity|]. right. reflexivity. }
  cbn [clock set_jobs]. rewrite put_with_retry.
  destruct ((1 <=? maxRetries this) && negb (put_fails this _)).
  2:{ intros H; inversion H; subst. right. eexists. split; [reflexivity|]. right. reflexivity. }
  destruct (update_rejected this (id job) completed).
  { intros H; inversion H; subst. right. eexists. split; [reflexivity|]. right. reflexivity. }
  cbn [clock set_jobs set_bucket jobs].
  intros H; inversion H; subst. left. split; [reflexivity|].
  eexists. cbv beta. destruct (dict_get _ _); reflexivity.
Qed.


Lemma append_not_empty (a : string) (c : ascii) (b : string) :
  a +:+ String c b <> ""%string.
Proof. destruct a; discriminate. Qed.

Lemma or_null_path leagueId season timing date homeTeam awayTeam eventId :
  or_null (Some (PathUtils.generateSnapshotPath leagueId season timing date
                   homeTeam awayTeam eventId))
  = Some (PathUtils.generateSnapshotPath leagueId season timing date
            homeTeam awayTeam eventId).
Proof.
  unfold PathUtils.generateSnapshotPath.
  pose proof (append_not_empty leagueId "/"
                (season +:+ "/snapshots/" +:+ timing +:+ "/" +:+ date +:+ "/"
                 +:+ PathUtils.formatTeamNameForPath homeTeam +:+ "_vs_"
                 +:+ PathUtils.formatTeamNameForPath awayTeam +:+ "_"
                 +:+ slice0 7 eventId +:+ ".json")) as Hne.
  change (leagueId +:+ String "/"
            (season +:+ "/snapshots/" +:+ timing +:+ "/" +:+ date +:+ "/"
             +:+ PathUtils.formatTeamNameForPath homeTeam +:+ "_vs_"
             +:+ PathUtils.formatTeamNameForPath awayTeam +:+ "_"
             +:+ slice0 7 eventId +:+ ".json"))
    with (leagueId +:+ "/" +:+ season +:+ "/snapshots/" +:+ timing +:+ "/"
          +:+ date +:+ "/" +:+ PathUtils.formatTeamNameForPath homeTeam
          +:+ "_vs_" +:+ PathUtils.formatTeamNameForPath awayTeam +:+ "_"
          +:+ slice0 7 eventId +:+ ".json") in Hne.
  unfold or_null.
  destruct (leagueId +:+ "/" +:+ season +:+ "/snapshots/" +:+ timing +:+ "/"
            +:+ date +:+ "/" +:+ PathUtils.formatTeamNameForPath homeTeam
            +:+ "_vs_" +:+ PathUtils.formatTeamNameForPath awayTeam +:+ "_"
            +:+ slice0 7 eventId +:+ ".json"); [congruence | reflexivity].
Qed.

(** Where a successful attempt stores the snapshot, and what it records on
    the row: the store's flat key on one side, the nested path of
    [generateSnapshotPath] on the other. *)
Lemma attempt_job_paths job w w' :
  attempt_job this job w = (Ok tt, w') ->
  let season :=
    PathUtils.inferSeasonFromDate (timezone this) (matchDate job) in
  exists snapshot,
    dict_get
      (R2Storage.getKey (basePath this)
         ["leagues"%string; leagueId job; season;
          (odds_id (odds snapshot) +:+ "_" +:+ timingOffset job +:+ "_"
           +:+ matchDate job) +:+ ".json"])
      (bucket w') = Some (SnapshotObject snapshot) /\
    forall row,
      In row (jobs w') -> id row = id job ->
      status row = completed /\
      snapshotPath row
      = Some (PathUtils.generateSnapshotPath (leagueId job) season
                (timingOffset job) (matchDate job) (homeTeam job)
                (awayTeam job) (eventId job)).
Proof.
  cbn zeta.
  unfold attempt_job, bind, updateJobStatus, throw, modify, lift_result, now,
    gets, ret, R2Storage.saveSnapshot, update_metrics, delay.
  destruct (update_rejected this (id job) running); [discriminate|].
  destruct (dict_get (leagueId job) (leagues this)) as [league|];
    [|discriminate].
  destruct (find _ (timings this)) as [timing|]; [|discriminate].
  destruct (fetchEventOdds this _ _ _) as [oddsData|e]; [|discriminate].
  cbn [clock set_jobs]. rewrite put_with_retry.
  destruct ((1 <=? maxRetries this) && negb (put_fails this _));
    [|discriminate].
  destruct (update_rejected this (id job) completed); [discriminate|].
  cbn [clock set_jobs set_bucket jobs bucket].
  rewrite or_null_path.
  intros H. inversion H as [Hw]. clear H.
  eexists. split.
  - cbv beta. destruct (dict_get _ (if dict_has _ _ then _ else _));
      cbn [bucket set_clock set_metricsMap]; apply dict_get_set_eq.
  - intros row Hrow Hid.
    assert (Hjobs : In row
              (update_status (clock w) (id job) completed
                 (Some (PathUtils.generateSnapshotPath (leagueId job)
                          (PathUtils.inferSeasonFromDate (timezone this)
                             (matchDate job))
                          (timingOffset job) (matchDate job) (homeTeam job)
                          (awayTeam job) (eventId job)))
                 (or_null None)
                 (update_status (clock w) (id job) running (or_null None)
                    (or_null None) (jobs w)))).
    { revert Hrow. cbv beta.
      destruct (dict_get _ (if dict_has _ _ then _ else _)); exact (fun H => H). }
    unfold update_status at 1 in Hjobs. apply in_map_iff in Hjobs.
    destruct Hjobs as [row0 [Hrow0 _]]. unfold has_id in Hrow0.
    destruct (String.eqb_spec (id row0) (id job)) as [Heq|Hne].
    + subst row. split; reflexivity.
    + subst row. contradiction.
Qed.

Lemma update_status_rewrites t i st sp e :
  exists g,
    (forall table, update_status t i st sp e table = map g table) /\
    rewrites_only [i] g /\
    (forall row, id row = i -> status (g row) = st).
Proof.
  exists (fun row => if has_id i row then set_status t st sp e row else row).
  split; [reflexivity|]. split.
  - intros row. unfold has_id.
    destruct (String.eqb_spec (id row) i) as [Heq|Hne].
    + split; [reflexivity|]. intros Hno. exfalso. apply Hno. left. congruence.
    + split; reflexivity.
  - intros row Hid. unfold has_id. rewrite <- Hid, String.eqb_refl. reflexivity.
Qed.

Lemma rewrites_only_id listed : rewrites_only listed (fun row => row).
Proof. intros row. split; reflexivity. Qed.

Lemma rewrites_only_compose l1 l2 listed g1 g2 :
  rewrites_only l1 g1 -> rewrites_only l2 g2 ->
  (forall i, In i l1 -> In i listed) -> (forall i, In i l2 -> In i listed) ->
  rewrites_only listed (fun row => g2 (g1 row)).
Proof.
  intros H1 H2 Hl1 Hl2 row.
  destruct (H1 row) as [Hid1 Hsame1]. destruct (H2 (g1 row)) as [Hid2 Hsame2].
  split; [congruence|]. intros Hno.
  rewrite Hsame2, Hsame1; auto.
  rewrite Hid1. auto.
Qed.

Lemma job_failed_jobs job e w :
  update_rejected this (id job) failed = false ->
  exists w',
    job_failed this job e w = (Ok tt, w') /\
    jobs w'
    = update_status (clock w) (id job) failed None (or_null (Some e)) (jobs w).
Proof.
  intros Hacc.
  unfold job_failed, bind, log_error, updateJobStatus, throw, modify,
    update_metrics, now, gets, delay.
  rewrite Hacc. cbn [clock jobs set_jobs].
  eexists. split; [reflexivity|].
  cbv beta. destruct (dict_get _ _); reflexivity.
Qed.

(** One turn of the execution loop, when the store accepts the update that
    marks a job failed: the turn ends normally, and it has rewritten the
    rows of this job, and only them, into a terminal status. *)
Lemma execute_job_effect job w :
  update_rejected this (id job) failed = false ->
  exists w' g,
    execute_job this job w = (Ok tt, w') /\
    jobs w' = map g (jobs w) /\
    rewrites_only [id job] g /\
    (forall row, id row = id job -> is_terminal (status (g row)) = true).
Proof.
  intros Hacc. unfold execute_job, try_catch.
  destruct (attempt_job this job w) as [r w1] eqn:Hattempt.
  destruct (update_status_rewrites (clock w) (id job) running None None)
    as [g1 [Hg1 [Honly1 _]]].
  destruct (attempt_job_jobs _ _ _ _ Hattempt)
    as [[-> [p Hjobs]] | [e [-> Hjobs]]].
  - destruct (update_status_rewrites (clock w) (id job) completed p None)
      as [g2 [Hg2 [Honly2 Hst2]]].
    exists w1, (fun row => g2 (g1 row)). split; [reflexivity|].
    split; [rewrite Hjobs, Hg1, Hg2, map_map; reflexivity|].
    split; [eapply rewrites_only_compose; eauto|].
    intros row Hid. rewrite Hst2; [reflexivity|].
    destruct (Honly1 row) as [Hid1 _]. congruence.
  - destruct (job_failed_jobs job e w1 Hacc) as [w2 [Hrun Hjobs2]].
    destruct (update_status_rewrites (clock w1) (id job) failed None
                (or_null (Some e))) as [g2 [Hg2 [Honly2 Hst2]]].
    destruct Hjobs as [Hjobs | Hjobs].
    + exists w2, g2. split; [exact Hrun|].
      split; [rewrite Hjobs2, Hjobs, Hg2; reflexivity|].
      split; [exact Honly2|].
      intros row Hid. rewrite Hst2; [reflexivity | exact Hid].
    + exists w2, (fun row => g2 (g1 row)). split; [exact Hrun|].
      split; [rewrite Hjobs2, Hjobs, Hg1, Hg2, map_map; reflexivity|].
      split; [eapply rewrites_only_compose; eauto|].
      intros row Hid. rewrite Hst2; [reflexivity|].
      destruct (Honly1 row) as [Hid1 _]. congruence.
Qed.

Lemma execute_loop_effect dueJobs :
  (forall jobId, update_rejected this jobId failed = false) ->
  forall w,
  exists w' g,
    for_of dueJobs (execute_job this) w = (Ok tt, w') /\
    jobs w' = map g (jobs w) /\
    rewrites_only (map id dueJobs) g /\
    (forall row, In (id row) (map id dueJobs) ->
       is_terminal (status (g row)) = true).
Proof.
  intros Hacc. induction dueJobs as [|job rest IH]; intros w.
  - exists w, (fun row => row). split; [reflexivity|].
    split; [rewrite map_id; reflexivity|].
    split; [apply rewrites_only_id|]. intros row [].
  - destruct (execute_job_effect job w (Hacc _)) as [w1 [g1 [Hrun1 [Hjobs1 [Hon1 Hst1]]]]].
    destruct (IH w1) as [w2 [g2 [Hrun2 [Hjobs2 [Hon2 Hst2]]]]].
    exists w2, (fun row => g2 (g1 row)).
    split; [cbn [for_of]; unfold bind; rewrite Hrun1; exact Hrun2|].
    split; [rewrite Hjobs2, Hjobs1, map_map; reflexivity|].
    split.
    { eapply rewrites_only_compose; eauto.
      - intros i [<-|[]]. left. reflexivity.
      - intros i Hi. right. exact Hi. }
    intros row Hin. destruct (Hon1 row) as [Hid1 _].
    destruct (in_dec string_dec (id row) (map id rest)) as [Hrest|Hrest].
    + apply Hst2. rewrite Hid1. exact Hrest.
    + destruct (Hon2 (g1 row)) as [_ Hsame]. rewrite Hsame.
      * apply Hst1. destruct Hin as [Heq|Hin]; [congruence | contradiction].
      * rewrite Hid1. exact Hrest.
Qed.

Lemma record_loop_jobs (l : list CollectionMetrics) w :
  exists w',
    for_of l recordMetrics w = (Ok tt, w') /\
    jobs w' = jobs w.
Proof.
  revert w. induction l as [|m l IH]; intros w.
  - exists w. split; reflexivity.
  - cbn [for_of]. unfold bind, recordMetrics at 1, modify.
    destruct (IH (set_metricsRows (metricsRows w ++ [m]) w)) as [w' [Hrun Hjobs]].
    exists w'. split; [exact Hrun | exact Hjobs].
Qed.


End Execution.


(** C5 at a concrete run: the closing job executes successfully, its
    snapshot is stored under the flat key of the layout, and the row
    records a path of the older nested scheme under which nothing is
    stored. *)
Lemma executeJobs_records_unsaved_path :
  let run :=
    OddsCollector.executeJobs (Scenario.collector Scenario.accepts_all)
      Scenario.closing_due in
  fst run = Ok tt /\
  dict_keys (bucket (snd run))
  = ["odds_data_v2/leagues/england_premier_league/2025-2026/a1b2c3d4e5f6_closing_2025-12-01.json"%string] /\
  option_map status (JobScheduler.select_by_id "a1b2c3d4e5f6_closing" (jobs (snd run)))
  = Some completed /\
  option_map snapshotPath
    (JobScheduler.select_by_id "a1b2c3d4e5f6_closing" (jobs (snd run)))
  = Some (Some "england_premier_league/2025-2026/snapshots/closing/2025-12-01/Arsenal_vs_Chelsea_a1b2c3d.json"%string) /\
  dict_get "england_premier_league/2025-2026/snapshots/closing/2025-12-01/Arsenal_vs_Chelsea_a1b2c3d.json"
    (bucket (snd run)) = None.
Proof. vm_compute. repeat split. Qed.

(** ** Index maintenance *)

Section Indexes.

Import R2Storage IndexBuilder.

Lemma upsert_other matches snapshot k :
  descriptor_key snapshot <> k ->
  dict_get k (upsert matches snapshot) = dict_get k matches.
Proof.
  intros Hne. unfold upsert. fold (descriptor_key snapshot).
  set (key := descriptor_key snapshot) in *.
  assert (Hk : k <> key) by congruence.
  unfold dict_has. destruct (dict_get key matches) as [entry|] eqn:Hget.
  - rewrite Hget. apply dict_get_set_ne. exact Hk.
  - rewrite dict_get_set_eq. rewrite !dict_get_set_ne by exact Hk.
    reflexivity.
Qed.

Lemma fold_upsert_other snapshots matches k :
  (forall snapshot, In snapshot snapshots -> descriptor_key snapshot <> k) ->
  dict_get k (fold_left upsert snapshots matches) = dict_get k matches.
Proof.
  revert matches. induction snapshots as [|snapshot rest IH];
    intros matches Hnot; [reflexivity|].
  cbn [fold_left]. rewrite IH.
  - apply upsert_other. apply Hnot. left. reflexivity.
  - intros s Hs. apply Hnot. right. exact Hs.
Qed.

(** C8: on a stored match index, when the bucket accepts the write, the
    saved index holds every entry whose match key no descriptor of the
    batch mentions exactly as it was, keeps version, league and season,
    and carries the current time as [lastUpdated]; no other key of the
    bucket changes. *)
Theorem updateMatchIndex_incremental (basePath : string)
    (put_fails : string -> bool) (leagueId season : string)
    (batch : list SnapshotDescriptor) (w : World) (index : MatchIndex) :
  let key := indexKey basePath leagueId season "by_match" in
  dict_get key (bucket w) = Some (MatchIndexObject index) ->
  put_fails key = false ->
  exists w' saved,
    updateMatchIndex basePath put_fails leagueId season batch w = (Ok tt, w') /\
    dict_get key (bucket w') = Some (MatchIndexObject saved) /\
    (forall matchKey,
       (forall snapshot, In snapshot batch -> descriptor_key snapshot <> matchKey) ->
       dict_get matchKey (matches saved) = dict_get matchKey (matches index)) /\
    version saved = version index /\
    index_leagueId saved = index_leagueId index /\
    index_season saved = index_season index /\
    lastUpdated saved = JsDate.toISOString (clock w) /\
    (forall other, other <> key ->
       dict_get other (bucket w') = dict_get other (bucket w)).
Proof.
  intros key Hstored Hput.
  unfold updateMatchIndex, bind, getIndex, now, gets, saveIndex.
  cbv zeta. rewrite put_with_retry. fold key. rewrite Hstored, Hput.
  cbn [clock andb negb]. change (1 <=? default_maxRetries) with true.
  cbv iota.
  eexists. eexists. split; [reflexivity|].
  cbn [bucket set_bucket]. split; [apply dict_get_set_eq|].
  cbn [matches version index_leagueId index_season lastUpdated].
  split; [intros matchKey Hnot; apply fold_upsert_other; exact Hnot|].
  repeat split. intros other Hne. apply dict_get_set_ne. exact Hne.
Qed.


Lemma append_inv_head (s a b : string) : s +:+ a = s +:+ b -> a = b.
Proof.
  induction s as [|c s IH]; cbn; [tauto|].
  intros H. inversion H. auto.
Qed.

Lemma join_last_inj (sep : string) (parts : list string) (x y : string) :
  join sep (parts ++ [x]) = join sep (parts ++ [y]) -> x = y.
Proof.
  induction parts as [|p parts IH]; cbn [app join]; [tauto|].
  destruct parts as [|q parts]; cbn [app] in *.
  - intros H. apply append_inv_head, append_inv_head in H. exact H.
  - intros H. apply append_inv_head, append_inv_head in H. auto.
Qed.

Lemma truthy_json (indexType : string) :
  truthy (indexType +:+ ".json") = true.
Proof. destruct indexType; reflexivity. Qed.

(** Index keys of one league and season differ when the index types do. *)
Lemma indexKey_inj basePath leagueId season a b :
  indexKey basePath leagueId season a = indexKey basePath leagueId season b ->
  a +:+ ".json" = b +:+ ".json".
Proof.
  unfold indexKey, getKey.
  set (pre := ["leagues"%string; leagueId; season]).
  assert (Hshape : forall t,
            List.filter truthy
              (if truthy basePath
               then basePath :: ["leagues"%string; leagueId; season; t +:+ ".json"]
               else ["leagues"%string; leagueId; season; t +:+ ".json"])
            = List.filter truthy
                (if truthy basePath then basePath :: pre else pre)
              ++ [t +:+ ".json"]).
  { intros t.
    replace (if truthy basePath
             then basePath :: ["leagues"%string; leagueId; season; t +:+ ".json"]
             else ["leagues"%string; leagueId; season; t +:+ ".json"])
      with ((if truthy basePath then basePath :: pre else pre) ++ [t +:+ ".json"])
      by (destruct (truthy basePath); reflexivity).
    rewrite List.filter_app. cbn [List.filter]. rewrite truthy_json.
    reflexivity. }
  rewrite !Hshape. apply join_last_inj.
Qed.

Lemma by_match_not_by_date basePath leagueId season :
  indexKey basePath leagueId season "by_match"
  <> indexKey basePath leagueId season "by_date".
Proof. intros H. apply indexKey_inj in H. discriminate. Qed.

Lemma by_match_not_by_team basePath leagueId season :
  indexKey basePath leagueId season "by_match"
  <> indexKey basePath leagueId season "by_team".
Proof. intros H. apply indexKey_inj in H. discriminate. Qed.

Lemma by_date_not_by_team basePath leagueId season :
  indexKey basePath leagueId season "by_date"
  <> indexKey basePath leagueId season "by_team".
Proof. intros H. apply indexKey_inj in H. discriminate. Qed.

Lemma blank_stamp_date matchIndex leagueId season t1 t2 :
  blank_stamp (DateIndexObject (date_index_of matchIndex leagueId season t1))
  = blank_stamp (DateIndexObject (date_index_of matchIndex leagueId season t2)).
Proof. reflexivity. Qed.

Lemma blank_stamp_team matchIndex leagueId season t1 t2 :
  blank_stamp (TeamIndexObject (team_index_of matchIndex leagueId season t1))
  = blank_stamp (TeamIndexObject (team_index_of matchIndex leagueId season t2)).
Proof. reflexivity. Qed.

Lemma buildAllIndexes_bucket basePath put_fails leagueId season w :
  let w' := snd (buildAllIndexes basePath put_fails leagueId season w) in
  bucket w' = built_bucket basePath put_fails leagueId season (clock w) (bucket w).
Proof.
  cbn zeta.
  unfold buildAllIndexes, buildDateIndex, buildTeamIndex, bind, getIndex, now,
    gets, saveIndex, ret, built_bucket.
  cbv zeta.
  pose proof (by_match_not_by_date basePath leagueId season) as Hmd.
  set (km := indexKey basePath leagueId season "by_match") in *.
  set (kd := indexKey basePath leagueId season "by_date") in *.
  set (kt := indexKey basePath leagueId season "by_team") in *.
  destruct (dict_get km (bucket w)) as [[snapshot|matchIndex|di|ti]|] eqn:Hget;
    try (cbn; rewrite Hget; reflexivity).
  rewrite put_with_retry. change (1 <=? default_maxRetries) with true.
  cbn [andb].
  destruct (put_fails kd); cbn [negb]; [reflexivity|].
  cbn [bucket set_bucket clock snd].
  rewrite dict_get_set_ne by exact Hmd. rewrite Hget.
  rewrite put_with_retry. change (1 <=? default_maxRetries) with true.
  cbn [andb].
  destruct (put_fails kt); reflexivity.
Qed.


Lemma rebuilt_entry basePath put_fails leagueId season t1 t2 b key :
  key = indexKey basePath leagueId season "by_date" \/
  key = indexKey basePath leagueId season "by_team" ->
  let b1 := built_bucket basePath put_fails leagueId season t1 b in
  let b2 := built_bucket basePath put_fails leagueId season t2 b1 in
  option_map blank_stamp (dict_get key b2)
  = option_map blank_stamp (dict_get key b1) /\
  (t2 = t1 -> dict_get key b2 = dict_get key b1).
Proof.
  intros Hkey. cbn zeta. unfold built_bucket.
  pose proof (by_match_not_by_date basePath leagueId season) as Hmd.
  pose proof (by_match_not_by_team basePath leagueId season) as Hmt.
  pose proof (by_date_not_by_team basePath leagueId season) as Hdt.
  set (km := indexKey basePath leagueId season "by_match") in *.
  set (kd := indexKey basePath leagueId season "by_date") in *.
  set (kt := indexKey basePath leagueId season "by_team") in *.
  destruct (dict_get km b) as [[snapshot|matchIndex|di|ti]|] eqn:Hget;
    cbv iota; try (rewrite Hget; split; reflexivity).
  destruct (put_fails kd) eqn:Hpd; cbv iota.
  { rewrite Hget. split; reflexivity. }
  destruct (put_fails kt) eqn:Hpt; cbv iota zeta.
  - rewrite (dict_get_set_ne kd km) by exact Hmd. rewrite Hget.
    destruct Hkey as [-> | ->].
    + rewrite !dict_get_set_eq. split; [reflexivity | intros ->; reflexivity].
    + rewrite !(dict_get_set_ne kd kt) by congruence. split; reflexivity.
  - rewrite (dict_get_set_ne kt km), (dict_get_set_ne kd km), Hget
      by assumption.
    destruct Hkey as [-> | ->].
    + rewrite !(dict_get_set_ne kt kd), !dict_get_set_eq by exact Hdt.
      split; [reflexivity | intros ->; reflexivity].
    + rewrite !dict_get_set_eq. split; [reflexivity | intros ->; reflexivity].
Qed.

(** C6, as the code has it: a second [buildAllIndexes] over an unchanged
    match index, at any time, leaves under [by_date] and under [by_team]
    artifacts that equal those of the first run in everything but the
    [lastUpdated] stamp, and equal them outright when the clock reads the
    same. *)
Theorem buildAllIndexes_rebuild (basePath : string)
    (put_fails : string -> bool) (leagueId season : string) (w : World)
    (later : instant) :
  let first := snd (buildAllIndexes basePath put_fails leagueId season w) in
  let second :=
    snd (buildAllIndexes basePath put_fails leagueId season
           (set_clock later first)) in
  let by_date := indexKey basePath leagueId season "by_date" in
  let by_team := indexKey basePath leagueId season "by_team" in
  option_map blank_stamp (dict_get by_date (bucket second))
  = option_map blank_stamp (dict_get by_date (bucket first)) /\
  option_map blank_stamp (dict_get by_team (bucket second))
  = option_map blank_stamp (dict_get by_team (bucket first)) /\
  (later = clock w ->
   dict_get by_date (bucket second) = dict_get by_date (bucket first) /\
   dict_get by_team (bucket second) = dict_get by_team (bucket first)).
Proof.
  cbn zeta.
  pose proof (buildAllIndexes_bucket basePath put_fails leagueId season w)
    as Hfirst.
  pose proof (buildAllIndexes_bucket basePath put_fails leagueId season
                (set_clock later
                   (snd (buildAllIndexes basePath put_fails leagueId season w))))
    as Hsecond.
  cbn zeta in Hfirst, Hsecond.
  cbn [bucket clock set_clock] in Hsecond. rewrite Hsecond, Hfirst.
  destruct (rebuilt_entry basePath put_fails leagueId season (clock w) later
              (bucket w) (indexKey basePath leagueId season "by_date"))
    as [Hd Hd']; [left; reflexivity|].
  destruct (rebuilt_entry basePath put_fails leagueId season (clock w) later
              (bucket w) (indexKey basePath leagueId season "by_team"))
    as [Ht Ht']; [right; reflexivity|].
  cbn zeta in *. split; [exact Hd|]. split; [exact Ht|].
  intros Hsame. split; [exact (Hd' Hsame) | exact (Ht' Hsame)].
Qed.

End Indexes.

(** C6, as stated, fails: rebuilding fifteen minutes later, with the match
    index untouched, stores a different [by_date] artifact. *)
Lemma rebuild_restamps_date_index :
  bucket (set_clock 1764000900000
            (snd (IndexBuilder.buildAllIndexes "odds_data_v2"
                    Scenario.never_fails "england_premier_league" "2025-2026"
                    Scenario.indexed)))
  = bucket (snd (IndexBuilder.buildAllIndexes "odds_data_v2"
                   Scenario.never_fails "england_premier_league" "2025-2026"
                   Scenario.indexed)) /\
  dict_get "odds_data_v2/leagues/england_premier_league/2025-2026/by_date.json"
    (bucket (snd (IndexBuilder.buildAllIndexes "odds_data_v2"
                    Scenario.never_fails "england_premier_league" "2025-2026"
                    (set_clock 1764000900000
                       (snd (IndexBuilder.buildAllIndexes "odds_data_v2"
                               Scenario.never_fails "england_premier_league"
                               "2025-2026" Scenario.indexed))))))
  <> dict_get "odds_data_v2/leagues/england_premier_league/2025-2026/by_date.json"
       (bucket (snd (IndexBuilder.buildAllIndexes "odds_data_v2"
                       Scenario.never_fails "england_premier_league"
                       "2025-2026" Scenario.indexed))).
Proof. split; [reflexivity|]. vm_compute. intros H. discriminate H. Qed.

(** ** Season inference *)

Section Season.

Import JsDate PathUtils.

Lemma all_below_spec n p :
  all_below n p = true -> forall k, 0 <= k < Z.of_nat n -> p k = true.
Proof.
  induction n as [|n IH]; intros Hall k Hk; [lia|].
  cbn [all_below] in Hall. apply andb_prop in Hall. destruct Hall as [Hn Hrest].
  destruct (Z.eq_dec k (Z.of_nat n)) as [->|Hne]; [exact Hn|].
  apply IH; [exact Hrest | lia].
Qed.

(** The finite check: every month of one era, by computation. *)
Lemma era_months_ok :
  all_below 400 (fun yoe =>
    all_below 12 (fun m0 => era_month_ok yoe (m0 + 1))) = true.
Proof. vm_compute. reflexivity. Qed.

Lemma era_month_ok_true yoe m :
  0 <= yoe < 400 -> 1 <= m <= 12 -> era_month_ok yoe m = true.
Proof.
  intros Hyoe Hm.
  assert (H400 : 0 <= yoe < Z.of_nat 400)
    by (change (Z.of_nat 400) with 400; lia).
  assert (H12 : 0 <= m - 1 < Z.of_nat 12)
    by (change (Z.of_nat 12) with 12; lia).
  pose proof (all_below_spec _ _ era_months_ok yoe H400) as Hy.
  pose proof (all_below_spec _ _ Hy (m - 1) H12) as Hmm.
  cbv beta in Hmm.
  replace (m - 1 + 1) with m in Hmm by lia. exact Hmm.
Qed.

Lemma civil_of_doe_parts (doe : Z) :
  civil_of_doe doe
  = (yoe_of doe,
     (if mp_of doe <? 10 then mp_of doe + 3 else mp_of doe - 9),
     doy_of doe - (153 * mp_of doe + 2) / 5 + 1).
Proof. reflexivity. Qed.

Lemma div_between (lo x hi c q : Z) :
  0 < c -> lo <= x <= hi -> lo / c = q -> hi / c = q -> x / c = q.
Proof.
  intros Hc Hx Hlo Hhi.
  pose proof (Z.div_le_mono lo x c Hc ltac:(lia)).
  pose proof (Z.div_le_mono x hi c Hc ltac:(lia)). lia.
Qed.

(** Between two days of the era that convert into the same year and the
    same month, every day does. *)
Lemma yoe_of_between (lo x hi yoe : Z) :
  0 <= lo <= x -> x <= hi < 146097 ->
  yoe_of lo = yoe -> yoe_of hi = yoe -> yoe_of x = yoe.
Proof.
  intros Hlo Hhi. unfold yoe_of. apply div_between; [lia|].
  split; Z.div_mod_to_equations; lia.
Qed.

Lemma mp_of_between (lo x hi yoe mp : Z) :
  0 <= lo <= x -> x <= hi < 146097 ->
  yoe_of lo = yoe -> yoe_of hi = yoe ->
  mp_of lo = mp -> mp_of hi = mp ->
  mp_of x = mp /\ doy_of x = doy_of lo + (x - lo).
Proof.
  intros Hlo Hhi Hylo Hyhi.
  pose proof (yoe_of_between lo x hi yoe Hlo Hhi Hylo Hyhi) as Hyx.
  unfold mp_of, doy_of. rewrite Hylo, Hyhi, Hyx. intros Hmlo Hmhi.
  split; [|lia]. revert Hmlo Hmhi. apply div_between; lia.
Qed.

Lemma doe_of_day (yoe m d : Z) : doe_of yoe m d = doe_of yoe m 1 + (d - 1).
Proof. unfold doe_of. lia. Qed.

(** The facts of the check, for every day of the month: the day of the
    era is in range and converts back to the date; the day before it, when
    the era has one, has the expected month and year. *)
Lemma era_date_facts (yoe m d : Z) :
  0 <= yoe < 400 -> 1 <= m <= 12 ->
  1 <= d <= days_in_month (yoe + year_shift m) m ->
  let doe := doe_of yoe m d in
  0 <= doe < 146097 /\
  civil_of_doe doe = (yoe, m, d) /\
  (doe = 0 -> yoe = 0 /\ m = 3 /\ d = 1) /\
  (doe <> 0 ->
   exists yoe' m' d',
     civil_of_doe (doe - 1) = (yoe', m', d') /\
     m' = (if d =? 1 then previous_month m else m) /\
     yoe' + year_shift m'
     = yoe + year_shift m - (if (d =? 1) && (m =? 1) then 1 else 0)).
Proof.
  intros Hyoe Hm Hd. cbn zeta.
  pose proof (era_month_ok_true yoe m Hyoe Hm) as Hok.
  unfold era_month_ok in Hok. cbv zeta in Hok.
  set (lo := doe_of yoe m 1) in *.
  set (L := days_in_month (yoe + year_shift m) m) in *.
  set (mp := (m + 9) mod 12) in *.
  rewrite !andb_true_iff in Hok.
  destruct Hok as [[[[[[[[Hlo Hhi] Hylo] Hyhi] Hmlo] Hmhi] Hdlo] Hmonth] Hprev].
  apply Z.leb_le in Hlo. apply Z.ltb_lt in Hhi.
  apply Z.eqb_eq in Hylo, Hyhi, Hmlo, Hmhi, Hdlo, Hmonth.
  rewrite (doe_of_day yoe m d). fold lo.
  assert (Hin : forall x, lo <= x -> x <= lo + L - 1 ->
                          civil_of_doe x = (yoe, m, 1 + (x - lo))).
  { intros x Hx1 Hx2.
    destruct (mp_of_between lo x (lo + L - 1) yoe mp) as [Hmp Hdoy];
      try assumption; try lia.
    rewrite civil_of_doe_parts, Hmp, Hdoy.
    rewrite (yoe_of_between lo x (lo + L - 1) yoe) by (assumption || lia).
    f_equal; [f_equal; assumption | lia]. }
  split; [lia|]. split.
  { rewrite Hin by lia. f_equal. lia. }
  split.
  { intros Hzero. destruct (Z.eqb_spec lo 0) as [Hlo0|Hlo0]; [|lia].
    apply andb_prop in Hprev. destruct Hprev as [H0 H3].
    apply Z.eqb_eq in H0, H3. lia. }
  intros Hpos. destruct (Z.eqb_spec d 1) as [Hd1|Hd1].
  - subst d. replace (lo + (1 - 1) - 1) with (lo - 1) by lia.
    destruct (Z.eqb_spec lo 0) as [Hlo0|Hlo0]; [lia|].
    destruct (civil_of_doe (lo - 1)) as [[yoe' m'] d'].
    apply andb_prop in Hprev. destruct Hprev as [Hm' Hyoe'].
    apply Z.eqb_eq in Hm', Hyoe'.
    exists yoe', m', d'. split; [reflexivity|]. split; [exact Hm'|].
    cbn [andb]. exact Hyoe'.
  - exists yoe, m, (d - 1). rewrite Hin by lia.
    split; [f_equal; lia|]. split; [reflexivity|]. cbn [andb]. lia.
Qed.

Lemma is_leap_era (era r : Z) : is_leap (era * 400 + r) = is_leap r.
Proof.
  unfold is_leap.
  replace ((era * 400 + r) mod 4) with (r mod 4)
    by (Z.div_mod_to_equations; lia).
  replace ((era * 400 + r) mod 100) with (r mod 100)
    by (Z.div_mod_to_equations; lia).
  replace ((era * 400 + r) mod 400) with (r mod 400)
    by (Z.div_mod_to_equations; lia).
  reflexivity.
Qed.

Lemma days_in_month_era (era r m : Z) :
  days_in_month (era * 400 + r) m = days_in_month r m.
Proof. unfold days_in_month. rewrite is_leap_era. reflexivity. Qed.

(** A day of the era converts back through the era it was placed in. *)
Lemma civil_from_days_era (era doe : Z) :
  0 <= doe < 146097 ->
  civil_from_days (era * 146097 + doe - 719468)
  = let '(yoe, m, d) := civil_of_doe doe in
    (yoe + era * 400 + year_shift m, m, d).
Proof.
  intros Hdoe. unfold civil_from_days.
  replace (era * 146097 + doe - 719468 + 719468) with (doe + era * 146097)
    by lia.
  rewrite Z_mod_plus_full, Z_div_plus_full by lia.
  rewrite Z.mod_small, Z.div_small by lia.
  destruct (civil_of_doe doe) as [[yoe m] d]. reflexivity.
Qed.

(** A date of any year, placed in its era. *)
Lemma era_of_date (y m d : Z) :
  1 <= m <= 12 -> 1 <= d <= days_in_month y m ->
  let era := (y - year_shift m) / 400 in
  let yoe := (y - year_shift m) mod 400 in
  days_from_civil y m d = era * 146097 + doe_of yoe m d - 719468 /\
  y = era * 400 + yoe + year_shift m /\
  0 <= yoe < 400 /\
  1 <= d <= days_in_month (yoe + year_shift m) m.
Proof.
  intros Hm Hd. cbn zeta.
  assert (Hy : (if m <=? 2 then y - 1 else y) = y - year_shift m).
  { unfold year_shift. destruct (m <=? 2); lia. }
  split; [unfold days_from_civil; rewrite Hy; reflexivity|].
  pose proof (Z.div_mod (y - year_shift m) 400 ltac:(lia)) as Hdiv.
  pose proof (Z.mod_pos_bound (y - year_shift m) 400 ltac:(lia)) as Hrange.
  split; [lia|]. split; [exact Hrange|].
  rewrite <- (days_in_month_era ((y - year_shift m) / 400)).
  replace ((y - year_shift m) / 400 * 400
           + ((y - year_shift m) mod 400 + year_shift m)) with y by lia.
  exact Hd.
Qed.

(** The day number of a date converts back to the date. *)
Lemma civil_from_days_of_civil (y m d : Z) :
  1 <= m <= 12 -> 1 <= d <= days_in_month y m ->
  civil_from_days (days_from_civil y m d) = (y, m, d).
Proof.
  intros Hm Hd.
  destruct (era_of_date y m d Hm Hd) as [Hdays [Hy [Hyoe Hvalid]]].
  cbn zeta in *.
  destruct (era_date_facts _ m d Hyoe Hm Hvalid) as [Hrange [Hback _]].
  cbn zeta in *. rewrite Hdays, civil_from_days_era, Hback by exact Hrange.
  f_equal. f_equal. lia.
Qed.

(** The day before a date: its month and year. *)
Lemma civil_from_days_before (y m d : Z) :
  1 <= m <= 12 -> 1 <= d <= days_in_month y m ->
  exists d',
    civil_from_days (days_from_civil y m d - 1)
    = (if (d =? 1) && (m =? 1) then y - 1 else y,
       if d =? 1 then previous_month m else m,
       d').
Proof.
  intros Hm Hd.
  destruct (era_of_date y m d Hm Hd) as [Hdays [Hy [Hyoe Hvalid]]].
  cbn zeta in *.
  destruct (era_date_facts _ m d Hyoe Hm Hvalid)
    as [Hrange [_ [Hzero Hpos]]].
  cbn zeta in *. rewrite Hdays.
  set (yoe := (y - year_shift m) mod 400) in *.
  set (era := (y - year_shift m) / 400) in *.
  set (doe := doe_of yoe m d) in *.
  destruct (Z.eq_dec doe 0) as [Hdoe|Hdoe].
  - destruct (Hzero Hdoe) as [Hyoe0 [Hm3 Hd1]].
    replace (era * 146097 + doe - 719468 - 1)
      with ((era - 1) * 146097 + 146096 - 719468) by lia.
    rewrite civil_from_days_era by lia.
    change (civil_of_doe 146096) with (399, 2, 29).
    cbv iota. change (year_shift 2) with 1.
    rewrite Hm3, Hd1 in *. change ((1 =? 1) && (3 =? 1)) with false.
    change (1 =? 1) with true. change (previous_month 3) with 2.
    change (year_shift 3) with 0 in Hy. cbv iota.
    eexists. f_equal. f_equal. lia.
  - destruct (Hpos Hdoe) as [yoe' [m' [d' [Hprev [Hm' Hyoe']]]]].
    replace (era * 146097 + doe - 719468 - 1)
      with (era * 146097 + (doe - 1) - 719468) by lia.
    rewrite civil_from_days_era, Hprev by lia.
    exists d'. f_equal. f_equal; [|exact Hm'].
    destruct ((d =? 1) && (m =? 1)); lia.
Qed.

Lemma char_digit_digit_char (k : Z) :
  0 <= k <= 9 -> char_digit (digit_char k) = Some k.
Proof.
  intros Hk.
  assert (Hcases : k = 0 \/ k = 1 \/ k = 2 \/ k = 3 \/ k = 4 \/ k = 5 \/
                   k = 6 \/ k = 7 \/ k = 8 \/ k = 9) by lia.
  repeat (destruct Hcases as [->|Hcases]; [reflexivity|]).
  subst k. reflexivity.
Qed.

Lemma read_pad2 (n : Z) (rest : string) :
  0 <= n <= 99 -> read_digits 2 0 (pad 2 n +:+ rest) = Some (n, rest).
Proof.
  intros Hn.
  change (pad 2 n +:+ rest)
    with (String (digit_char ((n / 10) mod 10))
            (String (digit_char (n mod 10)) rest)).
  cbn [read_digits].
  rewrite !char_digit_digit_char by (Z.div_mod_to_equations; lia).
  f_equal. f_equal. Z.div_mod_to_equations. lia.
Qed.

Lemma read_pad4 (n : Z) (rest : string) :
  0 <= n <= 9999 -> read_digits 4 0 (pad 4 n +:+ rest) = Some (n, rest).
Proof.
  intros Hn.
  change (pad 4 n +:+ rest)
    with (String (digit_char ((n / 10 / 10 / 10) mod 10))
            (String (digit_char ((n / 10 / 10) mod 10))
               (String (digit_char ((n / 10) mod 10))
                  (String (digit_char (n mod 10)) rest)))).
  cbn [read_digits].
  rewrite !char_digit_digit_char by (Z.div_mod_to_equations; lia).
  f_equal. f_equal. Z.div_mod_to_equations. lia.
Qed.

Lemma append_empty (s : string) : s +:+ "" = s.
Proof.
  induction s as [|c s IH]; [reflexivity|].
  change (String c s +:+ "") with (String c (s +:+ "")).
  rewrite IH. reflexivity.
Qed.

(** A text that starts with four digits has no sign in front. *)
Lemma read_year_digits (s : string) (r : Z * string) :
  read_digits 4 0 s = Some r -> read_year s = Some r.
Proof.
  intros H. unfold read_year. destruct s as [|c s']; [discriminate H|].
  cbn [read_digits] in H. cbn [expect].
  destruct (Ascii.eqb_spec "+" c) as [<-|_]; [discriminate H|].
  destruct (Ascii.eqb_spec "-" c) as [<-|_]; [discriminate H|].
  cbn [read_digits]. exact H.
Qed.

(** The days of the years 0 to 9999 are days a [Date] can hold. *)
Lemma clip_civil (y m d : Z) :
  0 <= y <= 9999 -> 1 <= m <= 12 -> 1 <= d <= 31 ->
  clip (days_from_civil y m d * msPerDay)
  = Some (days_from_civil y m d * msPerDay).
Proof.
  intros Hy Hm Hd. unfold clip.
  assert (H : -100000000 <= days_from_civil y m d <= 100000000).
  { unfold days_from_civil, doe_of.
    destruct (m <=? 2); Z.to_euclidean_division_equations; lia. }
  destruct (Z.ltb_spec maxTime (Z.abs (days_from_civil y m d * msPerDay)))
    as [Hlt|_]; [|reflexivity].
  unfold maxTime, msPerDay in Hlt. lia.
Qed.

(** A date-only text parses to UTC midnight of its date, in every zone. *)
Lemma parse_isoDate (tz y m d : Z) :
  0 <= y <= 9999 -> 1 <= m <= 12 -> 1 <= d <= 31 ->
  parse tz (isoDate y m d) = Some (days_from_civil y m d * msPerDay).
Proof.
  intros Hy Hm Hd. unfold parse, read_date, isoDate.
  rewrite (read_year_digits _ _ (read_pad4 y _ Hy)). cbn [mbind option_bind].
  change (expect "-" ("-" +:+ pad 2 m +:+ "-" +:+ pad 2 d))
    with (Some (pad 2 m +:+ "-" +:+ pad 2 d)).
  cbv iota beta. rewrite read_pad2 by lia. cbn [mbind option_bind].
  change (expect "-" ("-" +:+ pad 2 d)) with (Some (pad 2 d)).
  cbv iota beta.
  rewrite <- (append_empty (pad 2 d)), read_pad2 by lia.
  cbn [mbind option_bind].
  replace ((1 <=? m) && (m <=? 12) && (1 <=? d) && (d <=? 31)) with true
    by (symmetry; rewrite !andb_true_iff, !Z.leb_le; lia).
  rewrite <- (clip_civil y m d Hy Hm Hd).
  f_equal. f_equal. unfold days_from_civil, doe_of. lia.
Qed.

(** The local calendar day of UTC midnight of day [D]: the same day at or
    east of UTC, the day before west of it. *)
Lemma local_day_east (tz D : Z) :
  0 <= tz < 1440 -> LocalTime tz (D * msPerDay) / msPerDay = D.
Proof.
  intros Htz. unfold LocalTime, msPerDay.
  symmetry. apply (Z.div_unique _ _ D (tz * 60000)); lia.
Qed.

Lemma local_day_west (tz D : Z) :
  -1440 < tz < 0 -> LocalTime tz (D * msPerDay) / msPerDay = D - 1.
Proof.
  intros Htz. unfold LocalTime, msPerDay.
  symmetry. apply (Z.div_unique _ _ (D - 1) (86400000 + tz * 60000)); lia.
Qed.

(** The local year and month [inferSeasonFromDate] reads for a date-only
    text. *)
Lemma local_year_month (tz y m d : Z) :
  -1440 < tz < 1440 ->
  0 <= y <= 9999 -> 1 <= m <= 12 -> 1 <= d <= days_in_month y m ->
  let t := days_from_civil y m d * msPerDay in
  let before := (tz <? 0) && (d =? 1) in
  parse tz (isoDate y m d) = Some t /\
  getFullYear tz t = (if before && (m =? 1) then y - 1 else y) /\
  getMonth tz t + 1 = (if before then previous_month m else m).
Proof.
  intros Htz Hy Hm Hd. cbn zeta.
  assert (Hd31 : 1 <= d <= 31).
  { unfold days_in_month in Hd.
    destruct (m =? 2); [destruct (is_leap y); lia|].
    destruct ((m =? 4) || (m =? 6) || (m =? 9) || (m =? 11)); lia. }
  split; [apply parse_isoDate; assumption|].
  unfold getFullYear, getMonth.
  destruct (Z.ltb_spec tz 0) as [Hwest|Heast].
  - rewrite local_day_west by lia.
    destruct (civil_from_days_before y m d Hm Hd) as [d' ->].
    cbn [andb]. destruct (d =? 1); cbn [andb]; split; lia.
  - rewrite local_day_east by lia.
    rewrite civil_from_days_of_civil by assumption.
    cbn [andb]. split; lia.
Qed.

(** The season of a date-only text in any zone: the convention applied to
    the local year and month, which are those of the date except on the
    first of a month west of UTC. *)
Lemma inferSeasonFromDate_any_zone (tz y m d : Z) :
  -1440 < tz < 1440 ->
  0 <= y <= 9999 -> 1 <= m <= 12 -> 1 <= d <= days_in_month y m ->
  0 <= tz \/ ~ (m = 8 /\ d = 1) ->
  inferSeasonFromDate tz (isoDate y m d) = european_season y m.
Proof.
  intros Htz Hy Hm Hd Hzone.
  destruct (local_year_month tz y m d Htz Hy Hm Hd) as [Hparse [Hyear Hmonth]].
  cbn zeta in *. unfold inferSeasonFromDate, european_season.
  rewrite Hparse, Hyear, Hmonth.
  destruct (Z.ltb_spec tz 0) as [Hwest|Heast]; cbn [andb]; [|reflexivity].
  destruct (Z.eqb_spec d 1) as [Hd1|Hd1]; cbn [andb]; [|reflexivity].
  unfold previous_month.
  destruct (Z.eqb_spec m 1) as [Hm1|Hm1].
  - subst m. cbn. replace (y - 1 + 1) with y by lia. reflexivity.
  - assert (Hsame : (8 <=? m - 1) = (8 <=? m)).
    { destruct (Z.leb_spec 8 (m - 1)), (Z.leb_spec 8 m); try reflexivity; lia. }
    rewrite Hsame. reflexivity.
Qed.

(** The season a date-only text gets west of UTC on the first of August:
    the text is read as the evening of 31 July. *)
Lemma inferSeasonFromDate_first_of_august (tz y : Z) :
  -1440 < tz < 0 -> 0 <= y <= 9999 ->
  inferSeasonFromDate tz (isoDate y 8 1) = european_season y 7.
Proof.
  intros Htz Hy.
  assert (Hd : 1 <= 1 <= days_in_month y 8)
    by (change (days_in_month y 8) with 31; lia).
  destruct (local_year_month tz y 8 1 ltac:(lia) Hy ltac:(lia) Hd)
    as [Hparse [Hyear Hmonth]].
  cbn zeta in *. unfold inferSeasonFromDate, european_season.
  rewrite Hparse, Hyear, Hmonth.
  destruct (Z.ltb_spec tz 0) as [_|Heast]; [|lia]. reflexivity.
Qed.


End Season.


(** ** The theorems at work on the scenario *)

(** C3 on the queued closing job, marked completed with a new path. *)
Lemma updateJobStatus_bookkeeping_witness :
  Scenario.accepts_all "a1b2c3d4e5f6_closing" completed = false /\
  JobScheduler.select_by_id "a1b2c3d4e5f6_closing" (jobs Scenario.queued)
  = Some Scenario.closing_job /\
  exists w' row',
    JobScheduler.updateJobStatus Scenario.accepts_all "a1b2c3d4e5f6_closing"
      completed (Some "a1b2c3d4e5f6_closing_2025-12-01.json"%string) None
      Scenario.queued = (Ok tt, w') /\
    JobScheduler.select_by_id "a1b2c3d4e5f6_closing" (jobs w') = Some row' /\
    attempts row' = attempts Scenario.closing_job + 1 /\
    lastAttempt row' = Some (clock Scenario.queued) /\
    (completed = completed \/ completed = failed ->
     completedAt row' = Some (clock Scenario.queued)) /\
    (completed <> completed /\ completed <> failed ->
     completedAt row' = completedAt Scenario.closing_job) /\
    (Some "a1b2c3d4e5f6_closing_2025-12-01.json"%string = None ->
     snapshotPath row' = snapshotPath Scenario.closing_job) /\
    (forall p, Some "a1b2c3d4e5f6_closing_2025-12-01.json"%string = Some p ->
       p <> ""%string -> snapshotPath row' = Some p).
Proof.
  split; [reflexivity|]. split; [reflexivity|].
  apply updateJobStatus_bookkeeping; reflexivity.
Defined.



(** C8 on the index that holds the Arsenal and the Forest matches, and a
    batch that mentions the Forest match, by the no-break spelling of its
    home side, and a third match: the Arsenal entry is saved as it was. *)
Lemma updateMatchIndex_incremental_witness :
  dict_get
    (R2Storage.indexKey "odds_data_v2" "england_premier_league" "2025-2026"
       "by_match")
    (bucket Cases.forest_indexed)
  = Some (MatchIndexObject Cases.forest_index) /\
  Scenario.never_fails
    (R2Storage.indexKey "odds_data_v2" "england_premier_league" "2025-2026"
       "by_match") = false /\
  exists w' saved,
    IndexBuilder.updateMatchIndex "odds_data_v2" Scenario.never_fails
      "england_premier_league" "2025-2026"
      [Cases.forest_closing_moved; Scenario.everton_fulham_closing]
      Cases.forest_indexed = (Ok tt, w') /\
    dict_get
      (R2Storage.indexKey "odds_data_v2" "england_premier_league" "2025-2026"
         "by_match")
      (bucket w') = Some (MatchIndexObject saved) /\
    dict_get "Arsenal_Chelsea_2025-12-01" (matches saved)
    = Some Scenario.arsenal_chelsea /\
    (forall matchKey,
       (forall snapshot,
          In snapshot
            [Cases.forest_closing_moved; Scenario.everton_fulham_closing] ->
          descriptor_key snapshot <> matchKey) ->
       dict_get matchKey (matches saved)
       = dict_get matchKey (matches Cases.forest_index)) /\
    version saved = version Cases.forest_index /\
    index_leagueId saved = index_leagueId Cases.forest_index /\
    index_season saved = index_season Cases.forest_index /\
    lastUpdated saved = JsDate.toISOString (clock Cases.forest_indexed) /\
    (forall other,
       other <> R2Storage.indexKey "odds_data_v2" "england_premier_league"
                  "2025-2026" "by_match" ->
       dict_get other (bucket w') = dict_get other (bucket Cases.forest_indexed)).
Proof.
  split; [reflexivity|]. split; [reflexivity|].
  destruct (updateMatchIndex_incremental "odds_data_v2" Scenario.never_fails
              "england_premier_league" "2025-2026"
              [Cases.forest_closing_moved; Scenario.everton_fulham_closing]
              Cases.forest_indexed Cases.forest_index eq_refl eq_refl)
    as (w' & saved & H1 & H2 & H3 & H4).
  exists w', saved. split; [exact H1|]. split; [exact H2|].
  split; [|split; [exact H3 | exact H4]].
  rewrite H3; [reflexivity|].
  intros snapshot [<-|[<-|[]]] H; vm_compute in H; discriminate H.
Defined.


(** ** utils/pathUtils: further properties *)

Section Paths.

Import PathUtils.

Lemma replace_spaces_head (c : ascii) (s : string) :
  replace_spaces 0 false (String c s)
  = match space_width (String c s) with
    | O => String c (replace_spaces 0 false s)
    | S skip => String "_" (replace_spaces skip true s)
    end.
Proof. reflexivity. Qed.

Lemma no_break_space_underscore (b0 : Z) : no_break_space b0 95 = false.
Proof. unfold no_break_space. apply andb_false_r. Qed.

Lemma wide_space_underscore_2 (b0 b2 : Z) : wide_space b0 95 b2 = false.
Proof.
  unfold wide_space. change (95 =? 154) with false.
  change (95 =? 128) with false. change (95 =? 129) with false.
  change (95 =? 187) with false.
  rewrite !andb_false_r. reflexivity.
Qed.

Lemma wide_space_underscore_3 (b0 b1 : Z) : wide_space b0 b1 95 = false.
Proof.
  unfold wide_space. change (95 =? 128) with false.
  change (95 =? 159) with false. change (95 =? 191) with false.
  change (95 =? 168) with false. change (95 =? 169) with false.
  change (95 =? 175) with false. change (128 <=? 95) with false.
  rewrite !andb_false_r. reflexivity.
Qed.

Lemma underscore_width (s : string) : space_width (String "_" s) = 0%nat.
Proof. destruct s as [|c1 [|c2 s]]; reflexivity. Qed.

(** A character that is no white space stays none when the text after it
    is rewritten: an underscore completes no white-space character. *)
Lemma width_step (c : ascii) (s : string) :
  space_width (String c s) = 0%nat ->
  space_width (String c (replace_spaces 0 false s)) = 0%nat.
Proof.
  intros H. destruct s as [|c1 s1]; [exact H|].
  rewrite replace_spaces_head.
  assert (Hnarrow : narrow_space (byte c) = false).
  { cbn [space_width] in H. destruct (narrow_space (byte c));
      [discriminate | reflexivity]. }
  destruct (space_width (String c1 s1)) eqn:W1.
  - assert (Hnbsp : no_break_space (byte c) (byte c1) = false).
    { cbn [space_width] in H. rewrite Hnarrow in H.
      destruct (no_break_space (byte c) (byte c1));
        [discriminate | reflexivity]. }
    destruct s1 as [|c2 s2]; [exact H|].
    rewrite replace_spaces_head.
    destruct (space_width (String c2 s2)) eqn:W2; [exact H|].
    cbn [space_width]. rewrite Hnarrow, Hnbsp.
    change (byte "_") with 95. rewrite wide_space_underscore_3. reflexivity.
  - cbn [space_width]. rewrite Hnarrow. change (byte "_") with 95.
    rewrite no_break_space_underscore.
    destruct (replace_spaces n true s1); [reflexivity|].
    rewrite wide_space_underscore_2. reflexivity.
Qed.

Lemma replace_spaces_spaceless (skip : nat) (in_run : bool) (s : string) :
  spaceless (replace_spaces skip in_run s) = true.
Proof.
  revert skip in_run. induction s as [|c s IH]; intros skip in_run;
    [reflexivity|].
  cbn [replace_spaces]. destruct skip as [|skip]; [|apply IH].
  destruct (space_width (String c s)) eqn:W.
  - cbn [spaceless]. rewrite width_step by exact W. apply IH.
  - destruct in_run; [apply IH|].
    cbn [spaceless]. rewrite underscore_width. apply IH.
Qed.

Lemma spaceless_fixed (in_run : bool) (s : string) :
  spaceless s = true -> replace_spaces 0 in_run s = s.
Proof.
  revert in_run. induction s as [|c s IH]; intros in_run H; [reflexivity|].
  cbn [spaceless] in H. apply andb_true_iff in H. destruct H as [W H].
  apply Nat.eqb_eq in W. cbn [replace_spaces]. rewrite W.
  f_equal. apply IH. exact H.
Qed.

Lemma replace_spaces_twice (skip : nat) (b b' : bool) (s : string) :
  replace_spaces 0 b' (replace_spaces skip b s) = replace_spaces skip b s.
Proof. apply spaceless_fixed, replace_spaces_spaceless. Qed.

Lemma spaceless_suffix (before after : string) :
  spaceless (before +:+ after) = true -> space_width after = 0%nat.
Proof.
  induction before as [|c before IH].
  - change ("" +:+ after) with after. destruct after as [|c after];
      [reflexivity|].
    cbn [spaceless]. intros H. apply andb_true_iff in H.
    destruct H as [W _]. apply Nat.eqb_eq in W. exact W.
  - change (String c before +:+ after) with (String c (before +:+ after)).
    cbn [spaceless]. intros H. apply andb_true_iff in H.
    destruct H as [_ H]. apply IH. exact H.
Qed.

(** X1.  Formatting a team name twice is the same as formatting it once;
    in the formatted name no white-space character of [\s] starts at any
    position, whether it takes one byte or more; and so a match key built
    from formatted names is the key built from the raw names. *)
Theorem formatTeamNameForPath_idempotent (teamName other date : string) :
  formatTeamNameForPath (formatTeamNameForPath teamName)
  = formatTeamNameForPath teamName
  /\ (forall before after,
        formatTeamNameForPath teamName = before +:+ after ->
        space_width after = 0%nat)
  /\ generateMatchKey (formatTeamNameForPath teamName)
       (formatTeamNameForPath other) date
     = generateMatchKey teamName other date.
Proof.
  unfold generateMatchKey, formatTeamNameForPath.
  rewrite !replace_spaces_twice. split; [reflexivity|]. split; [|reflexivity].
  intros before after Heq. apply (spaceless_suffix before).
  rewrite <- Heq. apply replace_spaces_spaceless.
Qed.

(** Two texts cut at the first occurrence of a separator that neither
    head contains have equal heads and equal tails. *)
Lemma append_sep_inj (c : ascii) (a a' r r' : string) :
  ~ In c (list_ascii_of_string a) -> ~ In c (list_ascii_of_string a') ->
  a +:+ String c r = a' +:+ String c r' -> a = a' /\ r = r'.
Proof.
  revert a'. induction a as [|x a IH]; intros [|x' a'] Ha Ha' H.
  - change (String c r = String c r') in H. injection H as ->. auto.
  - change (String c r = String x' (a' +:+ String c r')) in H.
    injection H as -> _. exfalso. apply Ha'. left. reflexivity.
  - change (String x (a +:+ String c r) = String c r') in H.
    injection H as -> _. exfalso. apply Ha. left. reflexivity.
  - change (String x (a +:+ String c r) = String x' (a' +:+ String c r')) in H.
    injection H as -> H.
    destruct (IH a') as [-> ->]; auto.
    + intros Hin. apply Ha. right. exact Hin.
    + intros Hin. apply Ha'. right. exact Hin.
Qed.

(** X2.  Job ids of event ids that hold no underscore are distinct for
    distinct (event, offset) pairs, whatever the offset names hold. *)
Theorem generateJobId_injective (eventId1 timing1 eventId2 timing2 : string) :
  ~ In "_"%char (list_ascii_of_string eventId1) ->
  ~ In "_"%char (list_ascii_of_string eventId2) ->
  generateJobId eventId1 timing1 = generateJobId eventId2 timing2 ->
  eventId1 = eventId2 /\ timing1 = timing2.
Proof.
  intros H1 H2 H. unfold generateJobId in H.
  exact (append_sep_inj "_" _ _ _ _ H1 H2 H).
Qed.

(** *** Binary64 arithmetic *)

Lemma pow2_pos (k : Z) : 0 <= k -> 0 < 2 ^ k.
Proof. intros H. apply Z.pow_pos_nonneg; lia. Qed.

Lemma shift_round_exact (n k : Z) :
  0 <= k -> JsNumber.shift_round (n * 2 ^ k) k = n.
Proof.
  intros Hk. unfold JsNumber.shift_round.
  destruct (Z.leb_spec k 0) as [H0|H0].
  - assert (k = 0) by lia. subst k. change (2 ^ 0) with 1. lia.
  - pose proof (pow2_pos k Hk) as Hp. pose proof (pow2_pos (k - 1)) as Hh.
    rewrite Z.div_mul by lia. rewrite Z.mod_mul by lia.
    destruct (Z.ltb_spec 0 (2 ^ (k - 1))); [reflexivity | lia].
Qed.

Lemma shift_round_le (m n k : Z) :
  0 <= k -> m <= n * 2 ^ k -> JsNumber.shift_round m k <= n.
Proof.
  intros Hk Hle. unfold JsNumber.shift_round.
  destruct (Z.leb_spec k 0) as [H0|H0].
  - assert (k = 0) by lia. subst k. change (2 ^ 0) with 1 in Hle. lia.
  - pose proof (pow2_pos k Hk) as Hp.
    pose proof (pow2_pos (k - 1) ltac:(lia)) as Hh.
    assert (Hdouble : 2 ^ k = 2 * 2 ^ (k - 1)).
    { rewrite <- Z.pow_succ_r by lia. f_equal. lia. }
    pose proof (Z.div_mod m (2 ^ k) ltac:(lia)) as Hdm.
    pose proof (Z.mod_pos_bound m (2 ^ k) Hp) as Hr.
    set (q := m / 2 ^ k) in *. set (r := m mod 2 ^ k) in *.
    set (half := 2 ^ (k - 1)) in *. set (p := 2 ^ k) in *.
    assert (Hq : q < n \/ (q = n /\ r = 0)) by nia.
    destruct Hq as [Hq|[Hq Hr0]].
    + destruct (r <? half); [lia|]. destruct (half <? r); [lia|].
      destruct (Z.even q); lia.
    + destruct (Z.ltb_spec r half); lia.
Qed.

Lemma shift_round_ge (m n k : Z) :
  0 <= k -> n * 2 ^ k <= m -> n <= JsNumber.shift_round m k.
Proof.
  intros Hk Hle. unfold JsNumber.shift_round.
  destruct (Z.leb_spec k 0) as [H0|H0].
  - assert (k = 0) by lia. subst k. change (2 ^ 0) with 1 in Hle. lia.
  - pose proof (pow2_pos k Hk) as Hp.
    pose proof (Z.div_mod m (2 ^ k) ltac:(lia)) as Hdm.
    pose proof (Z.mod_pos_bound m (2 ^ k) Hp) as Hr.
    set (q := m / 2 ^ k) in *. set (r := m mod 2 ^ k) in *.
    set (p := 2 ^ k) in *.
    assert (Hq : n <= q) by nia.
    destruct (r <? 2 ^ (k - 1)); [lia|]. destruct (2 ^ (k - 1) <? r); [lia|].
    destruct (Z.even q); lia.
Qed.

Lemma round_finite (m e m' e' : Z) :
  JsNumber.round m e = JsNumber.Finite m' e' ->
  m' = JsNumber.shift_round m (dropped m e) /\ e' = e + dropped m e.
Proof.
  unfold JsNumber.round. fold (dropped m e).
  destruct (negb _ && _); [discriminate|]. intros [= <- <-]. auto.
Qed.

(** A value that [round] has cut above the unit is at least [2 ^ 53] in
    magnitude, beyond what a [Date] holds. *)
Lemma round_large (m e : Z) :
  e <= 0 -> 0 < e + dropped m e ->
  JsNumber.time_clip
    (JsNumber.Finite (JsNumber.shift_round m (dropped m e)) (e + dropped m e))
  = None.
Proof.
  intros He Hpos. set (k := dropped m e) in *.
  assert (Hk : k = Z.log2 (Z.abs m) - 52 /\ 0 < k).
  { unfold k, dropped in *. lia. }
  destruct Hk as [Hk Hk0].
  assert (Habs : 0 < Z.abs m).
  { destruct (Z.eq_dec (Z.abs m) 0) as [H0|H0]; [|lia].
    rewrite H0 in Hk. change (Z.log2 0) with 0 in Hk. lia. }
  pose proof (Z.log2_spec (Z.abs m) Habs) as [Hlow _].
  assert (Hlog : Z.log2 (Z.abs m) = 52 + k) by lia.
  rewrite Hlog, Z.pow_add_r in Hlow by lia.
  pose proof (pow2_pos k ltac:(lia)) as Hp.
  pose proof (pow2_pos (e + k) ltac:(lia)) as Hp'.
  assert (Hbig : 2 ^ 52 <= Z.abs (JsNumber.shift_round m k)).
  { destruct (Z.abs_spec m) as [[Hm Ha]|[Hm Ha]].
    - pose proof (shift_round_ge m (2 ^ 52) k ltac:(lia) ltac:(lia)). lia.
    - pose proof (shift_round_le m (- 2 ^ 52) k ltac:(lia) ltac:(lia)). lia. }
  unfold JsNumber.time_clip.
  destruct (Z.leb_spec 0 (e + k)) as [_|]; [|lia].
  assert (H2 : 2 <= 2 ^ (e + k)).
  { change 2 with (2 ^ 1) at 1. apply Z.pow_le_mono_r; lia. }
  assert (Hover : JsDate.maxTime < Z.abs (JsNumber.shift_round m k) * 2 ^ (e + k)).
  { unfold JsDate.maxTime. change (2 ^ 52) with 4503599627370496 in Hbig. nia. }
  destruct (Z.ltb_spec JsDate.maxTime
              (Z.abs (JsNumber.shift_round m k) * 2 ^ (e + k)));
    [reflexivity | lia].
Qed.

(** The time value of the rounding of a value at or below an integer is at
    or below that integer. *)
Lemma round_clip_le (m e bound m' e' t : Z) :
  e <= 0 -> m <= bound * 2 ^ (- e) ->
  JsNumber.round m e = JsNumber.Finite m' e' ->
  JsNumber.time_clip (JsNumber.Finite m' e') = Some t ->
  t <= bound.
Proof.
  intros He Hle Hround Hclip.
  apply round_finite in Hround. destruct Hround as [-> ->].
  set (k := dropped m e) in *.
  assert (Hk : 0 <= k) by (unfold k, dropped; lia).
  destruct (Z.lt_ge_cases 0 (e + k)) as [Hpos|Hneg].
  { unfold k in *. rewrite round_large in Hclip by assumption.
    discriminate. }
  set (j := - (e + k)).
  assert (Hj : 0 <= j) by (unfold j; lia).
  assert (Hsplit : 2 ^ (- e) = 2 ^ j * 2 ^ k).
  { rewrite <- Z.pow_add_r by lia. f_equal. unfold j. lia. }
  assert (Hm' : JsNumber.shift_round m k <= bound * 2 ^ j).
  { apply shift_round_le; [exact Hk|]. rewrite Hsplit in Hle. lia. }
  pose proof (pow2_pos j Hj) as Hp.
  unfold JsNumber.time_clip in Hclip.
  destruct (Z.leb_spec 0 (e + k)) as [H0|H0].
  - assert (Hj0 : j = 0) by (unfold j; lia).
    assert (Hek : e + k = 0) by lia.
    rewrite Hek in Hclip. change (2 ^ 0) with 1 in Hclip.
    rewrite Hj0 in Hm'. change (2 ^ 0) with 1 in Hm'.
    destruct (_ <? _); [discriminate|]. injection Hclip as <-. lia.
  - fold j in Hclip. destruct (_ <? _); [discriminate|].
    injection Hclip as <-.
    rewrite <- (Z.quot_mul bound (2 ^ j)) by lia.
    apply Z.quot_le_mono; lia.
Qed.

(** The time value of the rounding of an integer is that integer. *)
Lemma round_clip_exact (v e m' e' t : Z) :
  e <= 0 ->
  JsNumber.round (v * 2 ^ (- e)) e = JsNumber.Finite m' e' ->
  JsNumber.time_clip (JsNumber.Finite m' e') = Some t ->
  t = v.
Proof.
  intros He Hround Hclip.
  apply round_finite in Hround. destruct Hround as [-> ->].
  set (m := v * 2 ^ (- e)) in *. set (k := dropped m e) in *.
  assert (Hk : 0 <= k) by (unfold k, dropped; lia).
  destruct (Z.lt_ge_cases 0 (e + k)) as [Hpos|Hneg].
  { unfold k in *. rewrite round_large in Hclip by assumption.
    discriminate. }
  set (j := - (e + k)).
  assert (Hj : 0 <= j) by (unfold j; lia).
  assert (Hsplit : 2 ^ (- e) = 2 ^ j * 2 ^ k).
  { rewrite <- Z.pow_add_r by lia. f_equal. unfold j. lia. }
  assert (Hm' : JsNumber.shift_round m k = v * 2 ^ j).
  { unfold m. rewrite Hsplit, Z.mul_assoc. apply shift_round_exact. exact Hk. }
  rewrite Hm' in Hclip.
  pose proof (pow2_pos j Hj) as Hp.
  unfold JsNumber.time_clip in Hclip.
  destruct (Z.leb_spec 0 (e + k)) as [H0|H0].
  - assert (Hj0 : j = 0) by (unfold j; lia).
    assert (Hek : e + k = 0) by lia.
    rewrite Hek, Hj0 in Hclip. change (2 ^ 0) with 1 in Hclip.
    destruct (_ <? _); [discriminate|]. injection Hclip as <-. lia.
  - fold j in Hclip. destruct (_ <? _); [discriminate|].
    injection Hclip as <-. apply Z.quot_mul. lia.
Qed.

(** A short mantissa is not cut. *)
Lemma round_short (m e : Z) :
  Z.abs m < 2 ^ 53 -> -1074 <= e <= 0 ->
  JsNumber.round m e = JsNumber.Finite m e.
Proof.
  intros Hm He. unfold JsNumber.round.
  assert (Hlog : Z.log2 (Z.abs m) <= 52).
  { destruct (Z.eq_dec (Z.abs m) 0) as [H0|H0].
    - rewrite H0. change (Z.log2 0) with 0. lia.
    - apply Z.lt_succ_r. apply Z.log2_lt_pow2; lia. }
  replace (Z.max 0 (Z.max (Z.log2 (Z.abs m) - 52) (-1074 - e))) with 0 by lia.
  unfold JsNumber.shift_round. change (0 <=? 0) with true. cbv iota.
  rewrite Z.add_0_r.
  destruct (Z.leb_spec 1024 (Z.log2 (Z.abs m) + e)) as [H|H]; [lia|].
  rewrite andb_false_r. reflexivity.
Qed.

Lemma mul_nonnegative (x : JsNumber.number) (c : Z) :
  0 < c -> JsNumber.nonnegative x ->
  JsNumber.nonnegative (JsNumber.mul x (JsNumber.integer c)).
Proof.
  intros Hc Hx. destruct x as [m e|s|]; [| |destruct Hx].
  - cbn [JsNumber.nonnegative] in Hx. cbn [JsNumber.mul JsNumber.integer].
    unfold JsNumber.round.
    destruct (negb _ && _).
    + cbn [JsNumber.nonnegative]. apply Z.ltb_ge. nia.
    + cbn [JsNumber.nonnegative].
      apply (shift_round_ge _ 0); [lia | nia].
  - cbn [JsNumber.nonnegative] in Hx. subst s.
    cbn [JsNumber.mul JsNumber.integer JsNumber.is_zero orb].
    destruct (Z.eqb_spec c 0); [lia|].
    cbn [JsNumber.nonnegative JsNumber.negative JsNumber.integer xorb].
    destruct (Z.ltb_spec c 0); [lia | reflexivity].
Qed.

Lemma offset_ms_nonnegative (hours : JsNumber.number) :
  JsNumber.nonnegative hours -> JsNumber.nonnegative (offset_ms hours).
Proof.
  intros H. unfold offset_ms. repeat (apply mul_nonnegative; [lia|]). exact H.
Qed.

(** With a short mantissa the three products are exact. *)
Lemma offset_ms_short (m e : Z) :
  -1074 <= e <= 0 -> Z.abs m * 3600000 < 2 ^ 53 ->
  offset_ms (JsNumber.Finite m e) = JsNumber.Finite (m * 60 * 60 * 1000) e.
Proof.
  intros He Hm. unfold offset_ms, JsNumber.integer.
  cbn [JsNumber.mul]. rewrite Z.add_0_r.
  rewrite (round_short (m * 60)) by lia.
  cbn [JsNumber.mul]. rewrite Z.add_0_r.
  rewrite (round_short (m * 60 * 60)) by lia.
  cbn [JsNumber.mul]. rewrite Z.add_0_r.
  rewrite (round_short (m * 60 * 60 * 1000)) by lia.
  reflexivity.
Qed.

(** X3.  For a kickoff text that parses, a scheduled time that is returned
    is never after the kickoff when the offset is not negative; it is the
    kickoff minus the offset exactly when the offset the program computes
    in binary64 is a whole number of milliseconds, as it is for every
    offset with a short mantissa (whole hours, halves, quarters, ...) that
    makes whole milliseconds. *)
Theorem calculateScheduledTime_before_kickoff (tz : Z) (kickoffTime : string)
    (hoursBeforeKickoff : JsNumber.number) (kickoff scheduled : instant) :
  JsDate.parse tz kickoffTime = Some kickoff ->
  calculateScheduledTime tz kickoffTime hoursBeforeKickoff = Ok scheduled ->
  (JsNumber.nonnegative hoursBeforeKickoff -> scheduled <= kickoff)
  /\ (forall ms : Z,
        JsNumber.whole (offset_ms hoursBeforeKickoff) ms ->
        scheduled = kickoff - ms)
  /\ (forall m e ms : Z,
        hoursBeforeKickoff = JsNumber.Finite m e ->
        -1074 <= e <= 0 -> Z.abs m * 3600000 < 2 ^ 53 ->
        ms * 2 ^ (- e) = m * 3600000 ->
        scheduled = kickoff - ms).
Proof.
  intros Hparse. unfold calculateScheduledTime. rewrite Hparse.
  destruct (JsNumber.time_clip _) as [t|] eqn:Hclip; [|discriminate].
  intros [= ->].
  assert (Hwhole : forall ms : Z,
            JsNumber.whole (offset_ms hoursBeforeKickoff) ms ->
            scheduled = kickoff - ms).
  { intros ms Hms.
    destruct (offset_ms hoursBeforeKickoff) as [mo eo|s|];
      [|destruct Hms|destruct Hms].
    cbn [JsNumber.whole] in Hms.
    cbn [JsNumber.sub JsNumber.integer] in Hclip.
    destruct (JsNumber.round _ _) as [m' e'|s|] eqn:Hround;
      [|discriminate|discriminate].
    destruct (Z.leb_spec 0 eo) as [Heo|Heo].
    - rewrite Z.min_l in Hround by lia.
      replace (eo - 0) with eo in Hround by lia.
      change (0 - 0) with 0 in Hround. change (2 ^ 0) with 1 in Hround.
      apply (round_clip_exact (kickoff - ms) 0 m' e');
        [lia | | exact Hclip].
      change (- 0) with 0. change (2 ^ 0) with 1.
      rewrite <- Hround. f_equal. lia.
    - rewrite Z.min_r in Hround by lia.
      replace (eo - eo) with 0 in Hround by lia.
      change (2 ^ 0) with 1 in Hround.
      apply (round_clip_exact (kickoff - ms) eo m' e');
        [lia | | exact Hclip].
      rewrite <- Hround. f_equal. subst mo.
      replace (0 - eo) with (- eo) by lia. lia. }
  split; [|split; [exact Hwhole|]].
  - intros Hnonneg. apply offset_ms_nonnegative in Hnonneg.
    destruct (offset_ms hoursBeforeKickoff) as [mo eo|s|];
      [| |destruct Hnonneg].
    + cbn [JsNumber.nonnegative] in Hnonneg.
      cbn [JsNumber.sub JsNumber.integer] in Hclip.
      destruct (JsNumber.round _ _) as [m' e'|s|] eqn:Hround;
        [|discriminate|discriminate].
      assert (He : Z.min 0 eo <= 0) by lia.
      apply (round_clip_le _ _ kickoff _ _ _ He) with (2 := Hround);
        [|exact Hclip].
      replace (0 - Z.min 0 eo) with (- Z.min 0 eo) by lia.
      pose proof (Z.pow_nonneg 2 (eo - Z.min 0 eo) ltac:(lia)). nia.
    + cbn [JsNumber.sub JsNumber.integer] in Hclip. discriminate.
  - intros m e ms -> He Hm Hms. apply Hwhole.
    rewrite offset_ms_short by assumption.
    cbn [JsNumber.whole].
    destruct (Z.leb_spec 0 e) as [H0|H0].
    + assert (e = 0) by lia. subst e. change (- 0) with 0 in Hms.
      change (2 ^ 0) with 1 in *. lia.
    + lia.
Qed.

End Paths.

(** ** core/JobScheduler: the other statements *)

Section QueueMaintenance.

Import JobScheduler.

Lemma set_jobs_same (w : World) : set_jobs (jobs w) w = w.
Proof. destruct w. reflexivity. Qed.

Lemma map_unmatched {A} (test : A -> bool) (g : A -> A) (l : list A) :
  find test l = None -> map (fun x => if test x then g x else x) l = l.
Proof.
  induction l as [|x l IH]; [reflexivity|]. cbn [find map].
  destruct (test x); [discriminate|]. intros H. rewrite (IH H). reflexivity.
Qed.

(** X4.  An UPDATE whose id matches no row succeeds and changes nothing:
    neither [updateJobStatus] nor [retryJob] reports an unknown job. *)
Theorem updateJobStatus_unknown_id (rejected : string -> JobStatus -> bool)
    (jobId : string) (st : JobStatus) (newPath newError : option string)
    (newScheduledTime : instant) (w : World) :
  select_by_id jobId (jobs w) = None ->
  rejected jobId st = false -> rejected jobId pending = false ->
  updateJobStatus rejected jobId st newPath newError w = (Ok tt, w)
  /\ retryJob rejected jobId newScheduledTime w = (Ok tt, w).
Proof.
  intros Hnone Hst Hpending. unfold updateJobStatus, retryJob.
  rewrite Hst, Hpending. unfold modify, update_status, update_retry.
  unfold select_by_id in Hnone.
  rewrite !(map_unmatched _ _ _ Hnone), set_jobs_same. split; reflexivity.
Qed.

Lemma select_update_retry_same t i table :
  select_by_id i (update_retry i t table)
  = option_map (requeue t) (select_by_id i table).
Proof.
  unfold select_by_id, update_retry.
  induction table as [|row table IH]; [reflexivity|].
  cbn [map find]. destruct (has_id i row) eqn:Hrow.
  - change (has_id i (requeue t row)) with (has_id i row).
    rewrite Hrow. reflexivity.
  - rewrite Hrow. exact IH.
Qed.

Lemma select_update_retry_other t i j table :
  j <> i -> select_by_id j (update_retry i t table) = select_by_id j table.
Proof.
  intros Hne. unfold select_by_id, update_retry.
  induction table as [|row table IH]; [reflexivity|].
  cbn [map find]. destruct (has_id i row) eqn:Hi.
  - change (has_id j (requeue t row)) with (has_id j row).
    assert (Hj : has_id j row = false).
    { unfold has_id in *. apply String.eqb_eq in Hi.
      apply String.eqb_neq. congruence. }
    rewrite Hj. exact IH.
  - destruct (has_id j row); [reflexivity | exact IH].
Qed.

Lemma select_due_within_all t minutes maxJobs table row :
  (length table <= maxJobs)%nat ->
  In row table -> due_within t minutes row ->
  In row (select_due_within t minutes maxJobs table).
Proof.
  intros Hmax Hin Hdue. unfold select_due_within.
  assert (Hlen : (length (merge_sort earlier (filter (due_within t minutes) table))
                  <= length table)%nat).
  { rewrite (Permutation_length (merge_sort_Permutation _ _)).
    apply length_filter. }
  rewrite take_ge by lia.
  apply list_elem_of_In. rewrite merge_sort_Permutation.
  apply list_elem_of_filter. split; [exact Hdue|].
  apply list_elem_of_In. exact Hin.
Qed.

(** X5.  [retryJob] puts a job back in the queue: it is pending at its new
    time with its error cleared, its attempts and its [completed_at] stay
    what they were, rows with another id are untouched, and
    [getJobsDueWithin] hands the job out again once the new time falls in
    the window. *)
Theorem retryJob_requeues (rejected : string -> JobStatus -> bool)
    (jobId : string) (newScheduledTime : instant) (minutes maxJobs : nat)
    (w : World) (row : ScheduledJob) :
  rejected jobId pending = false ->
  select_by_id jobId (jobs w) = Some row ->
  newScheduledTime <= clock w + Z.of_nat minutes * 60000 ->
  (length (jobs w) <= maxJobs)%nat ->
  exists due w' row',
    bind (retryJob rejected jobId newScheduledTime)
         (fun _ => getJobsDueWithin minutes maxJobs) w = (Ok due, w')
    /\ select_by_id jobId (jobs w') = Some row'
    /\ In row' due
    /\ status row' = pending /\ scheduledTime row' = newScheduledTime
    /\ error row' = None /\ attempts row' = attempts row
    /\ completedAt row' = completedAt row
    /\ snapshotPath row' = snapshotPath row
    /\ (forall other, other <> jobId ->
          select_by_id other (jobs w') = select_by_id other (jobs w)).
Proof.
  intros Hacc Hrow Hdue Hmax.
  set (table := update_retry jobId newScheduledTime (jobs w)).
  exists (select_due_within (clock w) minutes maxJobs table),
         (set_jobs table w), (requeue newScheduledTime row).
  assert (Hsel : select_by_id jobId table = Some (requeue newScheduledTime row)).
  { unfold table. rewrite select_update_retry_same, Hrow. reflexivity. }
  split.
  { unfold bind, retryJob. rewrite Hacc. reflexivity. }
  split; [exact Hsel|]. split.
  { apply select_due_within_all.
    - unfold table, update_retry. rewrite length_map. exact Hmax.
    - apply select_by_id_Some in Hsel. tauto.
    - split; [reflexivity | apply whole_second_le; exact Hdue]. }
  repeat (split; [reflexivity|]).
  intros other Hne. apply select_update_retry_other. exact Hne.
Qed.

Lemma filter_filter_implied {A} (P : A -> Prop) `{!forall x, Decision (P x)}
    (f : A -> bool) (l : list A) :
  (forall x, P x -> f x = true) -> filter P (List.filter f l) = filter P l.
Proof.
  intros Himp. induction l as [|x l IH]; [reflexivity|].
  cbn [List.filter]. rewrite (filter_cons P x l).
  destruct (decide (P x)) as [HP|HP].
  - rewrite (Himp x HP), filter_cons, decide_True by exact HP.
    rewrite IH. reflexivity.
  - destruct (f x); [|exact IH].
    rewrite filter_cons, decide_False by exact HP. exact IH.
Qed.

Lemma filter_twice {A} (f : A -> bool) (l : list A) :
  List.filter f (List.filter f l) = List.filter f l.
Proof.
  induction l as [|x l IH]; [reflexivity|]. cbn [List.filter].
  destruct (f x) eqn:Hx; [|exact IH].
  cbn [List.filter]. rewrite Hx, IH. reflexivity.
Qed.

Lemma filter_none_left {A} (f : A -> bool) (l : list A) :
  List.filter f (List.filter (fun x => negb (f x)) l) = [].
Proof.
  induction l as [|x l IH]; [reflexivity|]. cbn [List.filter].
  destruct (f x) eqn:Hx; cbn [negb]; [exact IH|].
  cbn [List.filter]. rewrite Hx. exact IH.
Qed.

(** X6.  [cleanupOldJobs] reports exactly the number of rows it removed,
    removes no pending or running row, leaves the answer of
    [getJobsDueWithin] as it was, and finds nothing more to remove when it
    is run again at the same time. *)
Theorem cleanupOldJobs_keeps_live_jobs (daysOld minutes maxJobs : nat)
    (w : World) :
  exists n w',
    cleanupOldJobs daysOld w = (Ok n, w')
    /\ Z.of_nat (length (jobs w')) = Z.of_nat (length (jobs w)) - n
    /\ (forall row, In row (jobs w) -> is_terminal (status row) = false ->
          In row (jobs w'))
    /\ fst (getJobsDueWithin minutes maxJobs w')
       = fst (getJobsDueWithin minutes maxJobs w)
    /\ cleanupOldJobs daysOld w' = (Ok 0, w').
Proof.
  eexists _, _. split; [reflexivity|]. cbn [jobs set_jobs clock].
  split; [|split; [|split]].
  - pose proof (List.filter_length (expired (clock w) daysOld) (jobs w)). lia.
  - intros row Hin Hlive. apply List.filter_In. split; [exact Hin|].
    unfold expired. rewrite Hlive. reflexivity.
  - unfold getJobsDueWithin, gets, select_due_within. cbn [fst jobs set_jobs clock].
    rewrite filter_filter_implied; [reflexivity|].
    intros row [Hst _]. unfold expired. rewrite Hst. reflexivity.
  - unfold cleanupOldJobs. cbn [jobs set_jobs clock].
    rewrite filter_none_left.
    rewrite (filter_twice (fun row => negb (expired (clock w) daysOld row))).
    reflexivity.
Qed.

Lemma sum_indicator_count (st : JobStatus) (table : list ScheduledJob) :
  or_zero (sql_sum (map (status_is st) table))
  = Z.of_nat (length (filter (fun row => status row = st) table)).
Proof.
  assert (Hsum : fold_right Z.add 0 (map (status_is st) table)
                 = Z.of_nat (length (filter (fun row => status row = st) table))).
  { induction table as [|row table IH]; [reflexivity|].
    cbn [map fold_right]. rewrite IH, filter_cons. unfold status_is.
    destruct (decide (status row = st)); cbn [length]; lia. }
  destruct table as [|row table]; [reflexivity|].
  unfold sql_sum. cbn [map]. cbn [map] in Hsum. cbn [or_zero]. exact Hsum.
Qed.

Lemma status_partition (table : list ScheduledJob) :
  (length (filter (fun row => status row = pending) table)
   + length (filter (fun row => status row = completed) table)
   + length (filter (fun row => status row = failed) table)
   + length (filter (fun row => status row = running) table)
   = length table)%nat.
Proof.
  induction table as [|row table IH]; [reflexivity|].
  rewrite !filter_cons.
  destruct (status row); repeat case_decide; try congruence;
    cbn [length]; lia.
Qed.

(** What the fold of [MIN] returns, from any starting value. *)
Lemma sql_min_fold (values : list (option instant)) (least : option instant) :
  match
    fold_left
      (fun least value =>
         match least, value with
         | None, _ => value
         | Some _, None => least
         | Some a, Some b => Some (Z.min a b)
         end)
      values least
  with
  | None => least = None /\ Forall (fun v => v = None) values
  | Some m =>
      (least = Some m \/ In (Some m) values)
      /\ (forall x, least = Some x \/ In (Some x) values -> m <= x)
  end.
Proof.
  revert least. induction values as [|v values IH]; intros least.
  - cbn [fold_left]. destruct least as [a|].
    + split; [left; reflexivity|]. intros x [[= ->]|[]]. lia.
    + split; [reflexivity | constructor].
  - cbn [fold_left].
    match goal with
    | |- context [fold_left ?f values ?n] =>
        specialize (IH n); destruct (fold_left f values n) as [m|]
    end.
    + destruct IH as [Hin Hle]. split.
      * destruct Hin as [Hnext|Hin]; [|right; right; exact Hin].
        destruct least as [a|], v as [b|].
        -- injection Hnext as <-.
           destruct (Z.min_spec a b) as [[_ ->]|[_ ->]];
             [left; reflexivity | right; left; reflexivity].
        -- left. exact Hnext.
        -- right. left. exact Hnext.
        -- discriminate.
      * intros x Hx. destruct Hx as [->|[->|Hx]].
        -- destruct v as [b|].
           ++ specialize (Hle (Z.min x b) (or_introl eq_refl)). lia.
           ++ exact (Hle x (or_introl eq_refl)).
        -- destruct least as [a|].
           ++ specialize (Hle (Z.min a x) (or_introl eq_refl)). lia.
           ++ exact (Hle x (or_introl eq_refl)).
        -- exact (Hle x (or_intror Hx)).
    + destruct IH as [Hnext Hall].
      destruct least as [a|], v as [b|]; try discriminate.
      split; [reflexivity|]. constructor; [reflexivity | exact Hall].
Qed.

Lemma sql_min_spec (values : list (option instant)) :
  match sql_min values with
  | None => Forall (fun v => v = None) values
  | Some m =>
      In (Some m) values /\ (forall x, In (Some x) values -> m <= x)
  end.
Proof.
  pose proof (sql_min_fold values None) as H. unfold sql_min.
  unfold instant in *.
  match goal with
  | |- context [fold_left ?f values None] =>
      destruct (fold_left f values None) as [m|]
  end.
  - destruct H as [[H|H] Hle]; [discriminate|]. split; [exact H|].
    intros x Hx. apply Hle. right. exact Hx.
  - tauto.
Qed.


#[local] Instance earlier_is_transitive : Transitive earlier.
Proof. intros a b c. unfold earlier. lia. Qed.

#[local] Instance earlier_is_total : Total earlier.
Proof. intros a b. unfold earlier. lia. Qed.

(** X8.  When [getJobsDueWithin] hands out any job, the first one is the
    job the summary announces: its scheduled time is the summary's next job
    time. *)
Theorem getSummary_announces_first_due (minutes maxJobs : nat) (w : World)
    (first : ScheduledJob) (rest : list ScheduledJob) (summary : Summary) :
  getJobsDueWithin minutes maxJobs w = (Ok (first :: rest), w) ->
  getSummary w = (Ok summary, w) ->
  nextJobTime summary = Some (scheduledTime first).
Proof.
  unfold getJobsDueWithin, getSummary, gets. intros Hdue Hsum.
  injection Hdue as Hdue. injection Hsum as <-. cbn [nextJobTime].
  unfold select_due_within in Hdue.
  set (P := due_within (clock w) minutes) in *.
  pose proof (StronglySorted_merge_sort earlier (filter P (jobs w))) as Hsorted.
  assert (Hperm := merge_sort_Permutation earlier (filter P (jobs w))).
  destruct (merge_sort earlier (filter P (jobs w))) as [|head tail] eqn:Hsort.
  { rewrite take_nil in Hdue. discriminate. }
  destruct maxJobs as [|maxJobs]; [discriminate|].
  cbn [take] in Hdue. injection Hdue as -> _.
  assert (Hfirst : first ∈ filter P (jobs w)).
  { rewrite <- Hperm. left. }
  apply list_elem_of_filter in Hfirst. destruct Hfirst as [[Hst Hwin] Hin].
  apply list_elem_of_In in Hin.
  pose proof (sql_min_spec (map pending_time (jobs w))) as Hmin.
  destruct (sql_min (map pending_time (jobs w))) as [m|].
  - destruct Hmin as [Hm Hle]. f_equal.
    assert (Hmf : m <= scheduledTime first).
    { apply Hle. apply in_map_iff. exists first.
      split; [|exact Hin]. unfold pending_time.
      rewrite decide_True by exact Hst. reflexivity. }
    apply in_map_iff in Hm. destruct Hm as (row & Hrow & Hrin).
    unfold pending_time in Hrow.
    destruct (decide (status row = pending)) as [Hrst|]; [|discriminate].
    injection Hrow as Hrow.
    assert (Hel : row ∈ first :: tail).
    { rewrite Hperm. apply list_elem_of_filter. split.
      - split; [exact Hrst|].
        etransitivity; [|exact Hwin].
        apply whole_second_le. lia.
      - apply list_elem_of_In. exact Hrin. }
    apply elem_of_cons in Hel. destruct Hel as [->|Hel]; [lia|].
    apply StronglySorted_inv in Hsorted. destruct Hsorted as [_ Hall].
    rewrite Forall_forall in Hall. specialize (Hall row Hel).
    unfold earlier in Hall. lia.
  - rename Hmin into Hall. exfalso.
    rewrite List.Forall_forall in Hall.
    assert (Hp : pending_time first = Some (scheduledTime first)).
    { unfold pending_time. rewrite decide_True by exact Hst. reflexivity. }
    specialize (Hall (pending_time first) (in_map _ _ _ Hin)).
    rewrite Hp in Hall. discriminate.
Qed.

Lemma filter_unique_pair (f : ScheduledJob -> bool) (p : string * string)
    (table : list ScheduledJob) :
  (forall row, f row = true -> pair_of row = p) ->
  NoDup (map pair_of table) -> (length (List.filter f table) <= 1)%nat.
Proof.
  intros Hf. induction table as [|row table IH]; cbn [map List.filter length].
  - lia.
  - intros Hnd. apply NoDup_cons in Hnd. destruct Hnd as [Hnotin Hnd].
    destruct (f row) eqn:Hrow; [|exact (IH Hnd)].
    assert (Hnone : List.filter f table = []).
    { clear IH Hnd. induction table as [|other table IH]; [reflexivity|].
      cbn [List.filter]. destruct (f other) eqn:Hother.
      - exfalso. apply Hnotin. rewrite (Hf _ Hrow), <- (Hf _ Hother).
        cbn [map]. left.
      - apply IH. intros Hin. apply Hnotin. cbn [map]. right. exact Hin. }
    rewrite Hnone. cbn [length]. lia.
Qed.

(** X9.  On a table whose ids are unique and are the ids of their
    (event, offset) pairs, [getJobsForEvent] with an offset name returns
    at most one job; with an empty offset name the offset is not tested,
    as when none is given. *)
Theorem getJobsForEvent_at_most_one (event timing : string) (w : World) :
  Forall keyed (jobs w) -> NoDup (map id (jobs w)) -> timing <> "" ->
  (exists found,
     getJobsForEvent event (Some timing) w = (Ok found, w)
     /\ (length found <= 1)%nat
     /\ Forall (fun row => eventId row = event /\ timingOffset row = timing)
          found)
  /\ getJobsForEvent event (Some "") w = getJobsForEvent event None w.
Proof.
  intros Hkeyed Hnd Htiming. split; [|reflexivity].
  eexists. split; [reflexivity|].
  assert (Hor : or_null (Some timing) = Some timing).
  { destruct timing; [congruence | reflexivity]. }
  assert (Hf : forall row, for_event event (Some timing) row = true ->
                 eventId row = event /\ timingOffset row = timing).
  { intros row. unfold for_event. rewrite Hor.
    rewrite andb_true_iff, !String.eqb_eq. tauto. }
  split.
  - apply (filter_unique_pair _ (event, timing)).
    + intros row Hrow. destruct (Hf row Hrow) as [<- <-]. reflexivity.
    + apply NoDup_pairs_of_ids; assumption.
  - rewrite List.Forall_forall. intros row Hin.
    apply List.filter_In in Hin. apply Hf. tauto.
Qed.

End QueueMaintenance.

(** ** core/JobScheduler: [getDueJobs] and [getCompletedJobs] *)

Section QueueQueries.

Import JobScheduler.

Lemma append_assoc (a b c : string) : (a +:+ b) +:+ c = a +:+ b +:+ c.
Proof.
  induction a as [|x a IH]; [reflexivity|].
  change (String x ((a +:+ b) +:+ c) = String x (a +:+ b +:+ c)).
  rewrite IH. reflexivity.
Qed.

Lemma ascii_compare_refl (c : ascii) : Ascii.compare c c = Eq.
Proof. unfold Ascii.compare. apply N.compare_refl. Qed.

(** After a common prefix, the order of two texts is the order of their
    next characters. *)
Lemma leb_after_prefix (p : string) (c1 c2 : ascii) (a b : string) :
  Ascii.compare c1 c2 = Gt ->
  String.leb (p +:+ String c1 a) (p +:+ String c2 b) = false.
Proof.
  intros Hgt. unfold String.leb. induction p as [|x p IH].
  - change (match String.compare (String c1 a) (String c2 b) with
            | Gt => false | _ => true end = false).
    cbn [String.compare]. rewrite Hgt. reflexivity.
  - change (match String.compare (String x (p +:+ String c1 a))
                    (String x (p +:+ String c2 b)) with
            | Gt => false | _ => true end = false).
    cbn [String.compare]. rewrite ascii_compare_refl. exact IH.
Qed.

Lemma getFullYear_UTC (t : instant) :
  JsDate.getFullYear JsDate.UTC t
  = let '(y, _, _) := JsDate.civil_from_days (t / JsDate.msPerDay) in y.
Proof.
  unfold JsDate.getFullYear, JsDate.LocalTime, JsDate.UTC.
  rewrite Z.mul_0_l, Z.add_0_r. reflexivity.
Qed.

(** The ISO text of an instant is above the SQLite text of any instant of
    the same UTC day: they agree up to the day, and [T] is above the
    space. *)
Lemma iso_text_above_datetime (s t : instant) :
  s / JsDate.msPerDay = t / JsDate.msPerDay ->
  0 <= JsDate.getFullYear JsDate.UTC t <= 9999 ->
  String.leb (JsDate.toISOString s) (datetime t) = false.
Proof.
  intros Hday Hyear. rewrite getFullYear_UTC in Hyear.
  unfold JsDate.toISOString, datetime. rewrite Hday.
  destruct (JsDate.civil_from_days (t / JsDate.msPerDay)) as [[y m] d].
  assert (Hrange : (0 <=? y) && (y <=? 9999) = true).
  { apply andb_true_iff. split; apply Z.leb_le; lia. }
  rewrite Hrange. cbv zeta. unfold JsDate.isoDate.
  rewrite !append_assoc.
  rewrite <- !(append_assoc (JsDate.pad 4 y)).
  rewrite <- !(append_assoc (JsDate.pad 4 y +:+ "-")).
  rewrite <- !(append_assoc ((JsDate.pad 4 y +:+ "-") +:+ JsDate.pad 2 m)).
  rewrite <- !(append_assoc
                 (((JsDate.pad 4 y +:+ "-") +:+ JsDate.pad 2 m) +:+ "-")).
  apply leb_after_prefix. reflexivity.
Qed.

(** X10.  [getDueJobs] compares the stored ISO text with the text of
    [datetime('now')].  A pending job scheduled earlier on the current UTC
    day is therefore not returned, although it is already due and
    [getJobsDueWithin], which normalises the column first, returns it. *)
Theorem getDueJobs_skips_today (maxJobs : nat) (w : World)
    (row : ScheduledJob) :
  In row (jobs w) -> status row = pending ->
  scheduledTime row <= clock w ->
  scheduledTime row / JsDate.msPerDay = clock w / JsDate.msPerDay ->
  0 <= JsDate.getFullYear JsDate.UTC (clock w) <= 9999 ->
  (exists due, getDueJobs maxJobs w = (Ok due, w) /\ ~ In row due)
  /\ (exists due,
        getJobsDueWithin 0 (length (jobs w)) w = (Ok due, w) /\ In row due).
Proof.
  intros Hin Hst Hdue Hday Hyear. split.
  - eexists. split; [reflexivity|]. unfold select_due. intros Hrow.
    apply list_elem_of_In, In_take in Hrow.
    rewrite merge_sort_Permutation in Hrow.
    apply list_elem_of_filter in Hrow. destruct Hrow as [[_ Hle] _].
    unfold str_le, scheduled_text in Hle.
    rewrite (iso_text_above_datetime _ _ Hday Hyear) in Hle. discriminate.
  - eexists. split; [reflexivity|].
    apply select_due_within_all; [lia | exact Hin |].
    split; [exact Hst | apply whole_second_le; lia].
Qed.

#[local] Instance completed_later_transitive : Transitive completed_later.
Proof.
  intros a b c. unfold completed_later.
  destruct (completedAt a), (completedAt b), (completedAt c);
    try tauto; lia.
Qed.

#[local] Instance completed_later_total : Total completed_later.
Proof.
  intros a b. unfold completed_later.
  destruct (completedAt a), (completedAt b); try tauto; lia.
Qed.

(** [getCompletedJobs] returns exactly the completed rows of the league
    that carry a snapshot path, most recently completed first. *)
Lemma getCompletedJobs_ordered (league : string) (w : World) :
  exists found,
    getCompletedJobs league w = (Ok found, w)
    /\ (forall row,
          In row found <->
          In row (jobs w) /\ leagueId row = league
          /\ status row = completed /\ snapshotPath row <> None)
    /\ StronglySorted completed_later found.
Proof.
  eexists. split; [reflexivity|]. split.
  - intros row. rewrite <- list_elem_of_In, merge_sort_Permutation.
    rewrite list_elem_of_In, List.filter_In. unfold completed_for.
    rewrite !andb_true_iff, String.eqb_eq, bool_decide_eq_true.
    destruct (snapshotPath row); intuition congruence.
  - apply StronglySorted_merge_sort; apply _.
Qed.

End QueueQueries.

(** ** storage/R2Storage: retries, lookups and listings *)

Section Storage.

Import R2Storage.

Variable basePath : string.
Variable put_fails : string -> bool.
Variable maxRetries : Z.
Variable page_size : nat.

(** Every error [withRetry] raises is the one it builds itself. *)
Lemma retry_from_throws {A} (operation : M A) (operationName : string)
    (remaining : nat) (attempt : Z) (lastError : option string)
    (w w' : World) (e : string) :
  retry_from maxRetries operation operationName remaining attempt lastError w
  = (Throw e, w') ->
  exists reason,
    e = "R2Storage: " +:+ operationName +:+ " failed after "
        +:+ pretty maxRetries +:+ " attempts: " +:+ reason.
Proof.
  revert attempt lastError w. induction remaining as [|remaining IH];
    intros attempt lastError w.
  - cbn [retry_from]. unfold throw. intros [= <- _]. eexists. reflexivity.
  - cbn [retry_from]. unfold try_catch.
    destruct (operation w) as [[a|e0] w0]; [discriminate|].
    unfold bind.
    destruct (attempt <? maxRetries); cbn; apply IH.
Qed.

Lemma wrapped_error_not_found (operationName reason : string) :
  is_not_found
    ("R2Storage: " +:+ operationName +:+ " failed after "
     +:+ pretty maxRetries +:+ " attempts: " +:+ reason) = false.
Proof. reflexivity. Qed.

(** The loop of [withRetry] against an outage that ends at [restored]. *)
Lemma retry_from_outage {A} (operation : M A) (operationName : string)
    (restored : instant) (a : A) (error : string) :
  (forall w, operation w
             = if clock w <? restored then (Throw error, w) else (Ok a, w)) ->
  forall (remaining : nat) (attempt : Z) (lastError : option string)
         (w : World),
    attempt + Z.of_nat remaining = maxRetries + 1 ->
    (remaining = O -> lastError = Some error) ->
    let patience :=
      foldr Z.add 0 (backoff <$> seqZ attempt (Z.of_nat remaining - 1)) in
    (restored <= clock w + patience ->
       remaining <> O ->
       exists t, clock w <= t <= clock w + patience /\
         retry_from maxRetries operation operationName remaining attempt
           lastError w = (Ok a, set_clock t w))
    /\ (clock w + patience < restored ->
          retry_from maxRetries operation operationName remaining attempt
            lastError w
          = (Throw ("R2Storage: " +:+ operationName +:+ " failed after "
                    +:+ pretty maxRetries +:+ " attempts: " +:+ error),
             set_clock (clock w + patience) w)).
Proof.
  intros Hop. induction remaining as [|remaining IH];
    intros attempt lastError w Hturns Hlast patience.
  - split; [intros _ Hne; congruence|]. intros _.
    unfold patience. rewrite seqZ_nil by lia. rewrite fmap_nil. cbn [foldr].
    rewrite Z.add_0_r, set_clock_same, (Hlast eq_refl). reflexivity.
  - cbn [retry_from]. unfold try_catch. rewrite Hop.
    destruct (Z.ltb_spec (clock w) restored) as [Hdown|Hup].
    + (* the attempt fails *)
      unfold bind.
      destruct remaining as [|remaining'].
      * (* it was the last one *)
        assert (Hlt : (attempt <? maxRetries) = false) by (apply Z.ltb_ge; lia).
        rewrite Hlt. unfold ret. cbn [retry_from]. unfold throw.
        unfold patience. rewrite seqZ_nil by lia. rewrite fmap_nil.
        cbn [foldr]. split; [intros; lia|]. intros _.
        rewrite Z.add_0_r, set_clock_same. reflexivity.
      * assert (Hlt : (attempt <? maxRetries) = true) by (apply Z.ltb_lt; lia).
        rewrite Hlt. unfold delay, modify.
        pose proof (backoff_bounds attempt) as Hb.
        rewrite Z.max_r by lia.
        set (w1 := set_clock (clock w + backoff attempt) w).
        specialize (IH (attempt + 1) (Some error) w1).
        assert (Hp : patience
                     = backoff attempt
                       + foldr Z.add 0
                           (backoff <$> seqZ (attempt + 1)
                                          (Z.of_nat (S remaining') - 1))).
        { unfold patience. rewrite seqZ_cons, fmap_cons by lia.
          cbn [foldr]. repeat f_equal; lia. }
        destruct IH as [IHok IHfail]; [lia | discriminate |].
        rewrite Hp. split.
        -- intros Hres _. destruct IHok as (t & Ht & Hrun).
           { cbn [clock w1 set_clock]. unfold w1. cbn [clock set_clock]. lia. }
           { discriminate. }
           exists t. unfold w1 in Ht. cbn [clock set_clock] in Ht.
           split; [lia|]. rewrite Hrun. unfold w1.
           rewrite set_clock_twice. reflexivity.
        -- intros Hres. rewrite IHfail
             by (unfold w1; cbn [clock set_clock]; lia).
           unfold w1. rewrite set_clock_twice. cbn [clock set_clock].
           rewrite Z.add_assoc. reflexivity.
    + (* the attempt succeeds *)
      split.
      * intros _ _. exists (clock w).
        pose proof (patience_bounds attempt (Z.of_nat (S remaining) - 1)).
        fold patience in H. split; [lia|]. rewrite set_clock_same. reflexivity.
      * intros Hlate.
        pose proof (patience_bounds attempt (Z.of_nat (S remaining) - 1)).
        fold patience in H. lia.
Qed.

(** X12.  Against a store that is out of reach until [restored],
    [withRetry] waits between attempts and succeeds exactly when the outage
    ends within its patience, the sum of the delays after every attempt but
    the last; otherwise it gives up after waiting all of it, with the last
    error in its message.  The whole wait is at most ten seconds for each
    retry. *)
Theorem withRetry_rides_out_outage {A} (operation : M A)
    (operationName : string) (restored : instant) (a : A) (error : string)
    (w : World) :
  1 <= maxRetries ->
  (forall w, operation w
             = if clock w <? restored then (Throw error, w) else (Ok a, w)) ->
  let patience := foldr Z.add 0 (backoff <$> seqZ 1 (maxRetries - 1)) in
  (restored <= clock w + patience ->
     exists t, clock w <= t <= clock w + patience /\
       withRetry maxRetries operation operationName w = (Ok a, set_clock t w))
  /\ (clock w + patience < restored ->
        withRetry maxRetries operation operationName w
        = (Throw ("R2Storage: " +:+ operationName +:+ " failed after "
                  +:+ pretty maxRetries +:+ " attempts: " +:+ error),
           set_clock (clock w + patience) w))
  /\ patience <= 10000 * (maxRetries - 1).
Proof.
  intros Hmax Hop patience.
  pose proof (retry_from_outage operation operationName restored a error Hop
                (Z.to_nat maxRetries) 1 None w) as H.
  rewrite Z2Nat.id in H by lia.
  destruct H as [Hok Hfail]; [lia | lia |].
  split; [|split].
  - intros Hres. apply Hok; [exact Hres | lia].
  - exact Hfail.
  - pose proof (patience_bounds 1 (maxRetries - 1)). unfold patience. lia.
Qed.

End Storage.

(** ** storage/R2Storage: snapshots by id *)

Lemma dict_get_remove_eq {V} (k : string) (d : dict V) :
  dict_get k (dict_remove k d) = None.
Proof.
  unfold dict_remove. induction d as [|[k' v] d IH]; [reflexivity|].
  cbn [List.filter fst]. destruct (String.eqb k k') eqn:Hk; cbn [negb].
  - exact IH.
  - cbn [dict_get]. rewrite Hk. exact IH.
Qed.

Lemma dict_get_remove_ne {V} (k k' : string) (d : dict V) :
  k' <> k -> dict_get k' (dict_remove k d) = dict_get k' d.
Proof.
  intros Hne. unfold dict_remove. induction d as [|[k0 v] d IH]; [reflexivity|].
  cbn [List.filter fst dict_get].
  destruct (String.eqb_spec k k0) as [<-|Hk0]; cbn [negb].
  - destruct (String.eqb_spec k' k) as [Heq|_]; [congruence | exact IH].
  - cbn [dict_get]. rewrite IH. reflexivity.
Qed.

Lemma dict_keys_set_present {V} (k : string) (v v0 : V) (d : dict V) :
  dict_get k d = Some v0 -> dict_keys (dict_set k v d) = dict_keys d.
Proof.
  unfold dict_keys. induction d as [|[k' v'] d IH]; [discriminate|].
  cbn [dict_get dict_set]. destruct (String.eqb k k'); [reflexivity|].
  intros H. cbn [map fst]. rewrite (IH H). reflexivity.
Qed.

Lemma dict_set_twice {V} (k : string) (v v' : V) (d : dict V) :
  dict_set k v' (dict_set k v d) = dict_set k v' d.
Proof.
  induction d as [|[k0 v0] d IH]; cbn [dict_set].
  - rewrite String.eqb_refl. reflexivity.
  - destruct (String.eqb k k0) eqn:Hk; cbn [dict_set]; rewrite Hk;
      [reflexivity | rewrite IH; reflexivity].
Qed.

Lemma length_append (a b : string) :
  String.length (a +:+ b) = (String.length a + String.length b)%nat.
Proof.
  induction a as [|x a IH]; [reflexivity|].
  change (S (String.length (a +:+ b)) = S (String.length a + String.length b)).
  rewrite IH. reflexivity.
Qed.

Lemma append_inv_tail (a b c : string) : a +:+ c = b +:+ c -> a = b.
Proof.
  revert b. induction a as [|x a IH]; intros [|y b] H.
  - reflexivity.
  - apply (f_equal String.length) in H. rewrite !length_append in H.
    cbn [String.length] in H. lia.
  - apply (f_equal String.length) in H. rewrite !length_append in H.
    cbn [String.length] in H. lia.
  - change (String x (a +:+ c) = String y (b +:+ c)) in H.
    injection H as -> H. rewrite (IH b H). reflexivity.
Qed.

Section Snapshots.

Import R2Storage.

Variable basePath : string.
Variable put_fails : string -> bool.
Variable maxRetries : Z.

(** X13.  A snapshot that was saved is read back, unchanged, under the id
    [getSnapshotId] derives from it. *)
Theorem getSnapshot_after_saveSnapshot (leagueId season : string)
    (snapshot : OddsSnapshot) (w : World) :
  1 <= maxRetries ->
  put_fails (snapshotKey basePath leagueId season snapshot) = false ->
  exists w',
    bind (saveSnapshot basePath put_fails maxRetries leagueId season snapshot)
         (fun _ =>
            getSnapshot basePath maxRetries leagueId season
              (getSnapshotId snapshot)) w
    = (Ok (Some (SnapshotObject snapshot)), w')
    /\ clock w' = clock w /\ jobs w' = jobs w.
Proof.
  intros Hmax Hput. eexists. split.
  - unfold bind. rewrite saveSnapshot_accepted by assumption.
    unfold getSnapshot, try_catch, bind.
    change (snapshotIdKey basePath leagueId season (getSnapshotId snapshot))
      with (snapshotKey basePath leagueId season snapshot).
    erewrite withRetry_success; [reflexivity | exact Hmax |].
    unfold get_object. cbn [bucket set_bucket].
    rewrite dict_get_set_eq. reflexivity.
  - split; reflexivity.
Qed.

(** X14.  For a key the bucket does not hold, [getSnapshot] does not return
    [null] and [snapshotExists] does not return [false]: the not-found
    answer of the service is retried like any failure and then replaced by
    the error of [withRetry], which the [catch] clauses do not recognise.
    Both calls raise that error after waiting out every backoff delay. *)
Theorem getSnapshot_missing_key_throws (leagueId season snapshotId : string)
    (w : World) :
  1 <= maxRetries ->
  dict_get (snapshotIdKey basePath leagueId season snapshotId) (bucket w)
  = None ->
  let key := snapshotIdKey basePath leagueId season snapshotId in
  let waited :=
    set_clock
      (clock w + foldr Z.add 0 (backoff <$> seqZ 1 (maxRetries - 1))) w in
  getSnapshot basePath maxRetries leagueId season snapshotId w
  = (Throw ("R2Storage: " +:+ ("getSnapshot(" +:+ key +:+ ")")
            +:+ " failed after " +:+ pretty maxRetries +:+ " attempts: "
            +:+ NoSuchKey), waited)
  /\ snapshotExists basePath maxRetries leagueId season snapshotId w
     = (Throw ("R2Storage: " +:+ ("snapshotExists(" +:+ key +:+ ")")
               +:+ " failed after " +:+ pretty maxRetries +:+ " attempts: "
               +:+ NotFound), waited).
Proof.
  intros Hmax Habsent key waited.
  set (stuck := fun w0 : World => dict_get key (bucket w0) = None).
  assert (Hkeep : forall w0 t, stuck w0 -> stuck (set_clock t w0)).
  { intros w0 t H. exact H. }
  split.
  - unfold getSnapshot, try_catch, bind, withRetry. fold key.
    rewrite (retry_from_fails maxRetries (get_object key) _ NoSuchKey stuck Hkeep);
      [| | exact Habsent | lia | lia].
    + rewrite Z2Nat.id, wrapped_error_not_found by lia. reflexivity.
    + intros w0 H. unfold get_object. unfold stuck in H. rewrite H.
      reflexivity.
  - unfold snapshotExists, try_catch, bind, withRetry. fold key.
    rewrite (retry_from_fails maxRetries (head_object key) _ NotFound stuck Hkeep);
      [| | exact Habsent | lia | lia].
    + rewrite Z2Nat.id, wrapped_error_not_found by lia. reflexivity.
    + intros w0 H. unfold head_object. unfold stuck in H. rewrite H.
      reflexivity.
Qed.

(** X15.  [deleteSnapshot] succeeds whether or not the key is held; after
    it the key is absent, every other key holds what it held, and deleting
    again changes nothing. *)
Theorem deleteSnapshot_removes_one_key (leagueId season snapshotId : string)
    (w : World) :
  1 <= maxRetries ->
  exists w',
    deleteSnapshot basePath maxRetries leagueId season snapshotId w
    = (Ok tt, w')
    /\ dict_get (snapshotIdKey basePath leagueId season snapshotId)
         (bucket w') = None
    /\ (forall other,
          other <> snapshotIdKey basePath leagueId season snapshotId ->
          dict_get other (bucket w') = dict_get other (bucket w))
    /\ deleteSnapshot basePath maxRetries leagueId season snapshotId w'
       = (Ok tt, w').
Proof.
  intros Hmax. eexists. split.
  { unfold deleteSnapshot. apply withRetry_success; [exact Hmax|].
    reflexivity. }
  cbn [bucket set_bucket]. split; [apply dict_get_remove_eq|]. split.
  - intros other Hne. apply dict_get_remove_ne. exact Hne.
  - unfold deleteSnapshot.
    erewrite withRetry_success; [reflexivity | exact Hmax |].
    unfold delete_object, modify. cbn [bucket set_bucket].
    unfold dict_remove. rewrite filter_twice. reflexivity.
Qed.

(** X16.  Two snapshots with the same event id, offset name and match date
    are one artifact: with a storage that makes at least one attempt, the
    second save replaces the content of the first under the same key and
    adds no key. *)
Theorem saveSnapshot_overwrites_same_identity (leagueId season : string)
    (first second : OddsSnapshot) (w : World) :
  odds_id (odds first) = odds_id (odds second) ->
  snapshotTiming (metadata first) = snapshotTiming (metadata second) ->
  date (metadata first) = date (metadata second) ->
  1 <= maxRetries ->
  put_fails (snapshotKey basePath leagueId season first) = false ->
  exists w1 w2,
    saveSnapshot basePath put_fails maxRetries leagueId season first w
    = (Ok tt, w1)
    /\ saveSnapshot basePath put_fails maxRetries leagueId season second w1
       = (Ok tt, w2)
    /\ dict_keys (bucket w2) = dict_keys (bucket w1)
    /\ dict_get (snapshotKey basePath leagueId season first) (bucket w2)
       = Some (SnapshotObject second).
Proof.
  intros Hid Htiming Hdate Hmax Hput.
  assert (Hkey : snapshotKey basePath leagueId season second
                 = snapshotKey basePath leagueId season first).
  { unfold snapshotKey, getSnapshotId. rewrite Hid, Htiming, Hdate.
    reflexivity. }
  eexists _, _. split.
  { apply saveSnapshot_accepted; assumption. }
  split.
  { rewrite saveSnapshot_accepted by (rewrite ?Hkey; assumption).
    rewrite Hkey. reflexivity. }
  cbn [bucket set_bucket]. split.
  - eapply dict_keys_set_present. apply dict_get_set_eq.
  - apply dict_get_set_eq.
Qed.

Lemma join_clean_key (leagueId season file : string) :
  leagueId <> "" -> season <> "" ->
  getKey basePath ["leagues"; leagueId; season; file +:+ ".json"]
  = (if truthy basePath then basePath +:+ "/" else "")
    +:+ "leagues/" +:+ leagueId +:+ String "/" (season +:+ String "/" (file +:+ ".json")).
Proof.
  intros Hl Hs. unfold getKey.
  assert (Htl : truthy leagueId = true).
  { unfold truthy. destruct (String.eqb_spec leagueId ""); [congruence | reflexivity]. }
  assert (Hts : truthy season = true).
  { unfold truthy. destruct (String.eqb_spec season ""); [congruence | reflexivity]. }
  destruct (truthy basePath) eqn:Hb; cbn [List.filter];
    change (truthy "leagues") with true; cbv iota;
    rewrite ?Hb, Htl, Hts, truthy_json; cbn [join]; [|reflexivity].
  rewrite append_assoc. reflexivity.
Qed.

(** X17.  Distinct (league, season, snapshot id) triples never share a
    storage key, as long as league and season are not empty and hold no
    slash. *)
Theorem snapshot_keys_distinct
    (leagueId season snapshotId leagueId' season' snapshotId' : string) :
  leagueId <> "" -> season <> "" -> leagueId' <> "" -> season' <> "" ->
  ~ In "/"%char (list_ascii_of_string leagueId) ->
  ~ In "/"%char (list_ascii_of_string season) ->
  ~ In "/"%char (list_ascii_of_string leagueId') ->
  ~ In "/"%char (list_ascii_of_string season') ->
  snapshotIdKey basePath leagueId season snapshotId
  = snapshotIdKey basePath leagueId' season' snapshotId' ->
  leagueId = leagueId' /\ season = season' /\ snapshotId = snapshotId'.
Proof.
  intros Hl Hs Hl' Hs' Hsl Hss Hsl' Hss' Hkey.
  unfold snapshotIdKey in Hkey.
  rewrite !join_clean_key in Hkey by assumption.
  apply append_inv_head, append_inv_head in Hkey.
  apply append_sep_inj in Hkey; [|assumption..].
  destruct Hkey as [-> Hkey].
  apply append_sep_inj in Hkey; [|assumption..].
  destruct Hkey as [-> Hkey].
  apply append_inv_tail in Hkey. auto.
Qed.

End Snapshots.

(** ** storage/R2Storage: [listSnapshots] *)

Lemma split_not_nil (sep : ascii) (s : string) : split sep s <> [].
Proof.
  destruct s as [|c s]; cbn [split]; [discriminate|].
  destruct (Ascii.eqb c sep); [discriminate|].
  destruct (split sep s); discriminate.
Qed.

Lemma split_no_separator (sep : ascii) (s : string) :
  ~ In sep (list_ascii_of_string s) -> split sep s = [s].
Proof.
  induction s as [|c s IH]; [reflexivity|]. intros Hno.
  cbn [split]. destruct (Ascii.eqb_spec c sep) as [->|_].
  - exfalso. apply Hno. left. reflexivity.
  - rewrite IH; [reflexivity|]. intros Hin. apply Hno. right. exact Hin.
Qed.

Lemma split_append (sep : ascii) (a b : string) :
  split sep (a +:+ String sep b) = split sep a ++ split sep b.
Proof.
  induction a as [|c a IH].
  - change (split sep (String sep b) = [""] ++ split sep b).
    cbn [split]. rewrite Ascii.eqb_refl. reflexivity.
  - change (split sep (String c (a +:+ String sep b))
            = split sep (String c a) ++ split sep b).
    cbn [split]. destruct (Ascii.eqb c sep).
    + rewrite IH. reflexivity.
    + rewrite IH. pose proof (split_not_nil sep a) as Hne.
      destruct (split sep a) as [|part parts]; [congruence|]. reflexivity.
Qed.

Lemma pop_last (parts : list string) (x : string) :
  pop (parts ++ [x]) = Some x.
Proof. unfold pop. rewrite map_app. apply List.last_last. Qed.

Lemma endsWith_append (suffix a : string) : endsWith suffix (a +:+ suffix) = true.
Proof.
  induction a as [|c a IH].
  - change ("" +:+ suffix) with suffix. destruct suffix; cbn [endsWith];
      rewrite String.eqb_refl; reflexivity.
  - change (String c a +:+ suffix) with (String c (a +:+ suffix)).
    cbn [endsWith]. rewrite IH. apply orb_true_r.
Qed.

Lemma slice0_append (a b : string) : slice0 (String.length a) (a +:+ b) = a.
Proof.
  induction a as [|c a IH].
  - destruct b; reflexivity.
  - change (String c a +:+ b) with (String c (a +:+ b)).
    cbn [String.length slice0]. rewrite IH. reflexivity.
Qed.

Lemma slice_end_json (file : string) : slice_end 5 (file +:+ ".json") = file.
Proof.
  unfold slice_end. rewrite length_append. cbn [String.length].
  replace (String.length file + 5 - 5)%nat with (String.length file) by lia.
  apply slice0_append.
Qed.

Lemma prefix_append (p x : string) : String.prefix p (p +:+ x) = true.
Proof.
  induction p as [|c p IH].
  - destruct x; reflexivity.
  - change (String c p +:+ x) with (String c (p +:+ x)).
    cbn [String.prefix]. destruct (ascii_dec c c); [exact IH | congruence].
Qed.

Lemma join_snoc (sep : string) (parts : list string) (x : string) :
  parts <> [] ->
  join sep (parts ++ [x]) = join sep parts +:+ sep +:+ x.
Proof.
  induction parts as [|p parts IH]; [congruence|]. intros _.
  destruct parts as [|q parts]; [reflexivity|].
  change (p +:+ sep +:+ join sep ((q :: parts) ++ [x])
          = (p +:+ sep +:+ join sep (q :: parts)) +:+ sep +:+ x).
  rewrite IH by discriminate. rewrite !append_assoc. reflexivity.
Qed.

Lemma dict_get_In_keys {V} (k : string) (v : V) (d : dict V) :
  dict_get k d = Some v -> In k (dict_keys d).
Proof.
  unfold dict_keys. induction d as [|[k' v'] d IH]; [discriminate|].
  cbn [dict_get map fst].
  destruct (String.eqb_spec k k') as [->|_]; [left; reflexivity|].
  intros H. right. exact (IH H).
Qed.

Section Listing.

Import R2Storage.

Variable basePath : string.
Variable put_fails : string -> bool.
Variable maxRetries : Z.
Variable page_size : nat.

(** The key of a file of a league and season is the listing prefix of that
    league and season, a slash, and the file name. *)
Lemma file_key_under_prefix (leagueId season file : string) :
  getKey basePath ["leagues"; leagueId; season; file +:+ ".json"]
  = getKey basePath ["leagues"; leagueId; season; ""]
    +:+ String "/" (file +:+ ".json").
Proof.
  unfold getKey.
  set (pre := ["leagues"%string; leagueId; season]).
  set (all := if truthy basePath then basePath :: pre else pre).
  replace (if truthy basePath
           then basePath :: ["leagues"%string; leagueId; season; file +:+ ".json"]
           else ["leagues"%string; leagueId; season; file +:+ ".json"])
    with (all ++ [file +:+ ".json"])
    by (unfold all; destruct (truthy basePath); reflexivity).
  replace (if truthy basePath
           then basePath :: ["leagues"%string; leagueId; season; ""%string]
           else ["leagues"%string; leagueId; season; ""%string])
    with (all ++ [""%string])
    by (unfold all; destruct (truthy basePath); reflexivity).
  rewrite !List.filter_app. cbn [List.filter]. rewrite truthy_json.
  change (truthy "") with false. cbv iota. rewrite app_nil_r.
  apply join_snoc.
  unfold all, pre. destruct (truthy basePath) eqn:Hb; cbn [List.filter];
    rewrite ?Hb; change (truthy "leagues") with true; discriminate.
Qed.

(** The loop over [response.Contents] finds the id of a file directly
    under the prefix. *)
Lemma snapshot_ids_of_file (prefix file : string) :
  ~ In "/"%char (list_ascii_of_string file) ->
  snapshot_ids [prefix +:+ String "/" (file +:+ ".json")] = [file].
Proof.
  intros Hfile. unfold snapshot_ids. cbn [flat_map].
  assert (Hkey : truthy (prefix +:+ String "/" (file +:+ ".json")) = true).
  { unfold truthy. destruct prefix; reflexivity. }
  rewrite Hkey, split_append.
  assert (Hjson : ~ In "/"%char (list_ascii_of_string (file +:+ ".json"))).
  { clear Hkey. induction file as [|c file IH].
    - cbn. intros [H|[H|[H|[H|[H|[]]]]]]; discriminate.
    - change (String c file +:+ ".json") with (String c (file +:+ ".json")).
      cbn [list_ascii_of_string In]. intros [->|Hin].
      + apply Hfile. left. reflexivity.
      + apply IH; [|exact Hin]. intros H. apply Hfile. right. exact H. }
  rewrite (split_no_separator _ _ Hjson), pop_last.
  rewrite truthy_json, endsWith_append, slice_end_json. reflexivity.
Qed.

Lemma snapshot_ids_app (a b : list string) :
  snapshot_ids (a ++ b) = snapshot_ids a ++ snapshot_ids b.
Proof. unfold snapshot_ids. apply flat_map_app. Qed.

Lemma snapshot_ids_In (file key : string) (keys : list string) :
  In key keys -> In file (snapshot_ids [key]) -> In file (snapshot_ids keys).
Proof.
  intros Hkey Hfile. unfold snapshot_ids in *. apply in_flat_map.
  exists key. split; [exact Hkey|]. cbn [flat_map] in Hfile.
  rewrite app_nil_r in Hfile. exact Hfile.
Qed.

(** The pages of a listing, read to the end. *)
Lemma list_pages_drains (prefix : string) (w : World) :
  1 <= maxRetries -> (0 < page_size)%nat ->
  let keys :=
    merge_sort str_le
      (List.filter (String.prefix prefix) (dict_keys (bucket w))) in
  forall (turns : nat) (continuationToken : option nat)
         (snapshotIds : list string),
    (length (drop (default 0%nat continuationToken) keys)
     < turns * page_size)%nat ->
    list_pages maxRetries page_size turns prefix continuationToken
      snapshotIds w
    = (Ok (Some (snapshotIds
                 ++ snapshot_ids
                      (drop (default 0%nat continuationToken) keys))), w).
Proof.
  intros Hmax Hpage keys. induction turns as [|turns IH];
    intros token acc Hturns; [lia|].
  cbn [list_pages]. unfold bind.
  erewrite withRetry_success; [| exact Hmax | reflexivity].
  cbn [fst snd]. fold keys.
  set (listed := default 0%nat token) in *.
  destruct (Nat.ltb_spec page_size (length (drop listed keys))) as [Hmore|Hlast].
  - specialize (IH (Some (listed + page_size)%nat)
                    (acc ++ snapshot_ids (take page_size (drop listed keys)))).
    change (default 0%nat (Some (listed + page_size)%nat))
      with (listed + page_size)%nat in IH.
    rewrite IH.
    + rewrite <- app_assoc, <- snapshot_ids_app.
      rewrite <- drop_drop, take_drop. reflexivity.
    + rewrite <- drop_drop, length_drop. lia.
  - unfold ret. rewrite take_ge by exact Hlast. reflexivity.
Qed.


Lemma listed_file (leagueId season file : string) (b : dict StoredObject)
    (object : StoredObject) :
  ~ In "/"%char (list_ascii_of_string file) ->
  dict_get (getKey basePath ["leagues"; leagueId; season; file +:+ ".json"]) b
  = Some object ->
  In file
    (snapshot_ids
       (merge_sort str_le
          (List.filter
             (String.prefix (getKey basePath ["leagues"; leagueId; season; ""]))
             (dict_keys b)))).
Proof.
  intros Hfile Hget.
  set (prefix := getKey basePath ["leagues"; leagueId; season; ""]).
  set (key := getKey basePath ["leagues"; leagueId; season; file +:+ ".json"]) in *.
  assert (Hkey : key = prefix +:+ String "/" (file +:+ ".json"))
    by apply file_key_under_prefix.
  apply (snapshot_ids_In file key).
  - apply list_elem_of_In. rewrite merge_sort_Permutation.
    apply list_elem_of_In, List.filter_In. split.
    + exact (dict_get_In_keys _ _ _ Hget).
    + rewrite Hkey. apply prefix_append.
  - rewrite Hkey, snapshot_ids_of_file by exact Hfile. left. reflexivity.
Qed.

(** The listing after a file of the league and season was put. *)
Lemma listing_after_put (turns : nat) (leagueId season file : string)
    (object : StoredObject) (w : World) :
  1 <= maxRetries -> (0 < page_size)%nat ->
  (S (length (bucket w)) < turns * page_size)%nat ->
  ~ In "/"%char (list_ascii_of_string file) ->
  let key := getKey basePath ["leagues"; leagueId; season; file +:+ ".json"] in
  let w' := set_bucket (dict_set key object (bucket w)) w in
  exists ids,
    listSnapshots basePath maxRetries page_size turns leagueId season w'
    = (Ok (Some ids), w')
    /\ In file ids.
Proof.
  intros Hmax Hpage Hturns Hfile key w'. eexists. split.
  - unfold listSnapshots.
    rewrite list_pages_drains; [reflexivity | exact Hmax | exact Hpage |].
    cbn [default]. rewrite drop_0.
    rewrite (Permutation_length (merge_sort_Permutation _ _)).
    pose proof (List.filter_length_le
                  (String.prefix
                     (getKey basePath ["leagues"; leagueId; season; ""]))
                  (dict_keys (bucket w'))) as Hle.
    unfold dict_keys in Hle at 2. rewrite length_map in Hle.
    assert (Hlen : forall d : dict StoredObject,
              (length (dict_set key object d) <= S (length d))%nat).
    { induction d as [|[k v] d IH]; cbn [dict_set length]; [lia|].
      destruct (String.eqb _ k); cbn [length]; lia. }
    specialize (Hlen (bucket w)). unfold w' in *.
    cbn [bucket set_bucket] in *. lia.
  - cbn [app]. eapply listed_file; [exact Hfile|].
    unfold w'. cbn [bucket set_bucket]. apply dict_get_set_eq.
Qed.

(** X19.  A snapshot that was saved is listed: [listSnapshots] reports the
    id under which [getSnapshot] finds it (here for an id without a
    slash). *)
Theorem listSnapshots_lists_saved_snapshot (turns : nat)
    (leagueId season : string) (snapshot : OddsSnapshot) (w : World) :
  1 <= maxRetries -> (0 < page_size)%nat ->
  (S (length (bucket w)) < turns * page_size)%nat ->
  put_fails (snapshotKey basePath leagueId season snapshot) = false ->
  ~ In "/"%char (list_ascii_of_string (getSnapshotId snapshot)) ->
  exists ids w',
    bind (saveSnapshot basePath put_fails maxRetries leagueId season snapshot)
         (fun _ =>
            listSnapshots basePath maxRetries page_size turns leagueId season)
         w
    = (Ok (Some ids), w')
    /\ In (getSnapshotId snapshot) ids.
Proof.
  intros Hmax Hpage Hturns Hput Hid.
  destruct (listing_after_put turns leagueId season (getSnapshotId snapshot)
              (SnapshotObject snapshot) w Hmax Hpage Hturns Hid)
    as (ids & Hrun & Hin).
  exists ids. eexists. split; [|exact Hin].
  unfold bind. rewrite saveSnapshot_accepted by assumption.
  exact Hrun.
Qed.

(** X20.  The index files live beside the snapshots, so [listSnapshots]
    reports them as snapshot ids: after [saveIndex] the name of the index
    is in the list. *)
Theorem listSnapshots_reports_index_files (turns : nat)
    (leagueId season indexType : string) (index : StoredObject) (w : World) :
  1 <= maxRetries -> (0 < page_size)%nat ->
  (S (length (bucket w)) < turns * page_size)%nat ->
  put_fails (indexKey basePath leagueId season indexType) = false ->
  ~ In "/"%char (list_ascii_of_string indexType) ->
  exists ids w',
    bind (saveIndex basePath put_fails maxRetries leagueId season indexType
            index)
         (fun _ =>
            listSnapshots basePath maxRetries page_size turns leagueId season)
         w
    = (Ok (Some ids), w')
    /\ In indexType ids.
Proof.
  intros Hmax Hpage Hturns Hput Hid.
  destruct (listing_after_put turns leagueId season indexType index w
              Hmax Hpage Hturns Hid)
    as (ids & Hrun & Hin).
  exists ids. eexists. split; [|exact Hin].
  unfold bind. rewrite saveIndex_accepted by assumption.
  exact Hrun.
Qed.

End Listing.

(** ** core/IndexBuilder: lookups *)

Section Lookups.

Import R2Storage IndexBuilder.

Variable basePath : string.
Variable put_fails : string -> bool.

(** One turn of the loop of [updateMatchIndex] on the entry of the key it
    mentions. *)
Lemma upsert_mentioned matches snapshot :
  exists entry,
    dict_get (descriptor_key snapshot) (upsert matches snapshot) = Some entry
    /\ dict_get (desc_timing snapshot) (snapshots entry)
       = Some (desc_path snapshot).
Proof.
  unfold upsert. fold (descriptor_key snapshot).
  set (key := descriptor_key snapshot).
  unfold dict_has. destruct (dict_get key matches) as [entry|] eqn:Hget.
  - rewrite Hget. eexists. split; [apply dict_get_set_eq|].
    cbn [snapshots add_snapshot]. apply dict_get_set_eq.
  - rewrite dict_get_set_eq. eexists. split; [apply dict_get_set_eq|].
    cbn [snapshots add_snapshot]. apply dict_get_set_eq.
Qed.

(** One turn of the loop on an entry that exists. *)
Lemma upsert_entry matches snapshot k entry :
  dict_get k matches = Some entry ->
  exists entry',
    dict_get k (upsert matches snapshot) = Some entry'
    /\ entry_homeTeam entry' = entry_homeTeam entry
    /\ entry_awayTeam entry' = entry_awayTeam entry
    /\ entry_matchDate entry' = entry_matchDate entry
    /\ entry_eventId entry' = entry_eventId entry
    /\ entry_kickoffTime entry' = entry_kickoffTime entry
    /\ (forall timing,
          ~ (descriptor_key snapshot = k /\ desc_timing snapshot = timing) ->
          dict_get timing (snapshots entry')
          = dict_get timing (snapshots entry))
    /\ (forall timing,
          dict_has timing (snapshots entry) = true ->
          dict_has timing (snapshots entry') = true).
Proof.
  intros Hget.
  destruct (String.eqb_spec (descriptor_key snapshot) k) as [Hk|Hk].
  - unfold upsert. fold (descriptor_key snapshot). rewrite Hk.
    unfold dict_has. cbv zeta. rewrite !Hget. eexists.
    split; [apply dict_get_set_eq|]. cbn [entry_homeTeam entry_awayTeam
      entry_matchDate entry_eventId entry_kickoffTime snapshots add_snapshot].
    do 5 (split; [reflexivity|]). split.
    + intros timing Hnot. apply dict_get_set_ne. intros ->. apply Hnot.
      split; reflexivity.
    + intros timing.
      destruct (String.eqb_spec timing (desc_timing snapshot)) as [->|Hne].
      * intros _. rewrite dict_get_set_eq. reflexivity.
      * rewrite dict_get_set_ne by exact Hne. tauto.
  - exists entry. rewrite upsert_other by exact Hk.
    split; [exact Hget|].
    do 5 (split; [reflexivity|]). split; [reflexivity | tauto].
Qed.

Lemma fold_upsert_entry batch matches k entry :
  dict_get k matches = Some entry ->
  exists entry',
    dict_get k (fold_left upsert batch matches) = Some entry'
    /\ entry_homeTeam entry' = entry_homeTeam entry
    /\ entry_awayTeam entry' = entry_awayTeam entry
    /\ entry_matchDate entry' = entry_matchDate entry
    /\ entry_eventId entry' = entry_eventId entry
    /\ entry_kickoffTime entry' = entry_kickoffTime entry
    /\ (forall timing,
          (forall snapshot, In snapshot batch ->
             ~ (descriptor_key snapshot = k /\ desc_timing snapshot = timing)) ->
          dict_get timing (snapshots entry')
          = dict_get timing (snapshots entry))
    /\ (forall timing,
          dict_has timing (snapshots entry) = true ->
          dict_has timing (snapshots entry') = true).
Proof.
  revert matches entry. induction batch as [|snapshot batch IH];
    intros matches entry Hget.
  - exists entry. cbn [fold_left]. split; [exact Hget|].
    do 5 (split; [reflexivity|]). split; [reflexivity | tauto].
  - cbn [fold_left].
    destruct (upsert_entry matches snapshot k entry Hget)
      as (e1 & Hg1 & Hh1 & Ha1 & Hd1 & He1 & Hk1 & Hkeep1 & Hhas1).
    destruct (IH _ _ Hg1)
      as (e2 & Hg2 & Hh2 & Ha2 & Hd2 & He2 & Hk2 & Hkeep2 & Hhas2).
    exists e2. split; [exact Hg2|].
    do 5 (split; [congruence|]). split.
    + intros timing Hnot. rewrite Hkeep2, Hkeep1.
      * reflexivity.
      * apply Hnot. left. reflexivity.
      * intros s Hs. apply Hnot. right. exact Hs.
    + intros timing Hhas. apply Hhas2, Hhas1, Hhas.
Qed.

Lemma fold_upsert_latest before snapshot after matches :
  Forall (fun other =>
            ~ (descriptor_key other = descriptor_key snapshot
               /\ desc_timing other = desc_timing snapshot)) after ->
  exists entry,
    dict_get (descriptor_key snapshot)
      (fold_left upsert (before ++ snapshot :: after) matches) = Some entry
    /\ dict_get (desc_timing snapshot) (snapshots entry)
       = Some (desc_path snapshot).
Proof.
  intros Hafter. rewrite fold_left_app. cbn [fold_left].
  destruct (upsert_mentioned (fold_left upsert before matches) snapshot)
    as (e1 & Hg1 & Hp1).
  destruct (fold_upsert_entry after _ _ _ Hg1)
    as (e2 & Hg2 & _ & _ & _ & _ & _ & Hkeep & _).
  exists e2. split; [exact Hg2|]. rewrite Hkeep; [exact Hp1|].
  rewrite List.Forall_forall in Hafter. exact Hafter.
Qed.

(** X21.  After [updateMatchIndex], [lookupMatch] by the teams and date of
    a descriptor of the batch finds an entry, and the entry gives, for the
    descriptor's offset, the path of the last descriptor of the batch with
    that match and offset. *)
Theorem lookupMatch_finds_latest_path (leagueId season : string)
    (before : list SnapshotDescriptor) (snapshot : SnapshotDescriptor)
    (after : list SnapshotDescriptor) (w : World) :
  put_fails (indexKey basePath leagueId season "by_match") = false ->
  Forall (fun other =>
            ~ (descriptor_key other = descriptor_key snapshot
               /\ desc_timing other = desc_timing snapshot)) after ->
  exists entry w',
    bind (updateMatchIndex basePath put_fails leagueId season
            (before ++ snapshot :: after))
         (fun _ =>
            lookupMatch basePath leagueId season (desc_homeTeam snapshot)
              (desc_awayTeam snapshot) (desc_matchDate snapshot)) w
    = (Ok (Some entry), w')
    /\ dict_get (desc_timing snapshot) (snapshots entry)
       = Some (desc_path snapshot).
Proof.
  intros Hput Hafter.
  unfold bind at 1. unfold updateMatchIndex, bind, getIndex, now, gets,
    saveIndex. cbv zeta. rewrite put_with_retry, Hput.
  change (1 <=? default_maxRetries) with true. cbn [andb negb]. cbv iota.
  unfold lookupMatch, bind, getIndex, gets. cbn [bucket set_bucket].
  rewrite dict_get_set_eq. unfold ret. cbn [matches].
  match goal with
  | |- context [fold_left upsert _ ?m] =>
      destruct (fold_upsert_latest before snapshot after m Hafter)
        as (entry & Hget & Hpath)
  end.
  exists entry. eexists. split; [|exact Hpath].
  unfold descriptor_key in Hget. rewrite Hget. reflexivity.
Qed.

(** X22.  An entry the index already holds keeps its teams, date, event id
    and kickoff time through any batch, even when a descriptor for the
    same key says otherwise; it keeps the path of every offset the batch
    does not mention for that key, and it loses no offset. *)
Theorem updateMatchIndex_keeps_entry_identity (leagueId season : string)
    (batch : list SnapshotDescriptor) (w : World) (index : MatchIndex)
    (matchKey : string) (entry : MatchIndexEntry) :
  dict_get (indexKey basePath leagueId season "by_match") (bucket w)
  = Some (MatchIndexObject index) ->
  put_fails (indexKey basePath leagueId season "by_match") = false ->
  dict_get matchKey (matches index) = Some entry ->
  exists w' saved entry',
    updateMatchIndex basePath put_fails leagueId season batch w = (Ok tt, w')
    /\ dict_get (indexKey basePath leagueId season "by_match") (bucket w')
       = Some (MatchIndexObject saved)
    /\ dict_get matchKey (matches saved) = Some entry'
    /\ entry_homeTeam entry' = entry_homeTeam entry
    /\ entry_awayTeam entry' = entry_awayTeam entry
    /\ entry_matchDate entry' = entry_matchDate entry
    /\ entry_eventId entry' = entry_eventId entry
    /\ entry_kickoffTime entry' = entry_kickoffTime entry
    /\ (forall timing,
          (forall snapshot, In snapshot batch ->
             ~ (descriptor_key snapshot = matchKey
                /\ desc_timing snapshot = timing)) ->
          dict_get timing (snapshots entry')
          = dict_get timing (snapshots entry))
    /\ (forall timing,
          dict_has timing (snapshots entry) = true ->
          dict_has timing (snapshots entry') = true).
Proof.
  intros Hstored Hput Hentry.
  destruct (fold_upsert_entry batch _ _ _ Hentry) as (entry' & Hget & Hrest).
  unfold updateMatchIndex, bind, getIndex, now, gets, saveIndex. cbv zeta.
  rewrite put_with_retry, Hstored, Hput.
  change (1 <=? default_maxRetries) with true. cbn [andb negb]. cbv iota.
  eexists _, _, entry'. split; [reflexivity|].
  cbn [bucket set_bucket]. split; [apply dict_get_set_eq|].
  cbn [matches]. split; [exact Hget | exact Hrest].
Qed.

End Lookups.

(** ** core/IndexBuilder: the derived indexes *)

Lemma set_add_In (x t : string) (set : list string) :
  In t (IndexBuilder.set_add x set) <-> In t set \/ t = x.
Proof.
  unfold IndexBuilder.set_add. destruct (existsb (String.eqb x) set) eqn:Hex.
  - split; [tauto|]. intros [H| ->]; [exact H|].
    apply existsb_exists in Hex. destruct Hex as (y & Hy & Heq).
    apply String.eqb_eq in Heq. subst y. exact Hy.
  - rewrite in_app_iff. cbn [In]. intuition.
Qed.

Lemma set_add_NoDup (x : string) (set : list string) :
  List.NoDup set -> List.NoDup (IndexBuilder.set_add x set).
Proof.
  intros Hnd. unfold IndexBuilder.set_add.
  destruct (existsb (String.eqb x) set) eqn:Hex; [exact Hnd|].
  apply List.NoDup_app; [exact Hnd | repeat constructor; intros [] |].
  intros y Hy [Heq|[]]. subst y.
  assert (Hsome : existsb (String.eqb x) set = true).
  { apply existsb_exists. exists x. split; [exact Hy | apply String.eqb_refl]. }
  congruence.
Qed.

Lemma fold_set_add (timings set : list string) :
  let result := fold_left (fun set timing => IndexBuilder.set_add timing set)
                          timings set in
  (List.NoDup set -> List.NoDup result)
  /\ forall t, In t result <-> In t set \/ In t timings.
Proof.
  revert set. induction timings as [|x timings IH]; intros set; cbn [fold_left].
  - split; [tauto|]. intros t. cbn [In]. tauto.
  - destruct (IH (IndexBuilder.set_add x set)) as [Hnd Hin]. split.
    + intros H. apply Hnd, set_add_NoDup, H.
    + intros t. rewrite Hin, set_add_In. cbn [In]. intuition.
Qed.

#[local] Instance str_le_total : Total str_le.
Proof. intros a b. apply String.leb_total. Qed.

(** X23.  The offsets a date entry advertises are sorted, free of
    duplicates, and exactly the offsets that some listed match of the
    index has a snapshot for; keys the index does not hold are skipped. *)
Theorem getAvailableTimings_sorted_set (matchIndex : MatchIndex)
    (matchKeys : list string) :
  Sorted str_le (IndexBuilder.getAvailableTimings matchIndex matchKeys)
  /\ List.NoDup (IndexBuilder.getAvailableTimings matchIndex matchKeys)
  /\ forall timing,
       In timing (IndexBuilder.getAvailableTimings matchIndex matchKeys) <->
       exists matchKey entry,
         In matchKey matchKeys
         /\ dict_get matchKey (matches matchIndex) = Some entry
         /\ In timing (dict_keys (snapshots entry)).
Proof.
  unfold IndexBuilder.getAvailableTimings.
  set (step := fun (set : list string) (matchKey : string) =>
                 match dict_get matchKey (matches matchIndex) with
                 | Some entry =>
                     fold_left (fun set timing => IndexBuilder.set_add timing set)
                       (dict_keys (snapshots entry)) set
                 | None => set
                 end).
  assert (Hfold : forall keys set,
            (List.NoDup set -> List.NoDup (fold_left step keys set))
            /\ forall t, In t (fold_left step keys set) <->
                 In t set \/
                 exists matchKey entry,
                   In matchKey keys
                   /\ dict_get matchKey (matches matchIndex) = Some entry
                   /\ In t (dict_keys (snapshots entry))).
  { induction keys as [|k keys IH]; intros set; cbn [fold_left].
    - split; [tauto|]. intros t. split; [tauto|].
      intros [H|(k & e & [] & _)]. exact H.
    - destruct (IH (step set k)) as [Hnd Hin]. split.
      + intros H. apply Hnd. unfold step.
        destruct (dict_get k (matches matchIndex)) as [e|]; [|exact H].
        apply fold_set_add. exact H.
      + intros t. rewrite Hin. unfold step at 1.
        destruct (dict_get k (matches matchIndex)) as [e|] eqn:Hk.
        * rewrite (proj2 (fold_set_add (dict_keys (snapshots e)) set)).
          split.
          -- intros [[H|H]|(k' & e' & Hk' & Hg & Ht)]; [tauto | |].
             ++ right. exists k, e. cbn [In]. tauto.
             ++ right. exists k', e'. cbn [In]. tauto.
          -- intros [H|(k' & e' & [<-|Hk'] & Hg & Ht)]; [tauto | |].
             ++ left. right. congruence.
             ++ right. exists k', e'. tauto.
        * split.
          -- intros [H|(k' & e' & Hk' & Hg & Ht)]; [tauto|].
             right. exists k', e'. cbn [In]. tauto.
          -- intros [H|(k' & e' & [<-|Hk'] & Hg & Ht)]; [tauto | congruence |].
             right. exists k', e'. tauto. }
  destruct (Hfold matchKeys []) as [Hnd Hin].
  split; [apply Sorted_merge_sort; apply _|]. split.
  - apply NoDup_ListNoDup. rewrite merge_sort_Permutation.
    apply NoDup_ListNoDup, Hnd. constructor.
  - intros timing. rewrite <- list_elem_of_In, merge_sort_Permutation.
    rewrite list_elem_of_In, Hin. cbn [In]. tauto.
Qed.

(** *** Grouping *)

Lemma fold_left_ext {A B} (f g : A -> B -> A) (l : list B) (a : A) :
  (forall a b, f a b = g a b) -> fold_left f l a = fold_left g l a.
Proof.
  intros H. revert a. induction l as [|b l IH]; intros a; [reflexivity|].
  cbn [fold_left]. rewrite H. apply IH.
Qed.

Lemma dict_keys_set {V} (k : string) (v : V) (d : dict V) :
  dict_keys (dict_set k v d)
  = if dict_has k d then dict_keys d else dict_keys d ++ [k].
Proof.
  unfold dict_keys, dict_has. induction d as [|[k' v'] d IH];
    cbn [dict_set dict_get map fst]; [reflexivity|].
  destruct (String.eqb k k'); [reflexivity|].
  cbn [map fst]. rewrite IH.
  destruct (dict_get k d); reflexivity.
Qed.

Lemma dict_get_None_keys {V} (k : string) (d : dict V) :
  dict_get k d = None <-> ~ In k (dict_keys d).
Proof.
  unfold dict_keys. induction d as [|[k' v] d IH]; cbn [dict_get map fst In].
  - tauto.
  - destruct (String.eqb_spec k k') as [->|Hne].
    + split; [discriminate | tauto].
    + rewrite IH. split; [intros H [Heq|Hin]; [congruence | tauto] | tauto].
Qed.

Lemma dict_set_NoDup {V} (k : string) (v : V) (d : dict V) :
  List.NoDup (dict_keys d) -> List.NoDup (dict_keys (dict_set k v d)).
Proof.
  intros Hnd. rewrite dict_keys_set. unfold dict_has.
  destruct (dict_get k d) eqn:Hget; [exact Hnd|].
  apply List.NoDup_app; [exact Hnd | repeat constructor; intros [] |].
  intros y Hy [Heq|[]]. subst y. apply dict_get_None_keys in Hget. tauto.
Qed.

Lemma push_to_NoDup (group matchKey : string) (map : dict (list string)) :
  List.NoDup (dict_keys map) ->
  List.NoDup (dict_keys (IndexBuilder.push_to group matchKey map)).
Proof.
  intros H. unfold IndexBuilder.push_to.
  destruct (dict_get group map); apply dict_set_NoDup, H.
Qed.

(** What a group of the map holds after pushing a list of
    (group, match key) pairs in order. *)
Lemma fold_push_get (pushes : list (string * string))
    (map : dict (list string)) (group : string) :
  let pushed :=
    List.map snd (List.filter (fun p => String.eqb (fst p) group) pushes) in
  let result :=
    fold_left (fun map p => IndexBuilder.push_to (fst p) (snd p) map)
      pushes map in
  (List.NoDup (dict_keys map) -> List.NoDup (dict_keys result))
  /\ dict_get group result
     = match dict_get group map, pushed with
       | None, [] => None
       | None, _ => Some pushed
       | Some held, _ => Some (held ++ pushed)
       end.
Proof.
  revert map. induction pushes as [|[g k] pushes IH]; intros map;
    cbn [fold_left List.filter List.map fst snd].
  - split; [tauto|]. destruct (dict_get group map) as [held|];
      [rewrite app_nil_r|]; reflexivity.
  - destruct (IH (IndexBuilder.push_to g k map)) as [Hnd Hget]. split.
    + intros H. apply Hnd, push_to_NoDup, H.
    + cbv zeta in Hget. rewrite Hget. clear Hget Hnd IH.
      unfold IndexBuilder.push_to.
      destruct (String.eqb_spec g group) as [->|Hne].
      * cbn [List.map snd].
        destruct (dict_get group map) as [held|];
          rewrite dict_get_set_eq; [rewrite <- app_assoc|]; reflexivity.
      * assert (Hother : forall v : list string,
                  dict_get group (dict_set g v map) = dict_get group map).
        { intros v. apply dict_get_set_ne. congruence. }
        destruct (dict_get g map); rewrite Hother; reflexivity.
Qed.

(** What the table built from the groups holds. *)
Lemma fold_set_get {V E} (make : string * V -> E) (map : dict V)
    (table : dict E) (group : string) :
  List.NoDup (dict_keys map) ->
  dict_get group
    (fold_left (fun table p => dict_set (fst p) (make p) table) map table)
  = match dict_get group map with
    | Some held => Some (make (group, held))
    | None => dict_get group table
    end.
Proof.
  revert table. induction map as [|[g v] map IH]; intros table Hnd;
    cbn [fold_left fst]; [reflexivity|].
  cbn [dict_keys List.map fst] in Hnd. apply List.NoDup_cons_iff in Hnd.
  destruct Hnd as [Hnotin Hnd]. rewrite (IH _ Hnd). cbn [dict_get].
  destruct (String.eqb_spec group g) as [->|Hne].
  - apply dict_get_None_keys in Hnotin. rewrite Hnotin.
    apply dict_get_set_eq.
  - destruct (dict_get group map); [reflexivity|].
    apply dict_get_set_ne. exact Hne.
Qed.

Section DerivedIndexes.

Import R2Storage IndexBuilder PathUtils.

Variable basePath : string.
Variable put_fails : string -> bool.

Lemma date_pushes (entries : dict MatchIndexEntry) (date : string) :
  List.map snd
    (List.filter (fun p => String.eqb (fst p) date)
       (List.map (fun x => (entry_matchDate (snd x), fst x)) entries))
  = List.map fst
      (List.filter (fun x => String.eqb (entry_matchDate (snd x)) date)
         entries).
Proof.
  induction entries as [|[k e] entries IH]; [reflexivity|].
  cbn [List.map List.filter fst snd].
  destruct (String.eqb (entry_matchDate e) date); cbn [List.map fst snd];
    rewrite IH; reflexivity.
Qed.

(** X24.  After [buildDateIndex], [getMatchesForDate] returns the keys of
    exactly the matches of the match index that are played on that date,
    in the order of the match index, and the stored entry counts them. *)
Theorem getMatchesForDate_after_buildDateIndex (leagueId season date : string)
    (w : World) (matchIndex : MatchIndex) :
  dict_get (indexKey basePath leagueId season "by_match") (bucket w)
  = Some (MatchIndexObject matchIndex) ->
  put_fails (indexKey basePath leagueId season "by_date") = false ->
  let played :=
    List.map fst
      (List.filter (fun x => String.eqb (entry_matchDate (snd x)) date)
         (matches matchIndex)) in
  exists w' dateIndex,
    bind (buildDateIndex basePath put_fails leagueId season)
         (fun _ => getMatchesForDate basePath leagueId season date) w
    = (Ok played, w')
    /\ dict_get (indexKey basePath leagueId season "by_date") (bucket w')
       = Some (DateIndexObject dateIndex)
    /\ match dict_get date (dates dateIndex) with
       | Some entry =>
           date_matches entry = played
           /\ date_matchCount entry = Z.of_nat (length played)
           /\ played <> []
       | None => played = []
       end.
Proof.
  intros Hstored Hput played.
  unfold bind at 1.
  unfold buildDateIndex, bind, getIndex, now, gets, saveIndex. cbv zeta.
  rewrite Hstored, put_with_retry, Hput.
  change (1 <=? default_maxRetries) with true. cbn [andb negb]. cbv iota.
  unfold getMatchesForDate, bind, R2Storage.getIndexObject, gets.
  cbn [bucket set_bucket]. rewrite dict_get_set_eq.
  set (dateMap :=
         fold_left
           (fun map p => push_to (fst p) (snd p) map)
           (List.map (fun x => (entry_matchDate (snd x), fst x))
              (matches matchIndex)) []).
  assert (Hmap : fold_left
                   (fun dateMap '(matchKey, entry) =>
                      push_to (entry_matchDate entry) matchKey dateMap)
                   (matches matchIndex) [] = dateMap).
  { unfold dateMap. generalize (@nil (string * list string)).
    induction (matches matchIndex) as [|[k e] l IH]; intros acc;
      [reflexivity|]. cbn [fold_left List.map fst snd]. apply IH. }
  destruct (fold_push_get
              (List.map (fun x => (entry_matchDate (snd x), fst x))
                 (matches matchIndex)) [] date) as [Hnd Hget].
  fold dateMap in Hnd, Hget. rewrite date_pushes in Hget. fold played in Hget.
  cbn [dict_get] in Hget. specialize (Hnd (List.NoDup_nil _)).
  set (make := fun p : string * list string =>
                 {| date_matchCount := Z.of_nat (length (snd p));
                    date_matches := snd p;
                    snapshotTimingsAvailable :=
                      getAvailableTimings matchIndex (snd p) |}).
  assert (Hdates : dates (date_index_of matchIndex leagueId season (clock w))
                   = fold_left (fun table p => dict_set (fst p) (make p) table)
                       dateMap []).
  { unfold date_index_of. cbn [dates]. rewrite Hmap.
    apply fold_left_ext. intros a [d ks]. reflexivity. }
  pose proof (fold_set_get make dateMap [] date Hnd) as Hentry.
  rewrite <- Hdates in Hentry. cbn [dict_get] in Hentry.
  exists (set_bucket
            (dict_set (indexKey basePath leagueId season "by_date")
               (DateIndexObject
                  (date_index_of matchIndex leagueId season (clock w)))
               (bucket w)) w),
         (date_index_of matchIndex leagueId season (clock w)).
  split; [|split].
  - rewrite Hentry, Hget. destruct played; reflexivity.
  - cbn [bucket set_bucket]. apply dict_get_set_eq.
  - rewrite Hentry, Hget. destruct played; [reflexivity|].
    cbn [make date_matches date_matchCount snd]. repeat split. discriminate.
Qed.

Lemma team_pushes (entries : dict MatchIndexEntry) (team : string) :
  List.map snd
    (List.filter (fun p => String.eqb (fst p) team)
       (flat_map
          (fun x =>
             [(formatTeamNameForPath (entry_homeTeam (snd x)), fst x);
              (formatTeamNameForPath (entry_awayTeam (snd x)), fst x)])
          entries))
  = flat_map
      (fun x =>
         (if String.eqb (formatTeamNameForPath (entry_homeTeam (snd x))) team
          then [fst x] else [])
         ++ (if String.eqb (formatTeamNameForPath (entry_awayTeam (snd x))) team
             then [fst x] else []))
      entries.
Proof.
  induction entries as [|[k e] entries IH]; [reflexivity|].
  cbn [flat_map app List.filter fst snd].
  destruct (String.eqb (formatTeamNameForPath (entry_homeTeam e)) team),
           (String.eqb (formatTeamNameForPath (entry_awayTeam e)) team);
    cbn [List.map app fst snd]; rewrite IH; reflexivity.
Qed.

(** X25.  After [buildAllIndexes], [getMatchesForTeam] returns, for a team
    name in any spelling of its white space, the keys of the matches in
    which the formatted name is the home side or the away side, in the
    order of the match index; a match whose two sides format to the same
    name is listed twice. *)
Theorem getMatchesForTeam_after_buildTeamIndex
    (leagueId season teamName : string) (w : World)
    (matchIndex : MatchIndex) :
  dict_get (indexKey basePath leagueId season "by_match") (bucket w)
  = Some (MatchIndexObject matchIndex) ->
  put_fails (indexKey basePath leagueId season "by_date") = false ->
  put_fails (indexKey basePath leagueId season "by_team") = false ->
  let team := formatTeamNameForPath teamName in
  let played :=
    flat_map
      (fun x =>
         (if String.eqb (formatTeamNameForPath (entry_homeTeam (snd x))) team
          then [fst x] else [])
         ++ (if String.eqb (formatTeamNameForPath (entry_awayTeam (snd x))) team
             then [fst x] else []))
      (matches matchIndex) in
  exists w',
    bind (buildAllIndexes basePath put_fails leagueId season)
         (fun _ => getMatchesForTeam basePath leagueId season teamName) w
    = (Ok played, w')
    /\ bind (buildAllIndexes basePath put_fails leagueId season)
            (fun _ => getMatchesForTeam basePath leagueId season team) w
       = (Ok played, w').
Proof.
  intros Hstored Hputd Hputt team played.
  assert (Hsame : formatTeamNameForPath team = team).
  { apply replace_spaces_twice. }
  unfold bind at 1 2.
  unfold buildAllIndexes, buildDateIndex, buildTeamIndex, bind, getIndex, now,
    gets, saveIndex. cbv zeta.
  rewrite Hstored, put_with_retry, Hputd.
  change (1 <=? default_maxRetries) with true. cbn [andb negb]. cbv iota.
  cbn [bucket set_bucket clock].
  rewrite dict_get_set_ne by apply by_match_not_by_date.
  rewrite Hstored, put_with_retry, Hputt.
  change (1 <=? default_maxRetries) with true. cbn [andb negb]. cbv iota.
  unfold getMatchesForTeam, bind, R2Storage.getIndexObject, gets.
  cbn [bucket set_bucket clock]. rewrite dict_get_set_eq.
  rewrite Hsame. fold team.
  set (pushes :=
         flat_map
           (fun x : string * MatchIndexEntry =>
              [(formatTeamNameForPath (entry_homeTeam (snd x)), fst x);
               (formatTeamNameForPath (entry_awayTeam (snd x)), fst x)])
           (matches matchIndex)).
  set (teamMap := fold_left (fun map p => push_to (fst p) (snd p) map) pushes []).
  assert (Hmap : fold_left
                   (fun teamMap '(matchKey, entry) =>
                      push_to (formatTeamNameForPath (entry_awayTeam entry))
                        matchKey
                        (push_to (formatTeamNameForPath (entry_homeTeam entry))
                           matchKey teamMap))
                   (matches matchIndex) [] = teamMap).
  { unfold teamMap, pushes. generalize (@nil (string * list string)).
    induction (matches matchIndex) as [|[k e] l IH]; intros acc;
      [reflexivity|]. cbn [fold_left flat_map app fst snd]. apply IH. }
  destruct (fold_push_get pushes [] team) as [Hnd Hget].
  fold teamMap in Hnd, Hget. unfold pushes in Hget.
  rewrite team_pushes in Hget. fold played in Hget.
  cbn [dict_get] in Hget. specialize (Hnd (List.NoDup_nil _)).
  set (make := fun p : string * list string =>
                 {| team_matchCount := Z.of_nat (length (snd p));
                    team_matches := snd p |}).
  assert (Hteams : teams (team_index_of matchIndex leagueId season (clock w))
                   = fold_left (fun table p => dict_set (fst p) (make p) table)
                       teamMap []).
  { unfold team_index_of. cbn [teams]. cbv zeta. rewrite Hmap.
    apply fold_left_ext. intros a [d ks]. reflexivity. }
  pose proof (fold_set_get make teamMap [] team Hnd) as Hentry.
  rewrite <- Hteams in Hentry. cbn [dict_get] in Hentry.
  eexists. rewrite Hentry, Hget.
  split; destruct played; reflexivity.
Qed.

End DerivedIndexes.

(** ** core/OddsCollector: discovery *)

Section DiscoveryRows.

Import JobScheduler OddsCollector.

Variable this : Collector.

Lemma for_of_preorder_in {A} (R : relation World)
    `{!Reflexive R, !Transitive R} (body : A -> M unit) (l : list A) :
  (forall x w r w', In x l -> body x w = (r, w') -> R w w') ->
  forall w r w', for_of l body w = (r, w') -> R w w'.
Proof.
  induction l as [|x l IH]; intros Hbody w r w' Hrun.
  - cbn in Hrun. inversion Hrun. reflexivity.
  - cbn [for_of] in Hrun. unfold bind in Hrun.
    destruct (body x w) as [[[]|e] w1] eqn:Hx.
    + transitivity w1.
      * exact (Hbody _ _ _ _ (or_introl eq_refl) Hx).
      * apply (IH (fun y w0 r0 w0' Hy => Hbody y w0 r0 w0' (or_intror Hy))
                 _ _ _ Hrun).
    + inversion Hrun; subst. exact (Hbody _ _ _ _ (or_introl eq_refl) Hx).
Qed.

#[local] Instance extends_with_refl good : Reflexive (extends_with good).
Proof.
  intros w. split; [|tauto]. exists []. rewrite app_nil_r.
  split; [reflexivity | constructor].
Qed.

#[local] Instance extends_with_trans good : Transitive (extends_with good).
Proof.
  intros w1 w2 w3 [(a1 & H1 & G1) (N1 & B1 & M1)] [(a2 & H2 & G2) (N2 & B2 & M2)].
  split; [|split; [tauto | split; congruence]].
  exists (a1 ++ a2). rewrite H2, H1, app_assoc. split; [reflexivity|].
  apply Forall_app. split; assumption.
Qed.

Lemma extends_with_same good (w w' : World) :
  jobs w' = jobs w -> bucket w' = bucket w -> metricsRows w' = metricsRows w ->
  extends_with good w w'.
Proof.
  intros Hj Hb Hm. split; [|rewrite Hj; tauto].
  exists []. rewrite app_nil_r. split; [exact Hj | constructor].
Qed.

Lemma schedule_timing_extends started league event timing w r w' :
  In timing (timings this) ->
  schedule_timing this started league event timing w = (r, w') ->
  extends_with (discovered (map name (timings this)) started) w w'.
Proof.
  intros Htiming.
  unfold schedule_timing, bind, lift_result, getJob, gets, scheduleJob, ret.
  destruct (PathUtils.calculateScheduledTime _ _ _) as [t|e];
    [|intros H; inversion H; reflexivity].
  destruct (Z.ltb_spec t started) as [Hpast|Hfuture];
    [intros H; inversion H; reflexivity|].
  destruct (select_by_id _ (jobs w)) eqn:Hsel;
    [intros H; inversion H; reflexivity|].
  rewrite insert_fresh by exact Hsel.
  intros H; inversion H; subst. cbn [jobs set_jobs].
  split; [|split; [|split; reflexivity]].
  - eexists. split; [reflexivity|]. constructor; [|constructor].
    unfold discovered, keyed. cbn.
    repeat (split; [first [reflexivity | assumption]|]).
    apply in_map. exact Htiming.
  - cbn [jobs set_jobs]. intros Hnd. rewrite map_app. apply NoDup_app.
    split; [exact Hnd|]. split; [|apply NoDup_singleton].
    intros i Hi Hnew. apply list_elem_of_In in Hi.
    apply list_elem_of_singleton in Hnew. subst i.
    apply select_by_id_None in Hsel. apply Hsel. exact Hi.
Qed.

Lemma discover_league_extends started entry w r w' :
  discover_league this started entry w = (r, w') ->
  extends_with (discovered (map name (timings this)) started) w w'.
Proof.
  rewrite discover_league_unfold.
  destruct (fetchEvents this _) as [events|e];
    [|intros H; inversion H; subst; apply extends_with_same; reflexivity].
  destruct (schedule_events this _ _ _ w) as [r1 w1] eqn:Hloop.
  assert (Hext : extends_with (discovered (map name (timings this)) started)
                   w w1).
  { revert Hloop. unfold schedule_events.
    apply (for_of_preorder (extends_with _)). intros event.
    apply (for_of_preorder_in (extends_with _)). intros timing w0 r0 w0'.
    apply schedule_timing_extends. }
  destruct r1 as [[]|e]; intros H; inversion H; subst;
    (transitivity w1; [exact Hext | apply extends_with_same; reflexivity]).
Qed.

Lemma for_of_ok {A} (body : A -> M unit) (l : list A) :
  (forall x w, fst (body x w) = Ok tt) ->
  forall w, fst (for_of l body w) = Ok tt.
Proof.
  intros Hbody. induction l as [|x l IH]; intros w; [reflexivity|].
  cbn [for_of]. unfold bind. pose proof (Hbody x w) as Hx.
  destruct (body x w) as [r1 w1]. cbn [fst] in Hx. subst r1. apply IH.
Qed.

(** X26.  Discovery never raises and only ever appends to the queue: every
    row it adds is pending with no attempt, carries the id of its (event,
    offset) pair and one of the configured offsets, and is scheduled no
    earlier than the start of the pass; the rows that were there are kept
    as they are and in place, unique ids stay unique, and neither the
    bucket nor the recorded metrics change. *)
Theorem discoverEvents_appends_pending_jobs (w : World) :
  exists w' added,
    discoverEvents this w = (Ok tt, w')
    /\ jobs w' = jobs w ++ added
    /\ Forall (discovered (map name (timings this)) (clock w)) added
    /\ (NoDup (map id (jobs w)) -> NoDup (map id (jobs w')))
    /\ bucket w' = bucket w /\ metricsRows w' = metricsRows w.
Proof.
  unfold discoverEvents, bind, now, gets.
  pose proof (for_of_ok (discover_league this (clock w)) (leagues this)
                (discover_league_ok this (clock w)) w) as Hok.
  destruct (for_of (leagues this) (discover_league this (clock w)) w)
    as [r w'] eqn:Hrun.
  cbn [fst] in Hok. subst r.
  apply (for_of_preorder
           (extends_with (discovered (map name (timings this)) (clock w))))
    in Hrun.
  - destruct Hrun as [(added & Hjobs & Hgood) (Hnd & Hb & Hm)].
    exists w', added. tauto.
  - intros entry w0 r0 w0'. apply discover_league_extends.
Qed.

End DiscoveryRows.

(** ** core/OddsCollector: leagues that fail or are removed *)

Lemma blind_bind {A B} (m : M A) (k : A -> M B) :
  console_blind m -> (forall a, console_blind (k a)) ->
  console_blind (bind m k).
Proof.
  intros Hm Hk w. unfold bind. destruct (Hm w) as [Hr Hw].
  destruct (m (mute w)) as [r1 w1], (m w) as [r2 w2]. cbn [fst snd] in *.
  subst r2. destruct r1 as [a|e]; [|split; [reflexivity | exact Hw]].
  destruct (Hk a w1) as [H1 H1'], (Hk a w2) as [H2 H2'].
  rewrite <- H1, <- H1', <- H2, <- H2', Hw. split; reflexivity.
Qed.

Lemma blind_try_catch {A} (m : M A) (h : string -> M A) :
  console_blind m -> (forall e, console_blind (h e)) ->
  console_blind (try_catch m h).
Proof.
  intros Hm Hh w. unfold try_catch. destruct (Hm w) as [Hr Hw].
  destruct (m (mute w)) as [r1 w1], (m w) as [r2 w2]. cbn [fst snd] in *.
  subst r2. destruct r1 as [a|e]; [split; [reflexivity | exact Hw]|].
  destruct (Hh e w1) as [H1 H1'], (Hh e w2) as [H2 H2'].
  rewrite <- H1, <- H1', <- H2, <- H2', Hw. split; reflexivity.
Qed.

Lemma blind_for_of {A} (body : A -> M unit) (l : list A) :
  (forall x, console_blind (body x)) -> console_blind (for_of l body).
Proof.
  intros Hbody. induction l as [|x l IH]; cbn [for_of].
  - intros w. split; reflexivity.
  - apply blind_bind; [apply Hbody | intros _; exact IH].
Qed.

Lemma blind_same {A} (m : M A) (w1 w2 : World) :
  console_blind m -> mute w1 = mute w2 ->
  fst (m w1) = fst (m w2) /\ mute (snd (m w1)) = mute (snd (m w2)).
Proof.
  intros Hm Hw. destruct (Hm w1) as [<- <-], (Hm w2) as [<- <-].
  rewrite Hw. split; reflexivity.
Qed.

Lemma for_of_app {A} (body : A -> M unit) (l1 l2 : list A) (w : World) :
  for_of (l1 ++ l2) body w
  = bind (for_of l1 body) (fun _ => for_of l2 body) w.
Proof.
  revert w. induction l1 as [|x l1 IH]; intros w; cbn [app for_of].
  - reflexivity.
  - unfold bind in *. destruct (body x w) as [[[]|e] w1]; [apply IH | reflexivity].
Qed.

(** Deleting the key of an entry from a dictionary with unique keys takes
    out that entry and nothing else. *)
Lemma dict_remove_unique {V} (k : string) (v : V) (d : dict V) :
  List.NoDup (dict_keys d) -> dict_get k d = Some v ->
  exists before after,
    d = before ++ (k, v) :: after /\ dict_remove k d = before ++ after.
Proof.
  unfold dict_keys, dict_remove.
  induction d as [|[k0 v0] d IH]; [discriminate|].
  cbn [map fst dict_get List.filter]. intros Hnd Hget.
  apply List.NoDup_cons_iff in Hnd. destruct Hnd as [Hnotin Hnd].
  destruct (String.eqb_spec k k0) as [<-|Hne]; cbn [negb].
  - injection Hget as ->. exists [], d. split; [reflexivity|].
    cbn [app]. clear IH Hnd. induction d as [|[k1 v1] d IH]; [reflexivity|].
    cbn [List.filter fst map In] in *.
    destruct (String.eqb_spec k k1) as [->|_]; [tauto|].
    cbn [negb]. rewrite IH by tauto. reflexivity.
  - destruct (IH Hnd Hget) as (before & after & Hd & Hrem).
    exists ((k0, v0) :: before), after. cbn [app].
    rewrite <- Hd, <- Hrem. split; reflexivity.
Qed.

Section LeagueIsolation.

Import JobScheduler OddsCollector.

Variable this : Collector.

Lemma blind_schedule_timing started league event timing :
  console_blind (schedule_timing this started league event timing).
Proof.
  intros w.
  unfold schedule_timing, bind, lift_result, getJob, gets, scheduleJob, ret.
  destruct (PathUtils.calculateScheduledTime _ _ _) as [t|e];
    [|split; reflexivity].
  destruct (t <? started); [split; reflexivity|].
  cbn [mute jobs clock].
  destruct (select_by_id _ (jobs w)); [split; reflexivity|].
  destruct (insert _ _ _); split; reflexivity.
Qed.

Lemma blind_discover_league started entry :
  console_blind (discover_league this started entry).
Proof.
  destruct entry as [leagueId league]. unfold discover_league.
  apply blind_try_catch.
  - apply blind_bind; [intros w; split; reflexivity|]. intros events.
    apply blind_bind.
    + apply blind_for_of. intros event. apply blind_for_of. intros timing.
      apply blind_schedule_timing.
    + intros _ w. split; reflexivity.
  - intros e w. split; reflexivity.
Qed.

#[local] Instance console_grows_refl : Reflexive console_grows.
Proof. intros w. exists []. rewrite app_nil_r. reflexivity. Qed.

#[local] Instance console_grows_trans : Transitive console_grows.
Proof.
  intros w1 w2 w3 [m1 H1] [m2 H2]. exists (m1 ++ m2).
  rewrite H2, H1, app_assoc. reflexivity.
Qed.

Lemma schedule_timing_console started league event timing w r w' :
  schedule_timing this started league event timing w = (r, w') ->
  console_grows w w'.
Proof.
  unfold schedule_timing, bind, lift_result, getJob, gets, scheduleJob, ret.
  destruct (PathUtils.calculateScheduledTime _ _ _) as [t|e];
    [|intros H; inversion H; reflexivity].
  destruct (t <? started); [intros H; inversion H; reflexivity|].
  destruct (select_by_id _ (jobs w)); [intros H; inversion H; reflexivity|].
  destruct (insert _ _ _); intros H; inversion H; subst;
    exists []; rewrite app_nil_r; reflexivity.
Qed.

Lemma discover_league_console started entry w r w' :
  discover_league this started entry w = (r, w') -> console_grows w w'.
Proof.
  rewrite discover_league_unfold.
  destruct (fetchEvents this _) as [events|e];
    [|intros H; inversion H; subst; eexists; reflexivity].
  destruct (schedule_events this _ _ _ w) as [r1 w1] eqn:Hloop.
  assert (Hgrow : console_grows w w1).
  { revert Hloop. unfold schedule_events.
    apply (for_of_preorder console_grows). intros event.
    apply (for_of_preorder console_grows). intros timing.
    apply schedule_timing_console. }
  destruct r1 as [[]|e]; intros H; inversion H; subst;
    (transitivity w1; [exact Hgrow|]).
  - exists []. rewrite app_nil_r. reflexivity.
  - eexists. reflexivity.
Qed.

(** X27.  A league whose events request fails contributes nothing but a
    line on the error console: the pass leaves the queue, the clock, the
    bucket and the metrics exactly as a pass of a collector from which the
    league has been removed, and the failure is on the console. *)
Theorem discoverEvents_skips_failing_league (leagueId : string)
    (league : LeagueConfig) (error : string) (w : World) :
  List.NoDup (dict_keys (leagues this)) ->
  dict_get leagueId (leagues this) = Some league ->
  fetchEvents this (providerKey league) = Throw error ->
  mute (snd (discoverEvents this w))
  = mute (snd (discoverEvents (removeLeague this leagueId) w))
  /\ In ("Failed to discover events for " +:+ leagueId +:+ ": " +:+ error)
        (console_error (snd (discoverEvents this w))).
Proof.
  intros Hnd Hget Hfetch.
  destruct (dict_remove_unique _ _ _ Hnd Hget) as (before & after & Hall & Hrem).
  unfold discoverEvents, bind, now, gets.
  change (leagues (removeLeague this leagueId))
    with (dict_remove leagueId (leagues this)).
  change (discover_league (removeLeague this leagueId))
    with (discover_league this).
  rewrite Hrem, Hall, !for_of_app. unfold bind.
  pose proof (for_of_ok (discover_league this (clock w)) before
                (discover_league_ok this (clock w)) w) as Hok.
  destruct (for_of before (discover_league this (clock w)) w) as [r1 w1].
  cbn [fst] in Hok. subst r1. cbn [for_of]. unfold bind.
  rewrite (discover_league_unfold this (clock w) (leagueId, league) w1).
  cbn [fst snd]. rewrite Hfetch. unfold log_error, modify.
  set (line := "Failed to discover events for " +:+ leagueId +:+ ": " +:+ error).
  set (w2 := {| clock := clock w1; jobs := jobs w1;
                metricsRows := metricsRows w1; bucket := bucket w1;
                console_error := console_error w1 ++ [line];
                metricsMap := metricsMap w1 |}).
  split.
  - apply (blind_same (for_of after (discover_league this (clock w))) w2 w1).
    + apply blind_for_of. intros entry. apply blind_discover_league.
    + reflexivity.
  - destruct (for_of after (discover_league this (clock w)) w2) as [r3 w3] eqn:Hrun.
    apply (for_of_preorder console_grows) in Hrun.
    + destruct Hrun as [more Hmore]. cbn [snd]. rewrite Hmore.
      apply in_or_app. left. unfold w2. cbn [console_error].
      apply in_or_app. right. left. reflexivity.
    + intros entry w0 r0 w0'. apply discover_league_console.
Qed.

End LeagueIsolation.

(** ** core/OddsCollector: one turn of the execution loop *)

Lemma counted_set_present (k : string) (v v0 : CollectionMetrics)
    (d : dict CollectionMetrics) :
  dict_get k d = Some v0 ->
  jobs_counted (map snd (dict_set k v d))
  = jobs_counted (map snd d) - (jobsCompleted v0 + jobsFailed v0)
    + (jobsCompleted v + jobsFailed v).
Proof.
  induction d as [|[k' v'] d IH]; [discriminate|].
  cbn [dict_get dict_set]. destruct (String.eqb k k').
  - intros [= ->]. cbn [map snd jobs_counted fold_right]. lia.
  - intros H. cbn [map snd jobs_counted fold_right].
    change (fold_right _ 0 (map snd (dict_set k v d)))
      with (jobs_counted (map snd (dict_set k v d))).
    rewrite (IH H). unfold jobs_counted. lia.
Qed.

Lemma counted_set_absent (k : string) (v : CollectionMetrics)
    (d : dict CollectionMetrics) :
  dict_get k d = None ->
  jobs_counted (map snd (dict_set k v d))
  = jobs_counted (map snd d) + (jobsCompleted v + jobsFailed v).
Proof.
  induction d as [|[k' v'] d IH].
  - intros _. cbn. lia.
  - cbn [dict_get dict_set]. destruct (String.eqb k k'); [discriminate|].
    intros H. cbn [map snd jobs_counted fold_right].
    change (fold_right _ 0 (map snd (dict_set k v d)))
      with (jobs_counted (map snd (dict_set k v d))).
    rewrite (IH H). unfold jobs_counted. lia.
Qed.

Section Accounting.

Import JobScheduler OddsCollector.

Variable this : Collector.

(** Updating the metrics of a league counts one more job, whether the
    entry of the day exists or has to be created. *)
Lemma update_metrics_effect (leagueId : string)
    (f : CollectionMetrics -> CollectionMetrics) (w : World) :
  (forall m, jobsCompleted (f m) + jobsFailed (f m)
             = jobsCompleted m + jobsFailed m + 1) ->
  exists recorded,
    update_metrics leagueId f w = (Ok tt, set_metricsMap recorded w)
    /\ jobs_counted (map snd recorded)
       = jobs_counted (map snd (metricsMap w)) + 1.
Proof.
  intros Hf. unfold update_metrics, bind, now, gets, modify.
  set (today := split_head "T" (JsDate.toISOString (clock w))).
  set (key := leagueId +:+ "_" +:+ today).
  unfold dict_has. destruct (dict_get key (metricsMap w)) as [m0|] eqn:Hget.
  - rewrite Hget. eexists. split; [reflexivity|].
    rewrite (counted_set_present _ _ _ _ Hget), Hf. lia.
  - rewrite dict_get_set_eq, dict_set_twice. eexists. split; [reflexivity|].
    rewrite (counted_set_absent _ _ _ Hget), Hf. cbn. lia.
Qed.

Lemma count_completed_one (marketCount : Z) (m : CollectionMetrics) :
  jobsCompleted (count_completed marketCount m)
  + jobsFailed (count_completed marketCount m)
  = jobsCompleted m + jobsFailed m + 1.
Proof. cbn. lia. Qed.

Lemma count_failed_one (m : CollectionMetrics) :
  jobsCompleted (count_failed m) + jobsFailed (count_failed m)
  = jobsCompleted m + jobsFailed m + 1.
Proof. cbn. lia. Qed.

(** The [catch] block, when the store accepts the update. *)
Lemma job_failed_effect (job : ScheduledJob) (error : string) (w : World) :
  update_rejected this (id job) failed = false ->
  exists recorded,
    job_failed this job error w
    = (Ok tt,
       {| clock := clock w + Z.max 0 (requestDelay this);
          jobs := update_status (clock w) (id job) failed None
                    (or_null (Some error)) (jobs w);
          metricsRows := metricsRows w; bucket := bucket w;
          console_error := console_error w ++ ["Failed: " +:+ error];
          metricsMap := recorded |})
    /\ jobs_counted (map snd recorded)
       = jobs_counted (map snd (metricsMap w)) + 1.
Proof.
  intros Hacc. unfold job_failed, bind, log_error, updateJobStatus, modify.
  rewrite Hacc. cbn [clock jobs set_jobs].
  match goal with
  | |- context [update_metrics ?l ?f ?w0] =>
      destruct (update_metrics_effect l f w0 count_failed_one)
        as (recorded & Hrun & Hcount);
      rewrite Hrun
  end.
  exists recorded. split; [reflexivity | exact Hcount].
Qed.

(** The [try] block ends normally one request delay later with one more
    job counted, or raises with the metrics as they were, after the delays
    of a refused save when that is what failed. *)
Lemma attempt_job_outcome (job : ScheduledJob) (w : World) :
  (exists w1,
     attempt_job this job w = (Ok tt, w1)
     /\ clock w1 = clock w + Z.max 0 (requestDelay this)
     /\ jobs_counted (map snd (metricsMap w1))
        = jobs_counted (map snd (metricsMap w)) + 1
     /\ metricsRows w1 = metricsRows w)
  \/ (exists e w1 waited,
        attempt_job this job w = (Throw e, w1)
        /\ clock w1 = clock w + waited
        /\ 0 <= waited <= patience (maxRetries this)
        /\ ((forall key, put_fails this key = false) -> waited = 0)
        /\ metricsMap w1 = metricsMap w
        /\ metricsRows w1 = metricsRows w).
Proof.
  pose proof (patience_nonnegative (maxRetries this)) as Hpatience.
  assert (Hnone : forall w1 : World,
            clock w1 = clock w -> clock w1 = clock w + 0
            /\ 0 <= 0 <= patience (maxRetries this)
            /\ ((forall key, put_fails this key = false) -> 0 = 0)).
  { intros w1 H. split; [lia|]. split; [lia|]. reflexivity. }
  unfold attempt_job, bind, updateJobStatus, R2Storage.saveSnapshot,
    throw, modify, lift_result, now, gets, ret.
  destruct (update_rejected this (id job) running).
  { right. eexists _, _, 0. split; [reflexivity|].
    destruct (Hnone w eq_refl) as (H1 & H2 & H3). repeat split; auto; lia. }
  destruct (dict_get (leagueId job) (leagues this)) as [league|].
  2:{ right. eexists _, _, 0. split; [reflexivity|].
      cbn [clock set_jobs metricsMap metricsRows].
      repeat split; auto; lia. }
  destruct (find _ (timings this)) as [timing|].
  2:{ right. eexists _, _, 0. split; [reflexivity|].
      cbn [clock set_jobs metricsMap metricsRows].
      repeat split; auto; lia. }
  destruct (fetchEventOdds this _ _ _) as [oddsData|e].
  2:{ right. eexists _, _, 0. split; [reflexivity|].
      cbn [clock set_jobs metricsMap metricsRows].
      repeat split; auto; lia. }
  cbn [clock set_jobs]. rewrite put_with_retry.
  destruct (1 <=? maxRetries this) eqn:Hmax; cbn [andb].
  2:{ right. eexists _, _, _. split; [reflexivity|].
      cbn [clock set_clock set_jobs metricsMap metricsRows].
      split; [reflexivity|].
      destruct (put_fails this _) eqn:Hput.
      - split; [lia|]. split; [|split; reflexivity].
        intros Hall. rewrite Hall in Hput. discriminate.
      - split; [lia|]. repeat split. }
  destruct (put_fails this _) eqn:Hput; cbn [negb].
  { right. eexists _, _, _. split; [reflexivity|].
    cbn [clock set_clock set_jobs metricsMap metricsRows].
    split; [reflexivity|]. split; [lia|]. split; [|split; reflexivity].
    intros Hall. rewrite Hall in Hput. discriminate. }
  destruct (update_rejected this (id job) completed).
  { right. eexists _, _, 0. split; [reflexivity|].
    cbn [clock set_bucket set_jobs metricsMap metricsRows].
    repeat split; auto; lia. }
  cbn [clock set_jobs set_bucket jobs]. cbv beta.
  match goal with
  | |- context [update_metrics ?l ?f ?w0] =>
      destruct (update_metrics_effect l f w0 (count_completed_one _))
        as (recorded & Hrun & Hcount);
      rewrite Hrun
  end.
  left. eexists. split; [reflexivity|].
  cbn [clock metricsMap metricsRows set_metricsMap set_clock delay modify].
  repeat split. exact Hcount.
Qed.

Lemma execute_job_turn (job : ScheduledJob) (w : World) :
  update_rejected this (id job) failed = false ->
  exists w' waited,
    execute_job this job w = (Ok tt, w')
    /\ clock w' = clock w + Z.max 0 (requestDelay this) + waited
    /\ 0 <= waited <= patience (maxRetries this)
    /\ ((forall key, put_fails this key = false) -> waited = 0)
    /\ jobs_counted (map snd (metricsMap w'))
       = jobs_counted (map snd (metricsMap w)) + 1
    /\ metricsRows w' = metricsRows w.
Proof.
  intros Hacc. unfold execute_job, try_catch.
  pose proof (patience_nonnegative (maxRetries this)) as Hpatience.
  destruct (attempt_job_outcome job w)
    as [(w1 & Hrun & Hclock & Hcount & Hrows)
       |(e & w1 & waited & Hrun & Hclock & Hwait & Hzero & Hmap & Hrows)];
    rewrite Hrun.
  - exists w1, 0. split; [reflexivity|]. split; [lia|]. split; [lia|].
    split; [reflexivity|]. split; assumption.
  - destruct (job_failed_effect job e w1 Hacc) as (recorded & Hfail & Hcount).
    rewrite Hfail. eexists _, waited. split; [reflexivity|].
    cbn [clock metricsMap metricsRows]. rewrite Hclock, Hrows, <- Hmap.
    split; [lia|]. split; [exact Hwait|]. split; [exact Hzero|].
    split; [exact Hcount | reflexivity].
Qed.

Lemma execute_loop_turns (dueJobs : list ScheduledJob) (w : World) :
  (forall jobId, update_rejected this jobId failed = false) ->
  exists w' waited,
    for_of dueJobs (execute_job this) w = (Ok tt, w')
    /\ clock w'
       = clock w + Z.of_nat (length dueJobs) * Z.max 0 (requestDelay this)
         + waited
    /\ 0 <= waited <= Z.of_nat (length dueJobs) * patience (maxRetries this)
    /\ ((forall key, put_fails this key = false) -> waited = 0)
    /\ jobs_counted (map snd (metricsMap w'))
       = jobs_counted (map snd (metricsMap w)) + Z.of_nat (length dueJobs)
    /\ metricsRows w' = metricsRows w.
Proof.
  intros Hacc. revert w. induction dueJobs as [|job rest IH]; intros w.
  - exists w, 0. cbn [for_of length]. repeat split; lia.
  - destruct (execute_job_turn job w (Hacc _))
      as (w1 & t1 & Hrun & Hc1 & Ht1 & Hz1 & Hn1 & Hr1).
    destruct (IH w1) as (w2 & t2 & Hloop & Hc2 & Ht2 & Hz2 & Hn2 & Hr2).
    exists w2, (t1 + t2). cbn [for_of]. unfold bind. rewrite Hrun.
    split; [exact Hloop|]. cbn [length].
    rewrite Hc2, Hn2, Hr2, Hc1, Hn1, Hr1.
    split; [lia|]. split; [lia|].
    split; [intros Hall; rewrite (Hz1 Hall), (Hz2 Hall); reflexivity|].
    split; [lia | reflexivity].
Qed.

Lemma record_loop_rows (l : list CollectionMetrics) (w : World) :
  for_of l recordMetrics w
  = (Ok tt, set_metricsRows (metricsRows w ++ l) w).
Proof.
  revert w. induction l as [|m l IH]; intros w.
  - cbn [for_of]. rewrite app_nil_r. destruct w. reflexivity.
  - cbn [for_of]. unfold bind, recordMetrics at 1, modify.
    rewrite IH. cbn [metricsRows set_metricsRows].
    rewrite <- app_assoc. reflexivity.
Qed.

(** X28.  Once a league has been removed, a due job of that league does
    not reach the store: the job ends failed with the reason recorded,
    after two status updates, the bucket is untouched, and the request
    delay is still awaited. *)
Theorem execute_job_after_removeLeague (job row : ScheduledJob) (w : World) :
  update_rejected this (id job) running = false ->
  update_rejected this (id job) failed = false ->
  select_by_id (id job) (jobs w) = Some row ->
  exists w' row',
    execute_job (removeLeague this (leagueId job)) job w = (Ok tt, w')
    /\ select_by_id (id job) (jobs w') = Some row'
    /\ status row' = failed
    /\ error row' = Some ("League config not found: " +:+ leagueId job)
    /\ attempts row' = attempts row + 2
    /\ lastAttempt row' = Some (clock w)
    /\ completedAt row' = Some (clock w)
    /\ snapshotPath row' = snapshotPath row
    /\ bucket w' = bucket w
    /\ clock w' = clock w + Z.max 0 (requestDelay this).
Proof.
  intros Hrun Hfail Hrow.
  unfold execute_job, try_catch.
  assert (Hattempt :
            attempt_job (removeLeague this (leagueId job)) job w
            = (Throw ("League config not found: " +:+ leagueId job),
               set_jobs (update_status (clock w) (id job) running None None
                           (jobs w)) w)).
  { unfold attempt_job, bind, updateJobStatus.
    change (update_rejected (removeLeague this (leagueId job)))
      with (update_rejected this).
    change (leagues (removeLeague this (leagueId job)))
      with (dict_remove (leagueId job) (leagues this)).
    rewrite Hrun, dict_get_remove_eq. reflexivity. }
  rewrite Hattempt.
  destruct (job_failed_effect job ("League config not found: " +:+ leagueId job)
              (set_jobs (update_status (clock w) (id job) running None None
                           (jobs w)) w) Hfail)
    as (recorded & Hfailed & _).
  change (job_failed (removeLeague this (leagueId job)))
    with (job_failed this).
  rewrite Hfailed. eexists _, _. split; [reflexivity|].
  cbn [jobs set_jobs clock bucket].
  rewrite !select_update_status_same, Hrow. cbn [option_map].
  split; [reflexivity|]. cbn. repeat split. lia.
Qed.

(** X29.  The execution phase awaits the request delay once for every due
    job, whether the job succeeds or fails.  The only other time it spends
    is the backoff of saves the bucket refuses: at most the full backoff
    of [withRetry] for each due job, at most ten seconds for each retry,
    and none when the bucket accepts every PUT. *)
Theorem executeJobs_paces_requests (w : World) :
  (forall jobId, update_rejected this jobId failed = false) ->
  exists due w' waited,
    getJobsDueWithin 5 (maxJobsPerRun this) w = (Ok due, w)
    /\ executeJobs this w = (Ok tt, w')
    /\ clock w'
       = clock w + Z.of_nat (length due) * Z.max 0 (requestDelay this)
         + waited
    /\ 0 <= waited <= Z.of_nat (length due) * patience (maxRetries this)
    /\ patience (maxRetries this) <= 10000 * Z.max 0 (maxRetries this - 1)
    /\ ((forall key, put_fails this key = false) -> waited = 0).
Proof.
  intros Hacc. unfold executeJobs, bind, getJobsDueWithin, gets.
  set (due := select_due_within (clock w) 5 (maxJobsPerRun this) (jobs w)).
  exists due.
  pose proof (patience_bounds 1 (maxRetries this - 1)) as Hbound.
  fold (patience (maxRetries this)) in Hbound.
  destruct due as [|job0 rest] eqn:Hdue.
  { exists w, 0. cbn [length]. repeat split; lia. }
  rewrite <- Hdue. unfold modify.
  destruct (execute_loop_turns due (set_metricsMap [] w) Hacc)
    as (w1 & waited & Hrun & Hclock & Hwait & Hzero & _ & _).
  rewrite Hrun, record_loop_rows. eexists _, waited. split; [reflexivity|].
  split; [reflexivity|]. cbn [clock set_metricsRows].
  split; [exact Hclock|]. split; [exact Hwait|]. split; [lia | exact Hzero].
Qed.

(** X30.  The metrics the execution phase records account for every due
    job exactly once: the rows it appends to the metrics table count, as
    completed or failed, as many jobs as were due, and the rows recorded
    before stay. *)
Theorem executeJobs_accounts_for_every_job (w : World) :
  (forall jobId, update_rejected this jobId failed = false) ->
  exists due w' recorded,
    getJobsDueWithin 5 (maxJobsPerRun this) w = (Ok due, w)
    /\ executeJobs this w = (Ok tt, w')
    /\ metricsRows w' = metricsRows w ++ recorded
    /\ jobs_counted recorded = Z.of_nat (length due).
Proof.
  intros Hacc. unfold executeJobs, bind, getJobsDueWithin, gets.
  set (due := select_due_within (clock w) 5 (maxJobsPerRun this) (jobs w)).
  exists due.
  destruct due as [|job0 rest] eqn:Hdue.
  { exists w, []. rewrite app_nil_r. repeat split. }
  rewrite <- Hdue. unfold modify.
  destruct (execute_loop_turns due (set_metricsMap [] w) Hacc)
    as (w1 & waited & Hrun & _ & _ & _ & Hcount & Hrows).
  rewrite Hrun, record_loop_rows. eexists _, _. split; [reflexivity|].
  split; [reflexivity|]. cbn [metricsRows set_metricsRows].
  rewrite Hrows. split; [reflexivity|]. exact Hcount.
Qed.

End Accounting.

(** ** scripts/repair-production-data: where the tool looks *)

Section Repair.

Import PathUtils RepairProductionData.

Lemma inferSeason_same (tz : Z) (matchDate : string) :
  inferSeason tz matchDate = inferSeasonFromDate tz matchDate.
Proof.
  unfold inferSeason, inferSeasonFromDate.
  destruct (JsDate.parse tz matchDate) as [date|]; [|reflexivity].
  destruct (Z.ltb_spec (JsDate.getMonth tz date + 1) 8),
           (Z.leb_spec 8 (JsDate.getMonth tz date + 1));
    first [reflexivity | lia].
Qed.

Lemma inferSeasonFromDate_not_empty (tz : Z) (matchDate : string) :
  inferSeasonFromDate tz matchDate <> "".
Proof.
  unfold inferSeasonFromDate.
  destruct (JsDate.parse tz matchDate) as [date|]; [|discriminate].
  destruct (8 <=? JsDate.getMonth tz date + 1); apply append_not_empty.
Qed.

(** X11.  The repair tool looks first under the key the collector saves
    to: for a job whose snapshot was saved by the execution phase, with the
    odds of the job's own event, [findMatchingR2Key] returns the key
    [saveSnapshot] wrote, whatever path the job row records. *)
Theorem findMatchingR2Key_finds_saved_key (tz : Z) (job : ScheduledJob)
    (snapshot : OddsSnapshot) (basePath : string)
    (r2Objects : dict R2Object) (object : R2Object) :
  basePath <> "" -> leagueId job <> "" ->
  odds_id (odds snapshot) = eventId job ->
  snapshotTiming (metadata snapshot) = timingOffset job ->
  date (metadata snapshot) = matchDate job ->
  dict_get
    (R2Storage.snapshotKey basePath (leagueId job)
       (inferSeasonFromDate tz (matchDate job)) snapshot) r2Objects
  = Some object ->
  findMatchingR2Key tz job r2Objects basePath
  = Some (R2Storage.snapshotKey basePath (leagueId job)
            (inferSeasonFromDate tz (matchDate job)) snapshot).
Proof.
  intros Hbase Hleague Hid Htiming Hdate Hheld.
  assert (Hkey : fullNewPath tz job basePath
                 = R2Storage.snapshotKey basePath (leagueId job)
                     (inferSeasonFromDate tz (matchDate job)) snapshot).
  { unfold R2Storage.snapshotKey.
    rewrite join_clean_key
      by (first [exact Hleague | apply inferSeasonFromDate_not_empty]).
    assert (Htruthy : R2Storage.truthy basePath = true).
    { unfold R2Storage.truthy.
      destruct (String.eqb_spec basePath ""); [congruence | reflexivity]. }
    rewrite Htruthy. unfold fullNewPath, generateNewPath, R2Storage.getSnapshotId.
    rewrite inferSeason_same, Hid, Htiming, Hdate.
    rewrite !append_assoc. reflexivity. }
  unfold findMatchingR2Key. rewrite Hkey. unfold dict_has. rewrite Hheld.
  reflexivity.
Qed.

End Repair.

(** ** The further properties at work on the scenario *)

(** No character of a text is the given one: by comparing each. *)
Ltac no_such_char :=
  let H := fresh in
  intros H; vm_compute in H;
  repeat (destruct H as [H|H]; [discriminate H|]); exact H.

(** X2 on the closing and the day-before jobs of one event. *)
Lemma generateJobId_injective_witness :
  ~ In "_"%char (list_ascii_of_string "a1b2c3d4e5f6")
  /\ PathUtils.generateJobId "a1b2c3d4e5f6" "day_before"
     = PathUtils.generateJobId "a1b2c3d4e5f6" "day_before"
  /\ ("a1b2c3d4e5f6"%string = "a1b2c3d4e5f6"%string
      /\ "day_before"%string = "day_before"%string).
Proof.
  assert (H : ~ In "_"%char (list_ascii_of_string "a1b2c3d4e5f6"))
    by no_such_char.
  split; [exact H|]. split; [reflexivity|].
  exact (generateJobId_injective "a1b2c3d4e5f6" "day_before" "a1b2c3d4e5f6"
           "day_before" H H eq_refl).
Defined.

(** X3 on the closing offset of the fixture: an hour and a half, in
    binary64 [3 * 2 ^ -1], before kickoff. *)
Lemma calculateScheduledTime_before_kickoff_witness :
  JsDate.parse JsDate.UTC "2025-12-01T15:00:00Z" = Some 1764601200000
  /\ PathUtils.calculateScheduledTime JsDate.UTC "2025-12-01T15:00:00Z"
       (JsNumber.Finite 3 (-1))
     = Ok 1764595800000
  /\ (JsNumber.nonnegative (JsNumber.Finite 3 (-1)) ->
      1764595800000 <= 1764601200000)
  /\ (forall ms : Z,
        JsNumber.whole (PathUtils.offset_ms (JsNumber.Finite 3 (-1))) ms ->
        1764595800000 = 1764601200000 - ms)
  /\ (forall m e ms : Z,
        JsNumber.Finite 3 (-1) = JsNumber.Finite m e ->
        -1074 <= e <= 0 -> Z.abs m * 3600000 < 2 ^ 53 ->
        ms * 2 ^ (- e) = m * 3600000 ->
        1764595800000 = 1764601200000 - ms).
Proof.
  assert (H1 : JsDate.parse JsDate.UTC "2025-12-01T15:00:00Z"
               = Some 1764601200000) by (vm_compute; reflexivity).
  assert (H2 : PathUtils.calculateScheduledTime JsDate.UTC
                 "2025-12-01T15:00:00Z" (JsNumber.Finite 3 (-1))
               = Ok 1764595800000)
    by (vm_compute; reflexivity).
  split; [exact H1|]. split; [exact H2|].
  exact (calculateScheduledTime_before_kickoff JsDate.UTC
           "2025-12-01T15:00:00Z" (JsNumber.Finite 3 (-1)) 1764601200000
           1764595800000 H1 H2).
Defined.

(** X4 on the queue of the scenario and an id it does not hold. *)
Lemma updateJobStatus_unknown_id_witness :
  JobScheduler.select_by_id "0000000000ff_closing" (jobs Scenario.queued)
  = None
  /\ Scenario.accepts_all "0000000000ff_closing" completed = false
  /\ Scenario.accepts_all "0000000000ff_closing" pending = false
  /\ JobScheduler.updateJobStatus Scenario.accepts_all "0000000000ff_closing"
       completed (Some "x.json"%string) None Scenario.queued
     = (Ok tt, Scenario.queued)
  /\ JobScheduler.retryJob Scenario.accepts_all "0000000000ff_closing"
       1764596000000 Scenario.queued
     = (Ok tt, Scenario.queued).
Proof.
  split; [reflexivity|]. split; [reflexivity|]. split; [reflexivity|].
  apply updateJobStatus_unknown_id; reflexivity.
Defined.

(** X5 on the failed closing job, retried at once. *)
Lemma retryJob_requeues_witness :
  Scenario.accepts_all "a1b2c3d4e5f6_closing" pending = false
  /\ JobScheduler.select_by_id "a1b2c3d4e5f6_closing" (jobs Cases.after_failure)
     = Some Cases.failed_job
  /\ 1764596000000 <= clock Cases.after_failure + Z.of_nat 5 * 60000
  /\ (length (jobs Cases.after_failure) <= 100)%nat
  /\ exists due w' row',
       bind (JobScheduler.retryJob Scenario.accepts_all "a1b2c3d4e5f6_closing"
               1764596000000)
            (fun _ => JobScheduler.getJobsDueWithin 5 100) Cases.after_failure
       = (Ok due, w')
       /\ JobScheduler.select_by_id "a1b2c3d4e5f6_closing" (jobs w')
          = Some row'
       /\ In row' due
       /\ status row' = pending /\ scheduledTime row' = 1764596000000
       /\ error row' = None /\ attempts row' = attempts Cases.failed_job
       /\ completedAt row' = completedAt Cases.failed_job
       /\ snapshotPath row' = snapshotPath Cases.failed_job
       /\ (forall other, other <> "a1b2c3d4e5f6_closing"%string ->
             JobScheduler.select_by_id other (jobs w')
             = JobScheduler.select_by_id other (jobs Cases.after_failure)).
Proof.
  assert (H3 : 1764596000000 <= clock Cases.after_failure + Z.of_nat 5 * 60000)
    by (vm_compute; discriminate).
  assert (H4 : (length (jobs Cases.after_failure) <= 100)%nat)
    by (simpl; lia).
  split; [reflexivity|]. split; [reflexivity|]. split; [exact H3|].
  split; [exact H4|].
  exact (retryJob_requeues Scenario.accepts_all "a1b2c3d4e5f6_closing"
           1764596000000 5 100 Cases.after_failure Cases.failed_job
           eq_refl eq_refl H3 H4).
Defined.

(** X8 on the two due jobs: the stale job is first, and announced. *)
Lemma getSummary_announces_first_due_witness :
  JobScheduler.getJobsDueWithin 5 100 Scenario.two_due
  = (Ok [Scenario.stale_job; Scenario.closing_job], Scenario.two_due)
  /\ JobScheduler.getSummary Scenario.two_due
     = (Ok {| JobScheduler.totalPending := 2;
              JobScheduler.totalCompleted := 0;
              JobScheduler.totalFailed := 0;
              JobScheduler.nextJobTime := Some 1764595740000 |},
        Scenario.two_due)
  /\ Some 1764595740000 = Some (scheduledTime Scenario.stale_job).
Proof.
  assert (H1 : JobScheduler.getJobsDueWithin 5 100 Scenario.two_due
               = (Ok [Scenario.stale_job; Scenario.closing_job],
                  Scenario.two_due)) by (vm_compute; reflexivity).
  assert (H2 : JobScheduler.getSummary Scenario.two_due
               = (Ok {| JobScheduler.totalPending := 2;
                        JobScheduler.totalCompleted := 0;
                        JobScheduler.totalFailed := 0;
                        JobScheduler.nextJobTime := Some 1764595740000 |},
                  Scenario.two_due)) by (vm_compute; reflexivity).
  split; [exact H1|]. split; [exact H2|].
  exact (getSummary_announces_first_due 5 100 Scenario.two_due
           Scenario.stale_job [Scenario.closing_job] _ H1 H2).
Defined.

(** X9 on the two due jobs: one closing job for the fixture. *)
Lemma getJobsForEvent_at_most_one_witness :
  Forall keyed (jobs Scenario.two_due)
  /\ NoDup (map id (jobs Scenario.two_due))
  /\ "closing"%string <> ""%string
  /\ (exists found,
        JobScheduler.getJobsForEvent "a1b2c3d4e5f6" (Some "closing"%string)
          Scenario.two_due = (Ok found, Scenario.two_due)
        /\ (length found <= 1)%nat
        /\ Forall (fun row => eventId row = "a1b2c3d4e5f6"%string
                              /\ timingOffset row = "closing"%string) found)
  /\ JobScheduler.getJobsForEvent "a1b2c3d4e5f6" (Some ""%string)
       Scenario.two_due
     = JobScheduler.getJobsForEvent "a1b2c3d4e5f6" None Scenario.two_due.
Proof.
  assert (H1 : Forall keyed (jobs Scenario.two_due))
    by (repeat constructor).
  assert (H2 : NoDup (map id (jobs Scenario.two_due)))
    by (apply (bool_decide_unpack _); vm_compute; reflexivity).
  assert (H3 : "closing"%string <> ""%string) by discriminate.
  split; [exact H1|]. split; [exact H2|]. split; [exact H3|].
  exact (getJobsForEvent_at_most_one "a1b2c3d4e5f6" "closing"
           Scenario.two_due H1 H2 H3).
Defined.

(** X10 on the closing job, three minutes overdue on its day. *)
Lemma getDueJobs_skips_today_witness :
  In Scenario.closing_job (jobs Cases.overdue)
  /\ status Scenario.closing_job = pending
  /\ scheduledTime Scenario.closing_job <= clock Cases.overdue
  /\ scheduledTime Scenario.closing_job / JsDate.msPerDay
     = clock Cases.overdue / JsDate.msPerDay
  /\ 0 <= JsDate.getFullYear JsDate.UTC (clock Cases.overdue) <= 9999
  /\ (exists due,
        JobScheduler.getDueJobs 100 Cases.overdue = (Ok due, Cases.overdue)
        /\ ~ In Scenario.closing_job due)
  /\ (exists due,
        JobScheduler.getJobsDueWithin 0 (length (jobs Cases.overdue))
          Cases.overdue = (Ok due, Cases.overdue)
        /\ In Scenario.closing_job due).
Proof.
  assert (H1 : In Scenario.closing_job (jobs Cases.overdue))
    by (left; reflexivity).
  assert (H3 : scheduledTime Scenario.closing_job <= clock Cases.overdue)
    by (vm_compute; discriminate).
  assert (H4 : scheduledTime Scenario.closing_job / JsDate.msPerDay
               = clock Cases.overdue / JsDate.msPerDay)
    by (vm_compute; reflexivity).
  assert (H5 : 0 <= JsDate.getFullYear JsDate.UTC (clock Cases.overdue) <= 9999)
    by (split; vm_compute; discriminate).
  split; [exact H1|]. split; [reflexivity|]. split; [exact H3|].
  split; [exact H4|]. split; [exact H5|].
  exact (getDueJobs_skips_today 100 Cases.overdue Scenario.closing_job
           H1 eq_refl H3 H4 H5).
Defined.

(** X12 with three attempts, against an outage that ends two and a half
    seconds after the first attempt: the third attempt succeeds. *)
Lemma withRetry_rides_out_outage_witness :
  1 <= 3
  /\ (forall w, Cases.outage 1763000002500 w
                = if clock w <? 1763000002500
                  then (Throw "503 Service Unavailable", w)
                  else (Ok tt, w))
  /\ (1763000002500
      <= clock Scenario.fresh
         + foldr Z.add 0 (R2Storage.backoff <$> seqZ 1 (3 - 1)) ->
      exists t,
        clock Scenario.fresh <= t
        <= clock Scenario.fresh
           + foldr Z.add 0 (R2Storage.backoff <$> seqZ 1 (3 - 1))
        /\ R2Storage.withRetry 3 (Cases.outage 1763000002500)
             "saveSnapshot(key)" Scenario.fresh
           = (Ok tt, set_clock t Scenario.fresh))
  /\ foldr Z.add 0 (R2Storage.backoff <$> seqZ 1 (3 - 1)) <= 10000 * (3 - 1).
Proof.
  assert (H1 : 1 <= 3) by lia.
  assert (H2 : forall w, Cases.outage 1763000002500 w
                         = if clock w <? 1763000002500
                           then (Throw "503 Service Unavailable", w)
                           else (Ok tt, w)) by (intros w; reflexivity).
  split; [exact H1|]. split; [exact H2|].
  pose proof (withRetry_rides_out_outage 3 (Cases.outage 1763000002500)
                "saveSnapshot(key)" 1763000002500 tt
                "503 Service Unavailable" Scenario.fresh H1 H2) as H.
  split; [exact (proj1 H) | exact (proj2 (proj2 H))].
Defined.

(** X13 on the closing snapshot, saved to an empty bucket. *)
Lemma getSnapshot_after_saveSnapshot_witness :
  1 <= 3
  /\ Scenario.never_fails
       (R2Storage.snapshotKey "odds_data_v2" "england_premier_league"
          "2025-2026" Cases.closing_snapshot) = false
  /\ exists w',
       bind (R2Storage.saveSnapshot "odds_data_v2" Scenario.never_fails 3
               "england_premier_league" "2025-2026" Cases.closing_snapshot)
            (fun _ =>
               R2Storage.getSnapshot "odds_data_v2" 3 "england_premier_league"
                 "2025-2026" (R2Storage.getSnapshotId Cases.closing_snapshot))
            Scenario.fresh
       = (Ok (Some (SnapshotObject Cases.closing_snapshot)), w')
       /\ clock w' = clock Scenario.fresh /\ jobs w' = jobs Scenario.fresh.
Proof.
  assert (H1 : 1 <= 3) by lia.
  split; [exact H1|]. split; [reflexivity|].
  exact (getSnapshot_after_saveSnapshot "odds_data_v2" Scenario.never_fails 3
           "england_premier_league" "2025-2026" Cases.closing_snapshot
           Scenario.fresh H1 eq_refl).
Defined.

(** X14 on the empty bucket: three seconds pass, and both calls raise. *)
Lemma getSnapshot_missing_key_throws_witness :
  1 <= 3
  /\ dict_get
       (R2Storage.snapshotIdKey "odds_data_v2" "england_premier_league"
          "2025-2026" "a1b2c3d4e5f6_closing_2025-12-01")
       (bucket Scenario.fresh) = None
  /\ R2Storage.getSnapshot "odds_data_v2" 3 "england_premier_league"
       "2025-2026" "a1b2c3d4e5f6_closing_2025-12-01" Scenario.fresh
     = (Throw
          ("R2Storage: "
           +:+ ("getSnapshot("
                +:+ R2Storage.snapshotIdKey "odds_data_v2"
                      "england_premier_league" "2025-2026"
                      "a1b2c3d4e5f6_closing_2025-12-01" +:+ ")")
           +:+ " failed after " +:+ pretty 3 +:+ " attempts: "
           +:+ R2Storage.NoSuchKey),
        set_clock
          (clock Scenario.fresh
           + foldr Z.add 0 (R2Storage.backoff <$> seqZ 1 (3 - 1)))
          Scenario.fresh)
  /\ clock Scenario.fresh
     + foldr Z.add 0 (R2Storage.backoff <$> seqZ 1 (3 - 1))
     = clock Scenario.fresh + 3000.
Proof.
  assert (H1 : 1 <= 3) by lia.
  split; [exact H1|]. split; [reflexivity|].
  split; [|vm_compute; reflexivity].
  exact (proj1 (getSnapshot_missing_key_throws "odds_data_v2" 3
                  "england_premier_league" "2025-2026"
                  "a1b2c3d4e5f6_closing_2025-12-01" Scenario.fresh H1
                  eq_refl)).
Defined.

(** X15 on the stored match index: deleting a snapshot that is not there
    leaves the index. *)
Lemma deleteSnapshot_removes_one_key_witness :
  1 <= 3
  /\ exists w',
       R2Storage.deleteSnapshot "odds_data_v2" 3 "england_premier_league"
         "2025-2026" "a1b2c3d4e5f6_closing_2025-12-01" Scenario.indexed
       = (Ok tt, w')
       /\ dict_get
            (R2Storage.snapshotIdKey "odds_data_v2" "england_premier_league"
               "2025-2026" "a1b2c3d4e5f6_closing_2025-12-01")
            (bucket w') = None
       /\ (forall other,
             other <> R2Storage.snapshotIdKey "odds_data_v2"
                        "england_premier_league" "2025-2026"
                        "a1b2c3d4e5f6_closing_2025-12-01" ->
             dict_get other (bucket w')
             = dict_get other (bucket Scenario.indexed))
       /\ R2Storage.deleteSnapshot "odds_data_v2" 3 "england_premier_league"
            "2025-2026" "a1b2c3d4e5f6_closing_2025-12-01" w'
          = (Ok tt, w').
Proof.
  assert (H1 : 1 <= 3) by lia.
  split; [exact H1|].
  exact (deleteSnapshot_removes_one_key "odds_data_v2" 3
           "england_premier_league" "2025-2026"
           "a1b2c3d4e5f6_closing_2025-12-01" Scenario.indexed H1).
Defined.

(** X16 on two captures of the closing odds of the fixture, with the
    three attempts of the default. *)
Lemma saveSnapshot_overwrites_same_identity_witness :
  odds_id (odds Cases.closing_snapshot) = odds_id (odds Cases.closing_again)
  /\ snapshotTiming (metadata Cases.closing_snapshot)
     = snapshotTiming (metadata Cases.closing_again)
  /\ date (metadata Cases.closing_snapshot)
     = date (metadata Cases.closing_again)
  /\ 1 <= R2Storage.default_maxRetries
  /\ Scenario.never_fails
       (R2Storage.snapshotKey "odds_data_v2" "england_premier_league"
          "2025-2026" Cases.closing_snapshot) = false
  /\ Cases.closing_snapshot <> Cases.closing_again
  /\ exists w1 w2,
       R2Storage.saveSnapshot "odds_data_v2" Scenario.never_fails
         R2Storage.default_maxRetries "england_premier_league" "2025-2026"
         Cases.closing_snapshot Scenario.fresh = (Ok tt, w1)
       /\ R2Storage.saveSnapshot "odds_data_v2" Scenario.never_fails
            R2Storage.default_maxRetries "england_premier_league" "2025-2026"
            Cases.closing_again w1
          = (Ok tt, w2)
       /\ dict_keys (bucket w2) = dict_keys (bucket w1)
       /\ dict_get
            (R2Storage.snapshotKey "odds_data_v2" "england_premier_league"
               "2025-2026" Cases.closing_snapshot) (bucket w2)
          = Some (SnapshotObject Cases.closing_again).
Proof.
  assert (H4 : 1 <= R2Storage.default_maxRetries)
    by (unfold R2Storage.default_maxRetries; lia).
  split; [reflexivity|]. split; [reflexivity|]. split; [reflexivity|].
  split; [exact H4|]. split; [reflexivity|]. split; [discriminate|].
  exact (saveSnapshot_overwrites_same_identity "odds_data_v2"
           Scenario.never_fails R2Storage.default_maxRetries
           "england_premier_league" "2025-2026"
           Cases.closing_snapshot Cases.closing_again Scenario.fresh
           eq_refl eq_refl eq_refl H4 eq_refl).
Defined.

(** X17 on the key of the closing snapshot. *)
Lemma snapshot_keys_distinct_witness :
  "england_premier_league"%string <> ""%string
  /\ "2025-2026"%string <> ""%string
  /\ ~ In "/"%char (list_ascii_of_string "england_premier_league")
  /\ ~ In "/"%char (list_ascii_of_string "2025-2026")
  /\ R2Storage.snapshotIdKey "odds_data_v2" "england_premier_league"
       "2025-2026" "a1b2c3d4e5f6_closing_2025-12-01"
     = R2Storage.snapshotIdKey "odds_data_v2" "england_premier_league"
         "2025-2026" "a1b2c3d4e5f6_closing_2025-12-01"
  /\ ("england_premier_league"%string = "england_premier_league"%string
      /\ "2025-2026"%string = "2025-2026"%string
      /\ "a1b2c3d4e5f6_closing_2025-12-01"%string
         = "a1b2c3d4e5f6_closing_2025-12-01"%string).
Proof.
  assert (H1 : "england_premier_league"%string <> ""%string) by discriminate.
  assert (H2 : "2025-2026"%string <> ""%string) by discriminate.
  assert (H3 : ~ In "/"%char (list_ascii_of_string "england_premier_league"))
    by no_such_char.
  assert (H4 : ~ In "/"%char (list_ascii_of_string "2025-2026"))
    by no_such_char.
  split; [exact H1|]. split; [exact H2|]. split; [exact H3|].
  split; [exact H4|]. split; [reflexivity|].
  exact (snapshot_keys_distinct "odds_data_v2" "england_premier_league"
           "2025-2026" "a1b2c3d4e5f6_closing_2025-12-01"
           "england_premier_league" "2025-2026"
           "a1b2c3d4e5f6_closing_2025-12-01" H1 H2 H1 H2 H3 H4 H3 H4 eq_refl).
Defined.


(** X19 on the closing snapshot, saved beside the match index. *)
Lemma listSnapshots_lists_saved_snapshot_witness :
  1 <= 3 /\ (0 < 1000)%nat
  /\ (S (length (bucket Scenario.indexed)) < 1 * 1000)%nat
  /\ Scenario.never_fails
       (R2Storage.snapshotKey "odds_data_v2" "england_premier_league"
          "2025-2026" Cases.closing_snapshot) = false
  /\ ~ In "/"%char
         (list_ascii_of_string (R2Storage.getSnapshotId Cases.closing_snapshot))
  /\ exists ids w',
       bind (R2Storage.saveSnapshot "odds_data_v2" Scenario.never_fails 3
               "england_premier_league" "2025-2026" Cases.closing_snapshot)
            (fun _ =>
               R2Storage.listSnapshots "odds_data_v2" 3 1000 1
                 "england_premier_league" "2025-2026")
            Scenario.indexed
       = (Ok (Some ids), w')
       /\ In (R2Storage.getSnapshotId Cases.closing_snapshot) ids.
Proof.
  assert (H1 : 1 <= 3) by lia.
  assert (H2 : (0 < 1000)%nat) by lia.
  assert (H3 : (S (length (bucket Scenario.indexed)) < 1 * 1000)%nat)
    by (simpl; lia).
  assert (H5 : ~ In "/"%char
                 (list_ascii_of_string
                    (R2Storage.getSnapshotId Cases.closing_snapshot)))
    by no_such_char.
  split; [exact H1|]. split; [exact H2|]. split; [exact H3|].
  split; [reflexivity|]. split; [exact H5|].
  exact (listSnapshots_lists_saved_snapshot "odds_data_v2"
           Scenario.never_fails 3 1000 1 "england_premier_league" "2025-2026"
           Cases.closing_snapshot Scenario.indexed H1 H2 H3 eq_refl H5).
Defined.

(** X20 on the match index of the scenario, saved to an empty bucket. *)
Lemma listSnapshots_reports_index_files_witness :
  1 <= 3 /\ (0 < 1000)%nat
  /\ (S (length (bucket Scenario.fresh)) < 1 * 1000)%nat
  /\ Scenario.never_fails
       (R2Storage.indexKey "odds_data_v2" "england_premier_league"
          "2025-2026" "by_match") = false
  /\ ~ In "/"%char (list_ascii_of_string "by_match")
  /\ exists ids w',
       bind (R2Storage.saveIndex "odds_data_v2" Scenario.never_fails 3
               "england_premier_league" "2025-2026" "by_match"
               (MatchIndexObject Scenario.match_index))
            (fun _ =>
               R2Storage.listSnapshots "odds_data_v2" 3 1000 1
                 "england_premier_league" "2025-2026")
            Scenario.fresh
       = (Ok (Some ids), w')
       /\ In "by_match"%string ids.
Proof.
  assert (H1 : 1 <= 3) by lia.
  assert (H2 : (0 < 1000)%nat) by lia.
  assert (H3 : (S (length (bucket Scenario.fresh)) < 1 * 1000)%nat)
    by (simpl; lia).
  assert (H5 : ~ In "/"%char (list_ascii_of_string "by_match"))
    by no_such_char.
  split; [exact H1|]. split; [exact H2|]. split; [exact H3|].
  split; [reflexivity|]. split; [exact H5|].
  exact (listSnapshots_reports_index_files "odds_data_v2"
           Scenario.never_fails 3 1000 1 "england_premier_league" "2025-2026"
           "by_match" (MatchIndexObject Scenario.match_index) Scenario.fresh
           H1 H2 H3 eq_refl H5).
Defined.

(** X21 on a batch of four: a closing snapshot of the Forest match, a
    second one that spells the home side with the no-break space and has
    another path, and two snapshots with another offset or another match.
    The lookup by the second spelling gives the second path. *)
Lemma lookupMatch_finds_latest_path_witness :
  Scenario.never_fails
    (R2Storage.indexKey "odds_data_v2" "england_premier_league" "2025-2026"
       "by_match") = false
  /\ Forall (fun other =>
               ~ (descriptor_key other
                  = descriptor_key Cases.forest_closing_moved
                  /\ desc_timing other
                     = desc_timing Cases.forest_closing_moved))
       [Cases.forest_day_before; Scenario.everton_fulham_closing]
  /\ (descriptor_key Cases.forest_closing_early
      = descriptor_key Cases.forest_closing_moved
      /\ desc_timing Cases.forest_closing_early
         = desc_timing Cases.forest_closing_moved
      /\ desc_path Cases.forest_closing_early
         <> desc_path Cases.forest_closing_moved
      /\ descriptor_key Cases.forest_day_before
         = descriptor_key Cases.forest_closing_moved)
  /\ exists entry w',
       bind (IndexBuilder.updateMatchIndex "odds_data_v2" Scenario.never_fails
               "england_premier_league" "2025-2026"
               ([Cases.forest_closing_early]
                ++ Cases.forest_closing_moved
                   :: [Cases.forest_day_before;
                       Scenario.everton_fulham_closing]))
            (fun _ =>
               IndexBuilder.lookupMatch "odds_data_v2" "england_premier_league"
                 "2025-2026"
                 (desc_homeTeam Cases.forest_closing_moved)
                 (desc_awayTeam Cases.forest_closing_moved)
                 (desc_matchDate Cases.forest_closing_moved))
            Scenario.indexed
       = (Ok (Some entry), w')
       /\ dict_get (desc_timing Cases.forest_closing_moved)
            (snapshots entry)
          = Some (desc_path Cases.forest_closing_moved).
Proof.
  assert (H2 : Forall (fun other =>
                         ~ (descriptor_key other
                            = descriptor_key Cases.forest_closing_moved
                            /\ desc_timing other
                               = desc_timing Cases.forest_closing_moved))
                 [Cases.forest_day_before; Scenario.everton_fulham_closing]).
  { constructor; [|constructor; [|constructor]].
    - intros [_ H]. discriminate H.
    - intros [H _]. vm_compute in H. discriminate H. }
  split; [reflexivity|]. split; [exact H2|].
  split.
  { split; [vm_compute; reflexivity|]. split; [reflexivity|].
    split; [discriminate | vm_compute; reflexivity]. }
  exact (lookupMatch_finds_latest_path "odds_data_v2" Scenario.never_fails
           "england_premier_league" "2025-2026" [Cases.forest_closing_early]
           Cases.forest_closing_moved
           [Cases.forest_day_before; Scenario.everton_fulham_closing]
           Scenario.indexed eq_refl H2).
Defined.

(** X22 on the index that holds the Forest match, through a batch whose
    first descriptor has the key of that match, by the no-break spelling
    of the home side, and another event id and kickoff: the entry keeps
    its own, and the path of its opening snapshot. *)
Lemma updateMatchIndex_keeps_entry_identity_witness :
  dict_get
    (R2Storage.indexKey "odds_data_v2" "england_premier_league" "2025-2026"
       "by_match")
    (bucket Cases.forest_indexed)
  = Some (MatchIndexObject Cases.forest_index)
  /\ Scenario.never_fails
       (R2Storage.indexKey "odds_data_v2" "england_premier_league"
          "2025-2026" "by_match") = false
  /\ dict_get "Nottingham_Forest_Chelsea_2025-12-06"
       (matches Cases.forest_index)
     = Some Cases.forest_entry
  /\ (descriptor_key Cases.forest_closing_moved
      = "Nottingham_Forest_Chelsea_2025-12-06"%string
      /\ desc_homeTeam Cases.forest_closing_moved
         <> entry_homeTeam Cases.forest_entry
      /\ desc_eventId Cases.forest_closing_moved
         <> entry_eventId Cases.forest_entry
      /\ desc_kickoffTime Cases.forest_closing_moved
         <> entry_kickoffTime Cases.forest_entry)
  /\ exists w' saved entry',
       IndexBuilder.updateMatchIndex "odds_data_v2" Scenario.never_fails
         "england_premier_league" "2025-2026"
         [Cases.forest_closing_moved; Scenario.everton_fulham_closing]
         Cases.forest_indexed = (Ok tt, w')
       /\ dict_get
            (R2Storage.indexKey "odds_data_v2" "england_premier_league"
               "2025-2026" "by_match") (bucket w')
          = Some (MatchIndexObject saved)
       /\ dict_get "Nottingham_Forest_Chelsea_2025-12-06" (matches saved)
          = Some entry'
       /\ entry_homeTeam entry' = entry_homeTeam Cases.forest_entry
       /\ entry_awayTeam entry' = entry_awayTeam Cases.forest_entry
       /\ entry_matchDate entry' = entry_matchDate Cases.forest_entry
       /\ entry_eventId entry' = entry_eventId Cases.forest_entry
       /\ entry_kickoffTime entry' = entry_kickoffTime Cases.forest_entry
       /\ dict_get "opening" (snapshots entry')
          = dict_get "opening" (snapshots Cases.forest_entry)
       /\ dict_has "opening" (snapshots entry') = true.
Proof.
  split; [reflexivity|]. split; [reflexivity|]. split; [reflexivity|].
  split.
  { split; [vm_compute; reflexivity|]. split; [discriminate|].
    split; discriminate. }
  destruct (updateMatchIndex_keeps_entry_identity "odds_data_v2"
              Scenario.never_fails "england_premier_league" "2025-2026"
              [Cases.forest_closing_moved; Scenario.everton_fulham_closing]
              Cases.forest_indexed
              Cases.forest_index "Nottingham_Forest_Chelsea_2025-12-06"
              Cases.forest_entry eq_refl eq_refl eq_refl)
    as (w' & saved & entry' & H1 & H2 & H3 & H4 & H5 & H6 & H7 & H8 & H9
        & H10).
  exists w', saved, entry'.
  split; [exact H1|]. split; [exact H2|]. split; [exact H3|].
  split; [exact H4|]. split; [exact H5|]. split; [exact H6|].
  split; [exact H7|]. split; [exact H8|].
  split; [|apply H10; reflexivity].
  apply H9. intros snapshot [<-|[<-|[]]] [_ H]; discriminate H.
Defined.

(** X24 on the stored index and the date of its one match. *)
Lemma getMatchesForDate_after_buildDateIndex_witness :
  dict_get
    (R2Storage.indexKey "odds_data_v2" "england_premier_league" "2025-2026"
       "by_match")
    (bucket Scenario.indexed)
  = Some (MatchIndexObject Scenario.match_index)
  /\ Scenario.never_fails
       (R2Storage.indexKey "odds_data_v2" "england_premier_league"
          "2025-2026" "by_date") = false
  /\ exists w',
       bind (IndexBuilder.buildDateIndex "odds_data_v2" Scenario.never_fails
               "england_premier_league" "2025-2026")
            (fun _ =>
               IndexBuilder.getMatchesForDate "odds_data_v2"
                 "england_premier_league" "2025-2026" "2025-12-01")
            Scenario.indexed
       = (Ok ["Arsenal_Chelsea_2025-12-01"%string], w').
Proof.
  split; [reflexivity|]. split; [reflexivity|].
  destruct (getMatchesForDate_after_buildDateIndex "odds_data_v2"
              Scenario.never_fails "england_premier_league" "2025-2026"
              "2025-12-01" Scenario.indexed Scenario.match_index
              eq_refl eq_refl)
    as (w' & dateIndex & H & _).
  exists w'. exact H.
Defined.

(** X25 on the index that holds the Forest match, asked for the team in
    the spelling with the no-break space. *)
Lemma getMatchesForTeam_after_buildTeamIndex_witness :
  dict_get
    (R2Storage.indexKey "odds_data_v2" "england_premier_league" "2025-2026"
       "by_match")
    (bucket Cases.forest_indexed)
  = Some (MatchIndexObject Cases.forest_index)
  /\ Scenario.never_fails
       (R2Storage.indexKey "odds_data_v2" "england_premier_league"
          "2025-2026" "by_date") = false
  /\ Scenario.never_fails
       (R2Storage.indexKey "odds_data_v2" "england_premier_league"
          "2025-2026" "by_team") = false
  /\ exists w',
       bind (IndexBuilder.buildAllIndexes "odds_data_v2" Scenario.never_fails
               "england_premier_league" "2025-2026")
            (fun _ =>
               IndexBuilder.getMatchesForTeam "odds_data_v2"
                 "england_premier_league" "2025-2026" Cases.no_break_name)
            Cases.forest_indexed
       = (Ok ["Nottingham_Forest_Chelsea_2025-12-06"%string], w')
       /\ bind (IndexBuilder.buildAllIndexes "odds_data_v2"
                  Scenario.never_fails "england_premier_league" "2025-2026")
               (fun _ =>
                  IndexBuilder.getMatchesForTeam "odds_data_v2"
                    "england_premier_league" "2025-2026" "Nottingham_Forest")
               Cases.forest_indexed
          = (Ok ["Nottingham_Forest_Chelsea_2025-12-06"%string], w').
Proof.
  split; [reflexivity|]. split; [reflexivity|]. split; [reflexivity|].
  exact (getMatchesForTeam_after_buildTeamIndex "odds_data_v2"
           Scenario.never_fails "england_premier_league" "2025-2026"
           Cases.no_break_name Cases.forest_indexed Cases.forest_index
           eq_refl eq_refl eq_refl).
Defined.

(** X27 on a collector with a second league the provider does not know. *)
Lemma discoverEvents_skips_failing_league_witness :
  List.NoDup (dict_keys (OddsCollector.leagues Cases.two_leagues))
  /\ dict_get "italy_serie_a" (OddsCollector.leagues Cases.two_leagues)
     = Some Cases.serie_a
  /\ OddsCollector.fetchEvents Cases.two_leagues (providerKey Cases.serie_a)
     = Throw "HTTP error! Status: 404 - Not Found"
  /\ mute (snd (OddsCollector.discoverEvents Cases.two_leagues Scenario.fresh))
     = mute (snd (OddsCollector.discoverEvents
                    (OddsCollector.removeLeague Cases.two_leagues
                       "italy_serie_a") Scenario.fresh))
  /\ In ("Failed to discover events for " +:+ "italy_serie_a" +:+ ": "
         +:+ "HTTP error! Status: 404 - Not Found")
        (console_error
           (snd (OddsCollector.discoverEvents Cases.two_leagues
                   Scenario.fresh))).
Proof.
  assert (H1 : List.NoDup (dict_keys (OddsCollector.leagues Cases.two_leagues))).
  { repeat constructor; simpl; intuition discriminate. }
  split; [exact H1|]. split; [reflexivity|]. split; [reflexivity|].
  exact (discoverEvents_skips_failing_league Cases.two_leagues
           "italy_serie_a" Cases.serie_a
           "HTTP error! Status: 404 - Not Found" Scenario.fresh H1
           eq_refl eq_refl).
Defined.

(** X28 on the closing job, due after its league was removed. *)
Lemma execute_job_after_removeLeague_witness :
  OddsCollector.update_rejected (Scenario.collector Scenario.accepts_all)
    (id Scenario.closing_job) running = false
  /\ OddsCollector.update_rejected (Scenario.collector Scenario.accepts_all)
       (id Scenario.closing_job) failed = false
  /\ JobScheduler.select_by_id (id Scenario.closing_job)
       (jobs Scenario.closing_due) = Some Scenario.closing_job
  /\ exists w' row',
       OddsCollector.execute_job
         (OddsCollector.removeLeague (Scenario.collector Scenario.accepts_all)
            (leagueId Scenario.closing_job))
         Scenario.closing_job Scenario.closing_due = (Ok tt, w')
       /\ JobScheduler.select_by_id (id Scenario.closing_job) (jobs w')
          = Some row'
       /\ status row' = failed
       /\ error row'
          = Some ("League config not found: "
                  +:+ leagueId Scenario.closing_job)
       /\ attempts row' = attempts Scenario.closing_job + 2
       /\ bucket w' = bucket Scenario.closing_due.
Proof.
  split; [reflexivity|]. split; [reflexivity|]. split; [reflexivity|].
  destruct (execute_job_after_removeLeague
              (Scenario.collector Scenario.accepts_all) Scenario.closing_job
              Scenario.closing_job Scenario.closing_due eq_refl eq_refl
              eq_refl)
    as (w' & row' & H1 & H2 & H3 & H4 & H5 & _ & _ & _ & H6 & _).
  exists w', row'. repeat split; assumption.
Defined.

(** X29 on the two due jobs in front of a bucket that refuses every PUT:
    two request delays of 1100 ms, and the 1000 + 2000 ms of the three
    attempts to save the closing snapshot. *)
Lemma executeJobs_paces_requests_witness :
  (forall jobId,
     OddsCollector.update_rejected Cases.refused_saves jobId failed = false)
  /\ clock (snd (OddsCollector.executeJobs Cases.refused_saves
                   Scenario.two_due))
     = clock Scenario.two_due + 2 * 1100 + 3000
  /\ exists due w' waited,
       JobScheduler.getJobsDueWithin 5
         (OddsCollector.maxJobsPerRun Cases.refused_saves)
         Scenario.two_due = (Ok due, Scenario.two_due)
       /\ OddsCollector.executeJobs Cases.refused_saves Scenario.two_due
          = (Ok tt, w')
       /\ clock w'
          = clock Scenario.two_due
            + Z.of_nat (length due)
              * Z.max 0 (OddsCollector.requestDelay Cases.refused_saves)
            + waited
       /\ 0 <= waited
          <= Z.of_nat (length due)
             * patience (OddsCollector.maxRetries Cases.refused_saves)
       /\ patience (OddsCollector.maxRetries Cases.refused_saves)
          <= 10000
             * Z.max 0 (OddsCollector.maxRetries Cases.refused_saves - 1)
       /\ ((forall key,
              OddsCollector.put_fails Cases.refused_saves key = false) ->
           waited = 0).
Proof.
  split; [intros jobId; reflexivity|].
  split; [vm_compute; reflexivity|].
  apply executeJobs_paces_requests. intros jobId. reflexivity.
Defined.

(** X30 on the same two jobs: one completed and one failed are
    recorded. *)
Lemma executeJobs_accounts_for_every_job_witness :
  (forall jobId,
     OddsCollector.update_rejected (Scenario.collector Scenario.accepts_all)
       jobId failed = false)
  /\ exists due w' recorded,
       JobScheduler.getJobsDueWithin 5
         (OddsCollector.maxJobsPerRun (Scenario.collector Scenario.accepts_all))
         Scenario.two_due = (Ok due, Scenario.two_due)
       /\ OddsCollector.executeJobs (Scenario.collector Scenario.accepts_all)
            Scenario.two_due = (Ok tt, w')
       /\ metricsRows w' = metricsRows Scenario.two_due ++ recorded
       /\ jobs_counted recorded = Z.of_nat (length due).
Proof.
  split; [intros jobId; reflexivity|].
  apply executeJobs_accounts_for_every_job. intros jobId. reflexivity.
Defined.

(** X11 on the closing job and the listing that holds its snapshot. *)
Lemma findMatchingR2Key_finds_saved_key_witness :
  "odds_data_v2"%string <> ""%string
  /\ leagueId Scenario.closing_job <> ""%string
  /\ odds_id (odds Cases.closing_snapshot) = eventId Scenario.closing_job
  /\ snapshotTiming (metadata Cases.closing_snapshot)
     = timingOffset Scenario.closing_job
  /\ date (metadata Cases.closing_snapshot) = matchDate Scenario.closing_job
  /\ RepairProductionData.findMatchingR2Key JsDate.UTC Scenario.closing_job
       Cases.listed "odds_data_v2"
     = Some (R2Storage.snapshotKey "odds_data_v2"
               (leagueId Scenario.closing_job)
               (PathUtils.inferSeasonFromDate JsDate.UTC
                  (matchDate Scenario.closing_job))
               Cases.closing_snapshot).
Proof.
  assert (H1 : "odds_data_v2"%string <> ""%string) by discriminate.
  assert (H2 : leagueId Scenario.closing_job <> ""%string) by discriminate.
  assert (H6 : dict_get
                 (R2Storage.snapshotKey "odds_data_v2"
                    (leagueId Scenario.closing_job)
                    (PathUtils.inferSeasonFromDate JsDate.UTC
                       (matchDate Scenario.closing_job))
                    Cases.closing_snapshot) Cases.listed
               = Some {| RepairProductionData.r2_key :=
                           "odds_data_v2/leagues/england_premier_league/2025-2026/a1b2c3d4e5f6_closing_2025-12-01.json";
                         RepairProductionData.r2_size := 2048;
                         RepairProductionData.r2_uploaded := 1764595700000 |})
    by (vm_compute; reflexivity).
  split; [exact H1|]. split; [exact H2|]. split; [reflexivity|].
  split; [reflexivity|]. split; [reflexivity|].
  exact (findMatchingR2Key_finds_saved_key JsDate.UTC Scenario.closing_job
           Cases.closing_snapshot "odds_data_v2" Cases.listed _ H1 H2
           eq_refl eq_refl eq_refl H6).
Defined.
